(** * arbiter: path routing and the S3 driver

    A shallow embedding of [arbiter/arbiter.cpp] (path routing, the driver
    registry, copy, local handles) and [arbiter/drivers/s3.cpp]
    (bucket/object parsing, base64, request signing, retry loop, paginated
    listing), with the properties of the specification stated over it. *)

From Stdlib Require Import ZArith NArith Arith List Bool Lia.
From Stdlib Require Import Strings.Ascii Strings.String Strings.Byte.
From Stdlib Require Import DecimalString.
Import ListNotations.

Set Warnings "-register-all".

Local Open Scope string_scope.

(** ** std::string *)

(** Positions are [nat]; [std::string::npos] is [None]. *)
Module StdString.

(** [s.find(needle, pos)] *)
Definition find (s needle : string) (pos : nat) : option nat :=
  index pos needle s.

(** [s.find(c, pos)] *)
Definition find_char (s : string) (c : ascii) (pos : nat) : option nat :=
  index pos (String c EmptyString) s.

(** [s.substr(pos, n)] for [pos <= s.size()]; [n = None] is the default
    argument [npos]. The call throws [std::out_of_range] exactly when
    [substr_out_of_range s pos]; the call sites that can reach that case
    test it first. *)
Definition substr (s : string) (pos : nat) (n : option nat) : string :=
  substring pos (match n with Some k => k | None => length s end) s.

Definition substr_out_of_range (s : string) (pos : nat) : bool :=
  (length s <? pos)%nat.

(** [s.back()]: undefined on the empty string ([None]). *)
Fixpoint back (s : string) : option ascii :=
  match s with
  | EmptyString => None
  | String c EmptyString => Some c
  | String _ s' => back s'
  end.

(** [s.pop_back()] on a non-empty string. *)
Fixpoint pop_back (s : string) : string :=
  match s with
  | EmptyString => EmptyString
  | String _ EmptyString => EmptyString
  | String c s' => String c (pop_back s')
  end.

(** [s] has an occurrence of [d]. *)
Definition occurs (d s : string) : Prop :=
  exists a b, s = a ++ d ++ b.

(** [s.find_last_of(c)] *)
Fixpoint find_last_of (s : string) (c : ascii) : option nat :=
  match s with
  | EmptyString => None
  | String x s' =>
      match find_last_of s' c with
      | Some pos => Some (S pos)
      | None => if Ascii.eqb x c then Some 0 else None
      end
  end.

End StdString.

Import StdString.

(** ** Outcomes of C++ evaluation *)

Module Cxx.

(** A pure computation either has a value or hits undefined behaviour. *)
Inductive Eval (A : Type) : Type :=
| Value (a : A)
| UB.
Arguments Value {A} a.
Arguments UB {A}.

Inductive Exception : Type :=
| runtime_error (what : string)
| ArbiterError (what : string)
| out_of_range
| parse_error.

(** A call on world [W]: it returns, throws, or is undefined. *)
Inductive Outcome (W A : Type) : Type :=
| Returned (a : A) (w : W)
| Threw (e : Exception) (w : W)
| Undefined.
Arguments Returned {W A} a w.
Arguments Threw {W A} e w.
Arguments Undefined {W A}.

(** Sequencing: an exception or undefined behaviour ends the call. *)
Definition bind {W A B : Type} (m : Outcome W A)
    (k : A -> W -> Outcome W B) : Outcome W B :=
  match m with
  | Returned a w => k a w
  | Threw e w => Threw e w
  | Undefined => Undefined
  end.

(** The same for a value that may be an exception. *)
Definition bind_value {W A B : Type} (m : Exception + A) (w : W)
    (k : A -> Outcome W B) : Outcome W B :=
  match m with
  | inl e => Threw e w
  | inr a => k a
  end.

Notation "'run' x , w <- m ;; k" := (bind m (fun x w => k))
  (at level 10, x name, w name, m at level 100, k at level 200).

Notation "'val' x <- m 'at' w ;; k" := (bind_value m w (fun x => k))
  (at level 10, x name, m at level 100, w at level 0, k at level 200).

Definition nl : string := String (ascii_of_nat 10) EmptyString.

Definition string_of_nat (n : nat) : string :=
  NilEmpty.string_of_uint (Nat.to_uint n).

Definition string_of_Z (z : Z) : string :=
  NilEmpty.string_of_int (Z.to_int z).

Definition string_of_N (n : N) : string :=
  NilEmpty.string_of_uint (N.to_uint n).

End Cxx.

Import Cxx.

(** ** arbiter.cpp: path routing *)

Module Arbiter.

Definition delimiter : string := "://".

Definition getType (path : string) : string :=
  match find path delimiter 0 with
  | Some pos => substr path 0 (Some pos)
  | None => "file"
  end.

Definition stripType (raw : string) : string :=
  match find raw delimiter 0 with
  | Some pos => substr raw (pos + length delimiter) None
  | None => raw
  end.

Definition getExtension (path : string) : string :=
  match find_last_of path "." with
  | Some pos => substr path (pos + 1) None
  | None => ""
  end.

Definition stripExtension (path : string) : string :=
  let pos := find_last_of path "." in
  substr path 0 pos.

(** *** copy (lines 211-300) *)

(** What [Arbiter::copy] takes from the rest of the library: the path
    utilities of util.cpp, the [Driver] interface and the [Endpoint] class. *)
Class Env (W Driver Endpoint : Type) : Type := {
  isDirectory : string -> bool;
  stripPostfixing : string -> string;
  getBasename : string -> string;
  getNonBasename : string -> string;
  mkdirp : string -> W -> Outcome W bool;
  cout : string -> W -> W;
  driver_getBinary : Driver -> string -> W -> Outcome W (list byte);
  driver_put : Driver -> string -> list byte -> W -> Outcome W unit;
  driver_resolve : Driver -> string -> bool -> W -> Outcome W (list string);
  driver_copy : Driver -> string -> string -> W -> Outcome W unit;
  Endpoint_new : Driver -> string -> Endpoint;
  endpoint_type : Endpoint -> string;
  endpoint_isLocal : Endpoint -> bool;
  prefixedRoot : Endpoint -> string;
  fullPath : Endpoint -> string -> string;
  prefixedFullPath : Endpoint -> string -> string;
  endpoint_put : Endpoint -> string -> list byte -> W -> Outcome W unit
}.

Section Copy.
Context {W Driver Endpoint : Type} {env : Env W Driver Endpoint}.

(** [m_drivers]: the registered drivers by type. *)
Variable m_drivers : list (string * Driver).

Fixpoint drivers_at (drivers : list (string * Driver)) (type : string)
    : option Driver :=
  match drivers with
  | [] => None
  | (t, d) :: rest => if String.eqb t type then Some d else drivers_at rest type
  end.

Definition getDriver (path : string) : Exception + Driver :=
  let type := getType path in
  match drivers_at m_drivers type with
  | None => inl (ArbiterError ("No driver for " ++ path))
  | Some d => inr d
  end.

Definition getEndpoint (root : string) : Exception + Endpoint :=
  match getDriver root with
  | inl e => inl e
  | inr d => inr (Endpoint_new d (stripType root))
  end.

Definition getBinary (path : string) (w : W) : Outcome W (list byte) :=
  val d <- getDriver path at w ;;
  driver_getBinary d (stripType path) w.

Definition put (path : string) (data : list byte) (w : W) : Outcome W unit :=
  val d <- getDriver path at w ;;
  driver_put d (stripType path) data w.

Definition resolve (path : string) (verbose : bool) (w : W)
    : Outcome W (list string) :=
  val d <- getDriver path at w ;;
  driver_resolve d (stripType path) verbose w.

Definition copyFile (file dst : string) (verbose : bool) (w : W)
    : Outcome W unit :=
  if (length dst =? 0)%nat
  then Threw (ArbiterError "Cannot copy to empty destination") w
  else
    val dstEndpoint <- getEndpoint dst at w ;;
    let dst := if isDirectory dst then dst ++ getBasename file else dst in
    let w := if verbose then cout (file ++ " -> " ++ dst ++ nl) w else w in
    run _, w <- (if endpoint_isLocal dstEndpoint
                 then mkdirp (getNonBasename dst) w
                 else Returned true w) ;;
    val fileEndpoint <- getEndpoint file at w ;;
    if String.eqb (endpoint_type fileEndpoint) (endpoint_type dstEndpoint)
    then
      val d <- getDriver file at w ;;
      driver_copy d (stripType file) (stripType dst) w
    else
      run data, w <- getBinary file w ;;
      put dst data w.

(** The [for] loop over the resolved paths; [i] counts them for the
    progress line. *)
Fixpoint copy_paths (commonPrefix : string) (dstEndpoint : Endpoint)
    (verbose : bool) (total : nat) (paths : list string) (i : nat) (w : W)
    : Outcome W unit :=
  match paths with
  | [] => Returned tt w
  | path :: rest =>
      if substr_out_of_range path (length commonPrefix) then Threw out_of_range w
      else
        let subpath := substr path (length commonPrefix) None in
        let i := if verbose then S i else i in
        let w :=
          if verbose then
            cout (string_of_nat i ++ " / " ++ string_of_nat total ++ ": " ++
                  path ++ " -> " ++ prefixedFullPath dstEndpoint subpath ++ nl) w
          else w in
        run _, w <- (if endpoint_isLocal dstEndpoint
                     then mkdirp (getNonBasename (fullPath dstEndpoint subpath)) w
                     else Returned true w) ;;
        run data, w <- getBinary path w ;;
        run _, w <- endpoint_put dstEndpoint subpath data w ;;
        copy_paths commonPrefix dstEndpoint verbose total rest i w
  end.

Definition copy (src dst : string) (verbose : bool) (w : W) : Outcome W unit :=
  if (length src =? 0)%nat
  then Threw (ArbiterError "Cannot copy from empty source") w
  else if (length dst =? 0)%nat
  then Threw (ArbiterError "Cannot copy to empty destination") w
  else
    let srcToResolve := src ++ (if isDirectory src then "**" else "") in
    match back srcToResolve with
    | None => Undefined
    | Some c =>
        if negb (Ascii.eqb c "*") then copyFile src dst verbose w
        else
          val srcEndpoint <- getEndpoint (stripPostfixing src) at w ;;
          let commonPrefix := prefixedRoot srcEndpoint in
          val dstEndpoint <- getEndpoint dst at w ;;
          if String.eqb (prefixedRoot srcEndpoint) (prefixedRoot dstEndpoint)
          then Threw (ArbiterError "Cannot copy directory to itself") w
          else
            run paths, w <- resolve srcToResolve verbose w ;;
            copy_paths commonPrefix dstEndpoint verbose
              (List.length paths) paths 0 w
    end.

End Copy.

(** *** The driver registry (lines 110-119) *)

(** [m_drivers[type] = driver] on the [std::map]: the entry of [type] is
    replaced, or a new one is inserted in key order. *)
Fixpoint drivers_set {Driver : Type} (type : string) (driver : Driver)
    (drivers : list (string * Driver)) : list (string * Driver) :=
  match drivers with
  | [] => [(type, driver)]
  | (t, d) :: rest =>
      match String.compare type t with
      | Eq => (type, driver) :: rest
      | Lt => (type, driver) :: drivers
      | Gt => (t, d) :: drivers_set type driver rest
      end
  end.

(** [m_drivers.count(getType(path))] as a [bool]. *)
Definition hasDriver {Driver : Type} (m_drivers : list (string * Driver))
    (path : string) : bool :=
  match drivers_at m_drivers (getType path) with
  | Some _ => true
  | None => false
  end.

(** [driver] is the [std::unique_ptr<Driver>], [None] the null pointer; the
    result is [m_drivers] after the call. *)
Definition addDriver {Driver : Type} (m_drivers : list (string * Driver))
    (type : string) (driver : option Driver)
    : Exception + list (string * Driver) :=
  match driver with
  | None => inl (ArbiterError ("Cannot add empty driver for " ++ type))
  | Some d => inr (drivers_set type d m_drivers)
  end.

(** *** Local handles (lines 302-310, 357-385) *)

(** What [getLocalHandle] takes from the rest of the library:
    [Driver::isRemote], [Endpoint::isRemote] and [Endpoint::root], and
    [randomNumber] and [expandTilde] of util.cpp. *)
Class Local (W Driver Endpoint : Type) : Type := {
  driver_isRemote : Driver -> bool;
  endpoint_isRemote : Endpoint -> bool;
  endpoint_root : Endpoint -> string;
  randomNumber : W -> N * W;
  expandTilde : string -> string
}.

(** [LocalHandle(localPath, erase)] *)
Record LocalHandle : Type := { localPath : string; erase : bool }.

Section Handle.
Context {W Driver Endpoint : Type} {env : Env W Driver Endpoint}
        {local : Local W Driver Endpoint}.
Variable m_drivers : list (string * Driver).

Definition isRemote (path : string) : Exception + bool :=
  match getDriver m_drivers path with
  | inl e => inl e
  | inr d => inr (driver_isRemote d)
  end.

Definition isLocal (path : string) : Exception + bool :=
  match isRemote path with
  | inl e => inl e
  | inr remote => inr (negb remote)
  end.

Definition getLocalHandle (path : string) (tempEndpoint : Endpoint) (w : W)
    : Outcome W LocalHandle :=
  val remote <- isRemote path at w ;;
  if remote then
    if endpoint_isRemote tempEndpoint
    then Threw (ArbiterError "Temporary endpoint must be local.") w
    else
      let ext := getExtension path in
      let '(number, w) := randomNumber w in
      let basename :=
        string_of_N number ++
        (if (0 <? length ext)%nat then "." ++ ext else "") in
      run data, w <- getBinary m_drivers path w ;;
      run _, w <- endpoint_put tempEndpoint basename data w ;;
      Returned {| localPath := endpoint_root tempEndpoint ++ basename;
                  erase := true |} w
  else
    Returned {| localPath := expandTilde (stripType path); erase := false |} w.

End Handle.

End Arbiter.

(** ** drivers/s3.cpp *)

Module S3.

(** *** Bucket and object of a path (lines 30-52) *)

Definition split (fullPath : string) : Eval (option nat) :=
  match back fullPath with
  | None => UB
  | Some c =>
      let fullPath := if Ascii.eqb c "/" then pop_back fullPath else fullPath in
      Value (find fullPath "/" 0)
  end.

Definition getBucket (fullPath : string) : Eval string :=
  match split fullPath with
  | Value pos => Value (substr fullPath 0 pos)
  | UB => UB
  end.

Definition getObject (fullPath : string) : Eval string :=
  let object := "" in
  match split fullPath with
  | Value (Some pos) => Value (substr fullPath (pos + 1) None)
  | Value None => Value object
  | UB => UB
  end.

(** *** Base64 (lines 387-434) *)

Definition vals : string :=
  "ABCDEFGHIJKLMNOPQRSTUVWXYZabcdefghijklmnopqrstuvwxyz0123456789+/".

Definition mask : Z := 63.

Definition uint32 (z : Z) : Z := z mod 2 ^ 32.

(** [vals[i]] *)
Definition vals_at (i : Z) : ascii :=
  match get (Z.to_nat i) vals with
  | Some c => c
  | None => zero
  end.

(** [*(pos) << 16 | *(pos + 1) << 8 | *(pos + 2)] as a [uint32_t];
    [pos] is an index into [input]. *)
Definition chunk_at (input : list Z) (pos : nat) : Z :=
  uint32 (Z.lor (Z.lor (Z.shiftl (nth pos input 0%Z) 16)
                       (Z.shiftl (nth (pos + 1) input 0%Z) 8))
                (nth (pos + 2) input 0%Z)).

(** [while (input.size() % 3) input.push_back(0)] *)
Fixpoint pad_input (fuel : nat) (input : list Z) : list Z :=
  match fuel with
  | O => input
  | S fuel' =>
      if (List.length input mod 3 =? 0)%nat then input
      else pad_input fuel' (input ++ [0%Z])%list
  end.

(** [while (output.size() % 4) output.push_back('=')] *)
Fixpoint pad_output (fuel : nat) (output : string) : string :=
  match fuel with
  | O => output
  | S fuel' =>
      if (length output mod 4 =? 0)%nat then output
      else pad_output fuel' (output ++ "=")
  end.

(** [std::string(n, c)] *)
Fixpoint string_fill (n : nat) (c : ascii) : string :=
  match n with
  | O => EmptyString
  | S n' => String c (string_fill n' c)
  end.

(** [output[i] = c] for [i < output.size()] *)
Fixpoint string_set (output : string) (i : nat) (c : ascii) : string :=
  match output, i with
  | EmptyString, _ => EmptyString
  | String _ rest, O => String c rest
  | String x rest, S i' => String x (string_set rest i' c)
  end.

(** [output.push_back(c)] *)
Definition push_back (output : string) (c : ascii) : string :=
  output ++ String c EmptyString.

(** The loop [while (pos != end)] over the full 3-byte groups; [steps]
    bounds the iterations ([fullSteps] of them reach [end]). Returns the
    final [pos] and [output]. *)
Fixpoint encode_loop (steps : nat) (input : list Z) (pos end_ : nat)
    (output : string) (outIndex : nat) : nat * string :=
  if (pos =? end_)%nat then (pos, output)
  else
    match steps with
    | O => (pos, output)
    | S steps' =>
        let chunk := chunk_at input pos in
        let output := string_set output outIndex
                        (vals_at (Z.land (Z.shiftr chunk 18) mask)) in
        let output := string_set output (outIndex + 1)
                        (vals_at (Z.land (Z.shiftr chunk 12) mask)) in
        let output := string_set output (outIndex + 2)
                        (vals_at (Z.land (Z.shiftr chunk 6) mask)) in
        let output := string_set output (outIndex + 3)
                        (vals_at (Z.land chunk mask)) in
        encode_loop steps' input (pos + 3) end_ output (outIndex + 4)
    end.

(** [*reinterpret_cast<uint8_t*>(&c)] *)
Definition uint8_of_char (c : byte) : Z := Z.of_N (Byte.to_N c).

Definition encodeBase64 (data : list byte) : string :=
  let input := map uint8_of_char data in
  let fullSteps := (List.length input / 3)%nat in
  let input := pad_input 3 input in
  let pos := O in
  let end_ := (fullSteps * 3)%nat in
  let output := string_fill (fullSteps * 4) "_" in
  let '(pos, output) := encode_loop fullSteps input pos end_ output 0 in
  let output :=
    if negb (end_ =? List.length input)%nat then
      let num := if (Z.of_nat pos - Z.of_nat end_ =? 1)%Z then 2%nat else 3%nat in
      let chunk := chunk_at input pos in
      let output := push_back output (vals_at (Z.land (Z.shiftr chunk 18) mask)) in
      let output := push_back output (vals_at (Z.land (Z.shiftr chunk 12) mask)) in
      if (num =? 3)%nat
      then push_back output (vals_at (Z.land (Z.shiftr chunk 6) mask))
      else output
    else output in
  pad_output 4 output.

(** The encoder read as a function of the byte list, group by group: a
    full group gives four characters, and a last group of one or two bytes
    gives, as [encodeBase64] computes it, three characters and one pad. *)
Definition chunk_of (a b c : Z) : Z :=
  uint32 (Z.lor (Z.lor (Z.shiftl a 16) (Z.shiftl b 8)) c).

Definition triplet (chunk : Z) : string :=
  String (vals_at (Z.land (Z.shiftr chunk 18) mask))
    (String (vals_at (Z.land (Z.shiftr chunk 12) mask))
       (String (vals_at (Z.land (Z.shiftr chunk 6) mask)) EmptyString)).

Definition quartet (chunk : Z) : string :=
  triplet chunk ++ String (vals_at (Z.land chunk mask)) EmptyString.

Fixpoint encode_groups (input : list Z) : string :=
  match input with
  | a :: b :: c :: rest => quartet (chunk_of a b c) ++ encode_groups rest
  | [a; b] => triplet (chunk_of a b 0) ++ "="
  | [a] => triplet (chunk_of a 0 0) ++ "="
  | [] => ""
  end.

(** *** HTTP responses and the host environment *)

Record HttpResponse : Type := { code : Z; data : list byte }.

(** [Query], declared in the absent s3.hpp, read as
    [std::map<std::string, std::string>]: entries ordered by key. *)
Definition Query : Type := list (string * string).

(** [query[k] = v] *)
Fixpoint query_set (k v : string) (query : Query) : Query :=
  match query with
  | [] => [(k, v)]
  | (k', v') :: rest =>
      match String.compare k k' with
      | Eq => (k, v) :: rest
      | Lt => (k, v) :: query
      | Gt => (k', v') :: query_set k v rest
      end
  end.

Fixpoint query_get (k : string) (query : Query) : option string :=
  match query with
  | [] => None
  | (k', v') :: rest => if String.eqb k k' then Some v' else query_get k rest
  end.

(** A parsed XML node: [name()], [value()] and the child nodes in document
    order. A node pointer is the list of siblings starting at the node; the
    null pointer is [[]]. *)
Inductive XmlNode : Type :=
| Node (name value : string) (children : list XmlNode).

Definition node_value (n : XmlNode) : string :=
  match n with Node _ v _ => v end.

Definition node_children (n : XmlNode) : list XmlNode :=
  match n with Node _ _ c => c end.

(** [first_node(name)] among [children] *)
Fixpoint first_node (children : list XmlNode) (name : string) : list XmlNode :=
  match children with
  | [] => []
  | Node n v c :: siblings =>
      if String.eqb n name then children else first_node siblings name
  end.

(** What the driver takes from its surroundings: the curl batch
    ([m_curlBatch->get], [->put]), [std::this_thread::sleep_for],
    [std::cout], the clock as [strftime] formats it, OpenSSL's HMAC-SHA1 and
    the XML parser ([None]: it threw [Xml::parse_error]). *)
Class Host (W : Type) : Type := {
  curl_get : string -> list string -> W -> HttpResponse * W;
  curl_put : string -> list string -> list byte -> W -> HttpResponse * W;
  sleep_for : Z -> W -> W;
  cout : string -> W -> W;
  strftime_now : W -> string;
  hmac_sha1 : string -> string -> list byte;
  xml_parse : string -> option (list XmlNode)
}.

Record AwsAuth : Type := { m_access : string; m_hidden : string }.

Record S3Driver : Type := { m_auth : AwsAuth }.

Definition httpAttempts : N := 200.
Definition baseSleepTime : Z := 1.
Definition maxSleepTime : Z := 4096.
Definition baseUrl : string := ".s3.amazonaws.com/".
Definition badResponse : string := "Unexpected contents in AWS response".

(** [std::size_t] arithmetic wraps at 2^64. *)
Definition size_t (n : N) : N := (n mod 2 ^ 64)%N.

(** *** The retry loop (lines 217-245) *)

Section Driver.
Context {W : Type} {host : Host W}.

(** One iteration of the [do ... while] per unit of [fuel]; [None] when the
    fuel runs out before the loop exits. *)
Fixpoint httpExec_loop (fuel : nat) (f : W -> Outcome W HttpResponse)
    (tries fails : N) (sleepTime : Z) (w : W)
    : option (Outcome W HttpResponse) :=
  match fuel with
  | O => None
  | S fuel' =>
      match f w with
      | Returned res w =>
          let '(sleepTime, w) :=
            if negb (code res =? 200)%Z then
              let w := sleep_for sleepTime w in
              let sleepTime := (sleepTime * 2)%Z in
              let sleepTime :=
                if (sleepTime >? maxSleepTime)%Z then maxSleepTime
                else sleepTime in
              let w :=
                if (fails =? 5)%N
                then cout ("Detected bad S3 connection quality" ++ nl) w
                else w in
              (sleepTime, w)
            else (sleepTime, w) in
          if (Z.quot (code res) 100 =? 5)%Z then
            let fails := size_t (fails + 1) in
            if (fails <? tries)%N
            then httpExec_loop fuel' f tries fails sleepTime w
            else Some (Returned res w)
          else Some (Returned res w)
      | Threw e w => Some (Threw e w)
      | Undefined => Some Undefined
      end
  end.

Definition httpExec (f : W -> Outcome W HttpResponse) (tries : N) (w : W)
    : option (Outcome W HttpResponse) :=
  httpExec_loop (S (N.to_nat tries)) f tries 0 baseSleepTime w.

(** *** Signing and headers (lines 271-385) *)

Variable this : S3Driver.

Definition getHttpDate (w : W) : string := strftime_now w.

Definition getStringToSign (command file httpDate contentType : string)
    : string :=
  command ++ nl ++
  nl ++
  contentType ++ nl ++
  httpDate ++ nl ++
  "/" ++ file.

(** The 20-byte buffer of spaces that [HMAC_Final] writes the digest into. *)
Definition signString (input : string) : list byte :=
  let hash := repeat x20 20 in
  let digest := hmac_sha1 (m_hidden (m_auth this)) input in
  (firstn 20 digest ++ skipn (List.length digest) hash)%list.

Definition getSignedEncodedString
    (command file httpDate contentType : string) : string :=
  let toSign := getStringToSign command file httpDate contentType in
  let signedData := signString toSign in
  encodeBase64 signedData.

(** Modelled from the spec: the default [contentType] argument of
    [getSignedEncodedString], declared in the absent s3.hpp; the
    specification has the content type empty for GET. *)
Definition defaultContentType : string := "".

Definition httpGetHeaders (filePath : string) (w : W) : list string :=
  let httpDate := getHttpDate w in
  let signedEncodedString :=
    getSignedEncodedString "GET" filePath httpDate defaultContentType in
  let dateHeader := "Date: " ++ httpDate in
  let authHeader :=
    "Authorization: AWS " ++
    m_access (m_auth this) ++ ":" ++
    signedEncodedString in
  [dateHeader; authHeader].

Definition httpPutHeaders (filePath : string) (w : W) : list string :=
  let httpDate := getHttpDate w in
  let signedEncodedString :=
    getSignedEncodedString "PUT" filePath httpDate
      "application/octet-stream" in
  let typeHeader := "Content-Type: application/octet-stream" in
  let dateHeader := "Date: " ++ httpDate in
  let authHeader :=
    "Authorization: AWS " ++
    m_access (m_auth this) ++ ":" ++
    signedEncodedString in
  [typeHeader; dateHeader; authHeader; "Transfer-Encoding:"; "Expect:"].

(** The signed string and the headers as the specification words them:
    METHOD, two newlines, the content type, a newline, the date, a newline
    and the resource; [Date] and [Authorization], and for a PUT the content
    type before them and the two cleared headers after them. *)
Definition canonical (method contentType httpDate resource : string)
    : string :=
  method ++ nl ++ nl ++ contentType ++ nl ++ httpDate ++ nl ++ resource.

Definition authorization (toSign : string) : string :=
  "Authorization: AWS " ++ m_access (m_auth this) ++ ":" ++
  encodeBase64 (signString toSign).

Definition spec_get_headers (bucket object : string) (w : W) : list string :=
  ["Date: " ++ getHttpDate w;
   authorization (canonical "GET" "" (getHttpDate w)
                    ("/" ++ bucket ++ "/" ++ object))].

Definition spec_put_headers (bucket object : string) (w : W) : list string :=
  ["Content-Type: application/octet-stream";
   "Date: " ++ getHttpDate w;
   authorization (canonical "PUT" "application/octet-stream" (getHttpDate w)
                    ("/" ++ bucket ++ "/" ++ object));
   "Transfer-Encoding:";
   "Expect:"].

(** *** Requests (lines 247-269) *)

(** The URL of [tryGet]: the query entries appended in map order. *)
Definition getEndpoint (bucket object : string) (query : Query) : string :=
  fst (fold_left
         (fun '(endpoint, first) q =>
            (endpoint ++ (if first : bool then "?" else "&") ++
               fst q ++ "=" ++ snd q,
             false))
         query
         ("http://" ++ bucket ++ baseUrl ++ object, true)).

Definition tryGet (bucket object : string) (query : Query) (w : W)
    : HttpResponse * W :=
  let endpoint := getEndpoint bucket object query in
  curl_get endpoint (httpGetHeaders (bucket ++ "/" ++ object) w) w.

Definition tryPut (path : string) (data : list byte) (w : W)
    : Outcome W HttpResponse :=
  match getBucket path, getObject path with
  | Value bucket, Value object =>
      let endpoint := "http://" ++ bucket ++ baseUrl ++ object in
      let '(res, w) := curl_put endpoint (httpPutHeaders path w) data w in
      Returned res w
  | _, _ => Undefined
  end.

(** *** get and put (lines 84-116) *)

Definition get (path : string) (w : W) : option (Outcome W (list byte)) :=
  let getFunc := fun w =>
    match getBucket path, getObject path with
    | Value bucket, Value object =>
        let '(res, w) := tryGet bucket object [] w in Returned res w
    | _, _ => Undefined
    end in
  match httpExec getFunc httpAttempts w with
  | None => None
  | Some (Returned res w) =>
      if negb (code res =? 200)%Z then
        let w := cout (string_of_Z (code res) ++ ": " ++
                       string_of_list_byte (data res) ++ nl) w in
        Some (Threw (runtime_error ("Couldn't fetch " ++ path)) w)
      else Some (Returned (data res) w)
  | Some (Threw e w) => Some (Threw e w)
  | Some Undefined => Some Undefined
  end.

Definition put (path : string) (data : list byte) (w : W)
    : option (Outcome W unit) :=
  let putFunc := fun w => tryPut path data w in
  match httpExec putFunc httpAttempts w with
  | None => None
  | Some (Returned res w) =>
      if negb (code res =? 200)%Z
      then Some (Threw (runtime_error ("Couldn't write " ++ path)) w)
      else Some (Returned tt w)
  | Some (Threw e w) => Some (Threw e w)
  | Some Undefined => Some Undefined
  end.

(** *** Listing (lines 118-215) *)

Definition tolower (c : ascii) : ascii :=
  let n := nat_of_ascii c in
  if ((65 <=? n) && (n <=? 90))%nat then ascii_of_nat (n + 32) else c.

Fixpoint string_map (f : ascii -> ascii) (s : string) : string :=
  match s with
  | EmptyString => EmptyString
  | String c s' => String (f c) (string_map f s')
  end.

(** The [for] loop over [conNode] and its following siblings: the keys
    with no further slash are appended to [results], and on a truncated
    page each of them is written to [query["marker"]]. *)
Fixpoint contents_loop (bucket object prefix : string) (more : bool)
    (conNode : list XmlNode) (results : list string) (query : Query)
    : Exception + (list string * Query) :=
  match conNode with
  | [] => inr (results, query)
  | Node _ _ children :: siblings =>
      match first_node children "Key" with
      | keyNode :: _ =>
          let key := node_value keyNode in
          match find_char key "/" (length prefix) with
          | None =>
              let results :=
                (results ++ [("s3://" ++ bucket ++ "/" ++ key)%string])%list in
              if more then
                if substr_out_of_range key (length prefix) then inl out_of_range
                else
                  let query :=
                    query_set "marker"
                      ((if (0 <? length object)%nat then object ++ "/" else "") ++
                       substr key (length prefix) None)
                      query in
                  contents_loop bucket object prefix more siblings results query
              else
                contents_loop bucket object prefix more siblings results query
          | Some _ =>
              contents_loop bucket object prefix more siblings results query
          end
      | [] => inl (runtime_error badResponse)
      end
  end.

(** The [do ... while (more)] loop, one page per unit of [fuel]. *)
Fixpoint glob_loop (fuel : nat) (verbose : bool)
    (bucket object prefix : string) (query : Query) (more : bool)
    (results : list string) (w : W) : option (Outcome W (list string)) :=
  match fuel with
  | O => None
  | S fuel' =>
      let w := if verbose then cout "." w else w in
      let getFunc := fun w =>
        let '(res, w) := tryGet bucket "" query w in Returned res w in
      match httpExec getFunc httpAttempts w with
      | None => None
      | Some (Returned res w) =>
          if (code res =? 200)%Z then
            match xml_parse (string_of_list_byte (data res ++ [x00])) with
            | None => Some (Threw parse_error w)
            | Some xml =>
                match first_node xml "ListBucketResult" with
                | topNode :: _ =>
                    let more :=
                      match first_node (node_children topNode) "IsTruncated" with
                      | truncNode :: _ =>
                          let t := string_map tolower (node_value truncNode) in
                          String.eqb t "true"
                      | [] => more
                      end in
                    match first_node (node_children topNode) "Contents" with
                    | [] => Some (Threw (runtime_error badResponse) w)
                    | conNode =>
                        match contents_loop bucket object prefix more
                                conNode results query with
                        | inl e => Some (Threw e w)
                        | inr (results, query) =>
                            if more
                            then glob_loop fuel' verbose bucket object prefix
                                   query more results w
                            else Some (Returned results w)
                        end
                    end
                | [] => Some (Threw (runtime_error badResponse) w)
                end
            end
          else
            Some (Threw (runtime_error "Couldn't query bucket contents") w)
      | Some (Threw e w) => Some (Threw e w)
      | Some Undefined => Some Undefined
      end
  end.

Definition glob (fuel : nat) (path : string) (verbose : bool) (w : W)
    : option (Outcome W (list string)) :=
  let results := [] in
  if ((length path <? 2)%nat ||
      negb (String.eqb (substr path (length path - 2) None) "/*"))%bool
  then Some (Threw (runtime_error ("Invalid glob path: " ++ path)) w)
  else
    let path := substr path 0 (Some (length path - 2)) in
    match getBucket path, getObject path with
    | Value bucket, Value object =>
        let prefix := if (length object =? 0)%nat then "" else object ++ "/" in
        let query : Query := [] in
        let query :=
          if (0 <? length prefix)%nat then query_set "prefix" prefix query
          else query in
        let more := false in
        glob_loop fuel verbose bucket object prefix query more results w
    | _, _ => Some Undefined
    end.

(** *** The listing loop, page by page *)

(** One page request of [glob_loop]: the progress dot, then the retried GET
    of the bucket with [query]. *)
Definition fetch (verbose : bool) (bucket : string) (query : Query) (w : W)
    : option (Outcome W HttpResponse) :=
  httpExec
    (fun w => let '(res, w) := tryGet bucket "" query w in Returned res w)
    httpAttempts
    (if verbose then cout "." w else w).

(** The buffer handed to the XML parser. *)
Definition body (res : HttpResponse) : string :=
  string_of_list_byte (data res ++ [x00]).

End Driver.

(** The key of a [Contents] entry. *)
Definition key_of (conNode : XmlNode) : option string :=
  match first_node (node_children conNode) "Key" with
  | keyNode :: _ => Some (node_value keyNode)
  | [] => None
  end.

(** [more] after the [IsTruncated] test of a page. *)
Definition truncation (children : list XmlNode) (more : bool) : bool :=
  match first_node children "IsTruncated" with
  | truncNode :: _ =>
      String.eqb (string_map tolower (node_value truncNode)) "true"
  | [] => more
  end.

(** [xml] is a listing page: a [ListBucketResult] whose truncation test
    yields [more] and whose [Contents] entries, from the first one to the
    last sibling, carry [keys]. *)
Definition is_page (xml : list XmlNode) (more_in more : bool)
    (keys : list string) : Prop :=
  exists topNode rest,
    first_node xml "ListBucketResult" = topNode :: rest /\
    truncation (node_children topNode) more_in = more /\
    first_node (node_children topNode) "Contents" <> [] /\
    map key_of (first_node (node_children topNode) "Contents")
    = map Some keys.

(** A key qualifies when [key.find('/', prefix.size())] is [npos]. *)
Definition qualifies (prefix key : string) : bool :=
  match find_char key "/" (length prefix) with
  | None => true
  | Some _ => false
  end.

Definition entry (bucket key : string) : string :=
  "s3://" ++ bucket ++ "/" ++ key.

Definition entries (bucket prefix : string) (keys : list string)
    : list string :=
  map (entry bucket) (filter (qualifies prefix) keys).

(** The value written to [query["marker"]] for a qualifying key. *)
Definition marker_of (object prefix key : string) : string :=
  (if (0 <? length object)%nat then object ++ "/" else "") ++
  substr key (length prefix) None.

(** The query after a page: on a truncated page the marker of its last
    qualifying key, when it has one. *)
Definition next_query (object prefix : string) (more : bool)
    (keys : list string) (query : Query) : Query :=
  if more then
    match last (map Some (filter (qualifies prefix) keys)) None with
    | Some key => query_set "marker" (marker_of object prefix key) query
    | None => query
    end
  else query.

(** The prefix and the first query of [glob] for an object. *)
Definition prefix_of (object : string) : string :=
  if (length object =? 0)%nat then "" else object ++ "/".

Definition first_query (object : string) : Query :=
  if (0 <? length (prefix_of object))%nat
  then query_set "prefix" (prefix_of object) []
  else [].

(** The keys of a truncated page are long enough for
    [key.substr(prefix.size())]. *)
Definition keys_in_range (prefix : string) (more : bool)
    (keys : list string) : Prop :=
  more = true ->
  Forall (fun k => qualifies prefix k = true -> (length prefix <= length k)%nat)
         keys.

(** A truncated page with no qualifying key. *)
Definition stuck (prefix : string) (page : bool * list string) : bool :=
  fst page &&
  match filter (qualifies prefix) (snd page) with
  | [] => true
  | _ :: _ => false
  end.

(** The query of the [n]-th page request when the listing of a query is
    [listing query] (its truncation flag and keys). *)
Fixpoint query_after (object prefix : string)
    (listing : Query -> bool * list string) (n : nat) (query : Query)
    : Query :=
  match n with
  | O => query
  | S n' =>
      let q := query_after object prefix listing n' query in
      next_query object prefix (fst (listing q)) (snd (listing q)) q
  end.

Section Served.
Context {W : Type} {host : Host W}.
Variables (this : S3Driver) (verbose : bool) (bucket object prefix : string).

(** From world [w] the server answers the page requests that the loop
    sends, the first with [query] and each next one with the query the loop
    has after the page before it, with [pages] (truncation flag and keys).
    Nothing is asked of requests that the loop does not send. *)
Fixpoint answers_in_turn (w : W) (query : Query) (more_in : bool)
    (pages : list (bool * list string)) : Prop :=
  match pages with
  | [] => True
  | (more, keys) :: rest =>
      exists res w' xml,
        fetch this verbose bucket query w = Some (Returned res w') /\
        code res = 200%Z /\
        xml_parse (body res) = Some xml /\
        is_page xml more_in more keys /\
        keys_in_range prefix more keys /\
        answers_in_turn w' (next_query object prefix more keys query) more rest
  end.

(** The server answers by the query alone: in every world the page request
    with the [n]-th query of the listing from [query] gets the page
    [listing] of that query. *)
Definition answers (listing : Query -> bool * list string) (query : Query)
    : Prop :=
  forall (n : nat) (w : W) (more_in : bool),
  exists res w' xml,
    let q := query_after object prefix listing n query in
    fetch this verbose bucket q w = Some (Returned res w') /\
    code res = 200%Z /\
    xml_parse (body res) = Some xml /\
    is_page xml more_in (fst (listing q)) (snd (listing q)) /\
    keys_in_range prefix (fst (listing q)) (snd (listing q)).

End Served.

End S3.

(** ** A standard base64 decoder (RFC 4648), the reference for round trips *)

Module Base64Ref.

(** Position of a character in the standard alphabet. *)
Definition sextet (c : ascii) : option Z :=
  match index 0 (String c EmptyString) S3.vals with
  | Some i => Some (Z.of_nat i)
  | None => None
  end.

Definition byte_of_Z (z : Z) : byte :=
  match Byte.of_N (Z.to_N (z mod 256)) with
  | Some b => b
  | None => x00
  end.

(** A full quartet holds three bytes. *)
Definition decode3 (a b c d : ascii) : option (list byte) :=
  match sextet a, sextet b, sextet c, sextet d with
  | Some x, Some y, Some z, Some t =>
      let n := (x * 262144 + y * 4096 + z * 64 + t)%Z in
      Some [byte_of_Z (n / 65536); byte_of_Z (n / 256); byte_of_Z n]
  | _, _, _, _ => None
  end.

(** A final quartet [abc=] holds two bytes. *)
Definition decode2 (a b c : ascii) : option (list byte) :=
  match sextet a, sextet b, sextet c with
  | Some x, Some y, Some z =>
      let n := (x * 262144 + y * 4096 + z * 64)%Z in
      Some [byte_of_Z (n / 65536); byte_of_Z (n / 256)]
  | _, _, _ => None
  end.

(** A final quartet [ab==] holds one byte. *)
Definition decode1 (a b : ascii) : option (list byte) :=
  match sextet a, sextet b with
  | Some x, Some y =>
      let n := (x * 262144 + y * 4096)%Z in
      Some [byte_of_Z (n / 65536)]
  | _, _ => None
  end.

Fixpoint decode (s : string) : option (list byte) :=
  match s with
  | EmptyString => Some []
  | String a (String b (String c (String d rest))) =>
      match rest with
      | EmptyString =>
          if Ascii.eqb d "=" then
            if Ascii.eqb c "=" then decode1 a b else decode2 a b c
          else decode3 a b c d
      | _ =>
          match decode3 a b c d, decode rest with
          | Some x, Some y => Some (x ++ y)%list
          | _, _ => None
          end
      end
  | _ => None
  end.

End Base64Ref.

(** ** An in-memory environment for [Arbiter::copy]

    Drivers are named by their type, an endpoint is a driver type with its
    root, and the world maps full paths to contents. *)

Module MemEnv.
Import Arbiter.

Definition World : Type := list (string * list byte).

Definition mem_isDirectory (path : string) : bool :=
  match back path with
  | Some c => Ascii.eqb c "/"
  | None => false
  end.

Fixpoint strip_stars (fuel : nat) (path : string) : string :=
  match fuel with
  | O => path
  | S fuel' =>
      match back path with
      | Some c => if Ascii.eqb c "*" then strip_stars fuel' (pop_back path) else path
      | None => path
      end
  end.

Definition mem_stripPostfixing (path : string) : string :=
  strip_stars (length path) path.

Definition postfixSlash (path : string) : string :=
  if mem_isDirectory path then path else path ++ "/".

Fixpoint lookup (path : string) (w : World) : option (list byte) :=
  match w with
  | [] => None
  | (p, d) :: rest => if String.eqb p path then Some d else lookup path rest
  end.

Definition store (type path : string) (d : list byte) (w : World)
    : Outcome World unit :=
  Returned tt ((type ++ "://" ++ path, d) :: w).

Definition fetch (type path : string) (w : World) : Outcome World (list byte) :=
  match lookup (type ++ "://" ++ path) w with
  | Some d => Returned d w
  | None => Threw (ArbiterError ("Could not read " ++ path)) w
  end.

#[global] Instance env : Env World string (string * string) := {|
  isDirectory := mem_isDirectory;
  stripPostfixing := mem_stripPostfixing;
  getBasename := fun p => p;
  getNonBasename := fun p => p;
  mkdirp := fun _ w => Returned true w;
  cout := fun _ w => w;
  driver_getBinary := fetch;
  driver_put := store;
  driver_resolve := fun type path _ w =>
    Returned (map fst (filter (fun e => prefix (type ++ "://" ++ mem_stripPostfixing path) (fst e)) w)) w;
  driver_copy := fun type src dst w =>
    match fetch type src w with
    | Returned d w => store type dst d w
    | Threw e w => Threw e w
    | Undefined => Undefined
    end;
  Endpoint_new := fun type root => (type, postfixSlash root);
  endpoint_type := fst;
  endpoint_isLocal := fun e => String.eqb (fst e) "file";
  prefixedRoot := fun e => fst e ++ "://" ++ snd e;
  fullPath := fun e sub => snd e ++ sub;
  prefixedFullPath := fun e sub => fst e ++ "://" ++ snd e ++ sub;
  endpoint_put := fun e sub d w => store (fst e) (snd e ++ sub) d w
|}.

Definition drivers : list (string * string) :=
  [("file", "file"); ("test", "test")].

Definition world0 : World := [("file://a/x", [x01])].

End MemEnv.

(** The same environment for [getLocalHandle]: every driver but "file" is
    remote, and the random number is the number of files stored. *)

Module MemLocal.
Import Arbiter.

#[global] Instance local : Local MemEnv.World string (string * string) := {|
  driver_isRemote := fun type => negb (String.eqb type "file");
  endpoint_isRemote := fun e => negb (String.eqb (fst e) "file");
  endpoint_root := snd;
  randomNumber := fun w => (N.of_nat (List.length w), w);
  expandTilde := fun path => path
|}.

Definition world1 : MemEnv.World := [("test://a/x.laz", [x01])].

End MemLocal.

(** ** A scripted operation for the retry loop

    The [k]-th invocation (from 0) answers [script k]; the world counts the
    invocations and records every [sleep_for] and every line printed. *)

Module Scripted.
Import S3.

Record World : Type := {
  calls : nat;
  slept : list Z;
  printed : list string
}.

Definition start : World := {| calls := 0; slept := []; printed := [] |}.

Definition op (script : nat -> HttpResponse) (w : World)
    : Outcome World HttpResponse :=
  Returned (script (calls w))
    {| calls := S (calls w); slept := slept w; printed := printed w |}.

Definition no_response : HttpResponse := {| code := 0; data := [] |}.

#[global] Instance host : Host World := {|
  curl_get := fun _ _ w => (no_response, w);
  curl_put := fun _ _ _ w => (no_response, w);
  sleep_for := fun ms w =>
    {| calls := calls w; slept := (slept w ++ [ms])%list; printed := printed w |};
  cout := fun s w =>
    {| calls := calls w; slept := slept w; printed := (printed w ++ [s])%list |};
  strftime_now := fun _ => "";
  hmac_sha1 := fun _ _ => [];
  xml_parse := fun _ => None
|}.

(** A status of the 5xx range. *)
Definition is5xx (status : Z) : Prop := (500 <= status <= 599)%Z.

(** The sleeps of [n] failed attempts: 1, 2, 4, ... capped at 4096. *)
Definition backoff (n : nat) : list Z :=
  map (fun k => Z.min (2 ^ Z.of_nat k) maxSleepTime) (seq 0 n).

(** A sleep sequence that starts at the base time, doubles up to the cap
    from one sleep to the next, never decreases and stays within the cap. *)
Definition backoff_schedule (sleeps : list Z) : Prop :=
  (forall first, nth_error sleeps 0 = Some first -> first = baseSleepTime) /\
  (forall i a b,
      nth_error sleeps i = Some a -> nth_error sleeps (S i) = Some b ->
      b = Z.min (2 * a) maxSleepTime /\ (a <= b)%Z) /\
  (forall i a, nth_error sleeps i = Some a -> (a <= maxSleepTime)%Z).

(** The script that fails with 503 [n] times and then answers 200. *)
Definition fail_then_ok (n : nat) (k : nat) : HttpResponse :=
  if (k <? n)%nat then {| code := 503; data := [] |}
  else {| code := 200; data := [x6f; x6b] |}.

End Scripted.

(** ** A listing server for the paginated listing

    The server answers the [k]-th GET (from 0) of [endpoint] with
    [server endpoint k]; the world counts the requests served and records
    their URLs. XML bodies are the renderings of a known set of documents. *)

Module Listing.
Import S3.

Record World : Type := {
  served : nat;
  requests : list string
}.

Definition start : World := {| served := 0; requests := [] |}.

Fixpoint render_node (n : XmlNode) : string :=
  match n with
  | Node name value children =>
      "<" ++ name ++ ">" ++ value ++
      (fix render_all (l : list XmlNode) : string :=
         match l with
         | [] => ""
         | c :: l' => render_node c ++ render_all l'
         end) children ++
      "</" ++ name ++ ">"
  end.

Fixpoint render (xml : list XmlNode) : string :=
  match xml with
  | [] => ""
  | n :: rest => render_node n ++ render rest
  end.

Definition nul : string := String zero EmptyString.

(** The parser of the known documents: a buffer parses to the document it
    renders, and to nothing else. *)
Fixpoint parse_known (known : list (list XmlNode)) (buffer : string)
    : option (list XmlNode) :=
  match known with
  | [] => None
  | xml :: rest =>
      if String.eqb (render xml ++ nul) buffer then Some xml
      else parse_known rest buffer
  end.

Definition date : string := "Thu, 01 Jan 2015 00:00:00 +0000".

Definition host (server : string -> nat -> HttpResponse)
    (known : list (list XmlNode)) : Host World := {|
  curl_get := fun endpoint _ w =>
    (server endpoint (served w),
     {| served := S (served w); requests := (requests w ++ [endpoint])%list |});
  curl_put := fun endpoint _ _ w =>
    ({| code := 200; data := [] |},
     {| served := S (served w); requests := (requests w ++ [endpoint])%list |});
  sleep_for := fun _ w => w;
  cout := fun _ w => w;
  strftime_now := fun _ => date;
  hmac_sha1 := fun key msg => repeat x2a 20;
  xml_parse := parse_known known
|}.

Definition this : S3Driver :=
  {| m_auth := {| m_access := "AKIAEXAMPLE"; m_hidden := "secret" |} |}.

(** A listing document as S3 sends it. *)
Definition page_xml (truncated : string) (keys : list string) : list XmlNode :=
  [Node "ListBucketResult" ""
     (Node "Name" "bucket" [] ::
      Node "IsTruncated" truncated [] ::
      map (fun k => Node "Contents" "" [Node "Key" k []; Node "Size" "1" []])
          keys)].

Definition page (truncated : string) (keys : list string) : HttpResponse :=
  {| code := 200;
     data := list_byte_of_string (render (page_xml truncated keys)) |}.

Definition not_found : HttpResponse := {| code := 404; data := [] |}.

(** A script of pages, served in order whatever the request. *)
Definition scripted (pages : list HttpResponse) (endpoint : string) (k : nat)
    : HttpResponse :=
  nth k pages not_found.

(** Two pages: [a, b] truncated, then [c]. *)
Definition two_pages : list (list XmlNode) :=
  [page_xml "true" ["a"; "b"]; page_xml "false" ["c"]].

Definition two_pages_host : Host World :=
  host (scripted [page "true" ["a"; "b"]; page "false" ["c"]]) two_pages.

(** One page under the prefix "dir/" with a key one level down. *)
Definition dir_page : list XmlNode := page_xml "false" ["dir/a"; "dir/sub/b"].

Definition dir_host : Host World :=
  host (scripted [page "false" ["dir/a"; "dir/sub/b"]]) [dir_page].

(** A listing without [Contents]. *)
Definition empty_xml : list XmlNode :=
  [Node "ListBucketResult" ""
     [Node "Name" "bucket" []; Node "IsTruncated" "false" []]].

Definition empty_host : Host World :=
  host (scripted [{| code := 200;
                     data := list_byte_of_string (render empty_xml) |}])
       [empty_xml].

(** A server that answers by the URL alone: the first page of "dir/" is
    truncated and holds only a key one level down. *)
Definition stuck_xml : list XmlNode := page_xml "true" ["dir/sub/b"].

Definition stuck_host : Host World :=
  host (fun _ _ => page "true" ["dir/sub/b"]) [stuck_xml].

(** A server that answers by the URL alone and resumes after the marker. *)
Definition resume (endpoint : string) (k : nat) : HttpResponse :=
  if String.eqb endpoint "http://bucket.s3.amazonaws.com/?marker=b"
  then page "false" ["c"]
  else page "true" ["a"; "b"].

Definition resume_host : Host World := host resume two_pages.

(** The listings of these two servers, by query. *)
Definition stuck_listing (query : Query) : bool * list string :=
  (true, ["dir/sub/b"]).

Definition resume_listing (query : Query) : bool * list string :=
  if String.eqb (getEndpoint "bucket" "" query)
                "http://bucket.s3.amazonaws.com/?marker=b"
  then (false, ["c"])
  else (true, ["a"; "b"]).

(** Pages left to fetch. *)
Definition resume_rank (query : Query) : nat :=
  if fst (resume_listing query) then 1 else 0.

(** A server that answers by the URL alone under the prefix "dir/": the
    page after the marker "dir/b" is the last one. *)
Definition dir_resume (endpoint : string) (k : nat) : HttpResponse :=
  if String.eqb endpoint
       "http://bucket.s3.amazonaws.com/?marker=dir/b&prefix=dir/"
  then page "false" ["dir/c"]
  else page "true" ["dir/a"; "dir/b"].

Definition dir_resume_host : Host World :=
  host dir_resume
    [page_xml "true" ["dir/a"; "dir/b"]; page_xml "false" ["dir/c"]].

(** A server that follows a truncated page without a qualifying key by a
    last page, whatever the request. *)
Definition stuck_then_last_host : Host World :=
  host (scripted [page "true" ["dir/sub/b"]; page "false" ["dir/z"]])
    [page_xml "true" ["dir/sub/b"]; page_xml "false" ["dir/z"]].

(** A server that answers every request with the same truncated page. *)
Definition endless_host : Host World :=
  host (fun _ _ => page "true" ["a"]) [page_xml "true" ["a"]].

Definition endless_listing (query : Query) : bool * list string :=
  (true, ["a"]).

(** A server that answers every request with [res]. *)
Definition always (res : HttpResponse) (known : list (list XmlNode))
    : Host World :=
  host (fun _ _ => res) known.

Definition document (xml : list XmlNode) : HttpResponse :=
  {| code := 200; data := list_byte_of_string (render xml) |}.

(** A listing whose [Contents] is followed by a [CommonPrefixes] element. *)
Definition prefixes_xml : list XmlNode :=
  [Node "ListBucketResult" ""
     [Node "IsTruncated" "false" [];
      Node "Contents" "" [Node "Key" "a" []];
      Node "CommonPrefixes" "" [Node "Prefix" "dir/" []]]].

(** A truncated listing with a key shorter than the prefix "dir/". *)
Definition short_key_xml : list XmlNode :=
  [Node "ListBucketResult" ""
     [Node "IsTruncated" "true" [];
      Node "Contents" "" [Node "Key" "d" []]]].

(** A first listing without [IsTruncated], and one that spells it "TRUE". *)
Definition unflagged_xml : list XmlNode :=
  [Node "ListBucketResult" "" [Node "Contents" "" [Node "Key" "a" []]]].

Definition upper_xml : list XmlNode :=
  [Node "ListBucketResult" ""
     [Node "IsTruncated" "TRUE" [];
      Node "Contents" "" [Node "Key" "a" []]]].

End Listing.

(** ** A host that shows what was signed

    The stand-in for HMAC-SHA1 returns the last 20 bytes of the message, so
    that the signature of a request tells how the signed string ends. *)

Module Echo.
Import S3.

Definition tail20 (msg : string) : list byte :=
  list_byte_of_string (substring (length msg - 20) 20 msg).

Definition date : string := "Thu, 01 Jan 2015 00:00:00 +0000".

Definition answer (headers : list string) : HttpResponse :=
  {| code := 200; data := list_byte_of_string (String.concat nl headers) |}.

Definition host : Host unit := {|
  curl_get := fun _ headers w => (answer headers, w);
  curl_put := fun _ headers _ w => (answer headers, w);
  sleep_for := fun _ w => w;
  cout := fun _ w => w;
  strftime_now := fun _ => date;
  hmac_sha1 := fun _ msg => tail20 msg;
  xml_parse := fun _ => None
|}.

Definition this : S3Driver :=
  {| m_auth := {| m_access := "AKIAEXAMPLE"; m_hidden := "secret" |} |}.

End Echo.

(** * Properties *)

(** ** Facts about std::string operations *)

Module StdStringFacts.

Lemma length_append (a b : string) :
  length (a ++ b) = length a + length b.
Proof.
  induction a as [|c a IH]; simpl; [reflexivity | now rewrite IH].
Qed.

Lemma append_nil_r (a : string) : a ++ "" = a.
Proof.
  induction a as [|c a IH]; simpl; [reflexivity | now rewrite IH].
Qed.

Lemma append_assoc (a b c : string) : (a ++ b) ++ c = a ++ b ++ c.
Proof.
  induction a as [|x a IH]; simpl; [reflexivity | now rewrite IH].
Qed.

Lemma substring_0_app (a b : string) :
  substring 0 (length a) (a ++ b) = a.
Proof.
  induction a as [|c a IH]; simpl.
  - now destruct b.
  - now rewrite IH.
Qed.

Lemma substring_0_all (s : string) (m : nat) :
  length s <= m -> substring 0 m s = s.
Proof.
  revert m; induction s as [|c s IH]; intros m Hm; simpl in *.
  - now destruct m.
  - destruct m as [|m]; [lia|]. now rewrite IH by lia.
Qed.

Lemma substring_skip_app (a b : string) (n m : nat) :
  substring (length a + n) m (a ++ b) = substring n m b.
Proof.
  induction a as [|c a IH]; simpl; [reflexivity | exact IH].
Qed.

Lemma index_None_tail (d : string) (c : ascii) (s : string) :
  index 0 d (String c s) = None -> index 0 d s = None.
Proof.
  cbn [index]. destruct (prefix d (String c s)); [discriminate|].
  now destruct (index 0 d s).
Qed.

Lemma prefix_app (d b : string) : prefix d (d ++ b) = true.
Proof.
  apply prefix_correct, substring_0_app.
Qed.

Lemma prefix_split (d s : string) :
  prefix d s = true -> exists b, s = d ++ b.
Proof.
  revert s; induction d as [|x d IH]; intros s H.
  - now exists s.
  - destruct s as [|y s]; simpl in H; [discriminate|].
    destruct (ascii_dec x y) as [->|]; [|discriminate].
    destruct (IH _ H) as [b ->]. now exists b.
Qed.

(** [find] returns [npos] exactly when the needle does not occur. *)
Lemma index_None_iff (d s : string) :
  d <> "" -> (index 0 d s = None <-> ~ occurs d s).
Proof.
  intros Hd; split.
  - intros H [a [b ->]].
    apply (index_correct3 0 (length a) d (a ++ d ++ b) H Hd (Nat.le_0_l _)).
    replace (length a) with (length a + 0) at 1 by lia.
    rewrite substring_skip_app. apply substring_0_app.
  - induction s as [|c s IH]; intros H.
    + destruct d; [congruence | reflexivity].
    + cbn [index]. destruct (prefix d (String c s)) eqn:Hp.
      * exfalso. apply H. destruct (prefix_split _ _ Hp) as [b Hb].
        exists "", b. exact Hb.
      * rewrite IH; [reflexivity|].
        intros [a [b ->]]. apply H. now exists (String c a), b.
Qed.

Lemma substr_take_app (a b : string) :
  substr (a ++ b) 0 (Some (length a)) = a.
Proof.
  unfold substr. apply substring_0_app.
Qed.

Lemma substr_skip_app (a b : string) :
  substr (a ++ b) (length a) None = b.
Proof.
  unfold substr. rewrite length_append.
  replace (length a) with (length a + 0) at 1 by lia.
  rewrite substring_skip_app. apply substring_0_all. lia.
Qed.

End StdStringFacts.

Import StdStringFacts.

Module ArbiterFacts.
Import Arbiter.

(** ** Scheme and remainder of a path *)

Lemma delimiter_not_prefix (c : ascii) (s rest : string) :
  index 0 delimiter (String c s) = None ->
  prefix delimiter (String c (s ++ delimiter ++ rest)) = false.
Proof.
  unfold delimiter. intros H.
  destruct (prefix "://" (String c (s ++ "://" ++ rest))) eqn:Hp; [|reflexivity].
  exfalso. cbn [prefix] in Hp.
  destruct (ascii_dec ":" c) as [<-|]; [|discriminate].
  destruct s as [|c1 s]; cbn [prefix append] in Hp.
  { destruct (ascii_dec "/" ":"); discriminate. }
  destruct (ascii_dec "/" c1) as [<-|]; [|discriminate].
  destruct s as [|c2 s]; cbn [prefix append] in Hp.
  { destruct (ascii_dec "/" ":"); discriminate. }
  destruct (ascii_dec "/" c2) as [<-|]; [|discriminate].
  apply (index_correct3 0 0) in H; [| discriminate | lia].
  apply H. exact (substring_0_app "://" s).
Qed.

(** The first occurrence of the delimiter in [s ++ "://" ++ rest] is at
    [length s] when [s] itself has none. *)
Lemma find_delimiter_app (s rest : string) :
  index 0 delimiter s = None ->
  find (s ++ delimiter ++ rest) delimiter 0 = Some (length s).
Proof.
  unfold find. induction s as [|c s IH]; intros H.
  - change ("" ++ delimiter ++ rest)
      with (String ":" (String "/" (String "/" rest))).
    cbn [index].
    change (String ":" (String "/" (String "/" rest))) with (delimiter ++ rest).
    now rewrite prefix_app.
  - change (String c s ++ delimiter ++ rest)
      with (String c (s ++ delimiter ++ rest)).
    cbn [index]. rewrite (delimiter_not_prefix c s rest H).
    rewrite (IH (index_None_tail _ _ _ H)). reflexivity.
Qed.

(** C6. For a scheme [s] with no occurrence of "://", [getType] of
    [s ++ "://" ++ rest] is [s] and [stripType] of it is [rest]; a path with
    no occurrence of "://" has type "file" and is left unchanged by
    [stripType]. *)
Theorem getType_stripType_spec :
  (forall s rest : string,
      ~ occurs "://" s ->
      getType (s ++ "://" ++ rest) = s /\
      stripType (s ++ "://" ++ rest) = rest) /\
  (forall path : string,
      ~ occurs "://" path ->
      getType path = "file" /\ stripType path = path).
Proof.
  assert (Hd : delimiter <> "") by discriminate.
  split.
  - intros s rest Hs.
    apply (index_None_iff delimiter s Hd) in Hs.
    pose proof (find_delimiter_app s rest Hs) as Hf.
    unfold getType, stripType. fold delimiter. rewrite Hf. split.
    + now rewrite substr_take_app.
    + rewrite <- append_assoc, <- length_append.
      now rewrite substr_skip_app.
  - intros path Hp.
    apply (index_None_iff delimiter path Hd) in Hp.
    unfold getType, stripType, find. rewrite Hp. split; reflexivity.
Qed.

Lemma getType_stripType_witness :
  (getType ("s3" ++ "://" ++ "bucket/key") = "s3" /\
   stripType ("s3" ++ "://" ++ "bucket/key") = "bucket/key") /\
  (getType "dir/a.txt" = "file" /\ stripType "dir/a.txt" = "dir/a.txt").
Proof.
  assert (Hd : delimiter <> "") by discriminate.
  split.
  - apply (proj1 getType_stripType_spec).
    apply (index_None_iff delimiter "s3" Hd). reflexivity.
  - apply (proj2 getType_stripType_spec).
    apply (index_None_iff delimiter "dir/a.txt" Hd). reflexivity.
Defined.

(** ** Errors of copy *)

Lemma back_app_char (s : string) (c : ascii) :
  back (s ++ String c "") = Some c.
Proof.
  induction s as [|x s IH]; [reflexivity|].
  cbn [append back]. rewrite IH.
  destruct (s ++ String c "") eqn:E; [|reflexivity].
  destruct s; discriminate.
Qed.

Lemma back_directory_glob (src : string) : back (src ++ "**") = Some "*"%char.
Proof.
  change "**" with ("*" ++ "*"). rewrite <- append_assoc.
  apply back_app_char.
Qed.

Lemma length_0_empty (s : string) : (length s =? 0)%nat = true <-> s = "".
Proof.
  destruct s; simpl; split; intros H; congruence.
Qed.

Section CopyErrors.
Context {W Driver Endpoint : Type} {env : Env W Driver Endpoint}.
Variable m_drivers : list (string * Driver).

(** C8. [copy] throws when the source path is empty, when the destination
    path is empty, and when the source is a directory whose endpoint has the
    prefixed root of the destination's endpoint; every time the world is
    the one it was called in: nothing was resolved, read or written. *)
Theorem copy_invalid_argument (src dst : string) (verbose : bool) (w : W) :
  (src = "" ->
   copy m_drivers src dst verbose w
   = Threw (ArbiterError "Cannot copy from empty source") w) /\
  (src <> "" -> dst = "" ->
   copy m_drivers src dst verbose w
   = Threw (ArbiterError "Cannot copy to empty destination") w) /\
  (forall srcEndpoint dstEndpoint : Endpoint,
      src <> "" -> dst <> "" ->
      isDirectory src = true ->
      getEndpoint m_drivers (stripPostfixing src) = inr srcEndpoint ->
      getEndpoint m_drivers dst = inr dstEndpoint ->
      prefixedRoot srcEndpoint = prefixedRoot dstEndpoint ->
      copy m_drivers src dst verbose w
      = Threw (ArbiterError "Cannot copy directory to itself") w).
Proof.
  split; [|split].
  - intros ->. reflexivity.
  - intros Hs ->. unfold copy.
    destruct (length src =? 0)%nat eqn:E; [|reflexivity].
    now apply length_0_empty in E.
  - intros se de Hs Hd Hdir Hse Hde Hroot. unfold copy.
    destruct (length src =? 0)%nat eqn:E1;
      [now apply length_0_empty in E1|].
    destruct (length dst =? 0)%nat eqn:E2;
      [now apply length_0_empty in E2|].
    rewrite Hdir, back_directory_glob. cbn [Ascii.eqb negb].
    change (Ascii.eqb "*" "*") with true. cbn [negb].
    rewrite Hse. cbn [bind_value]. rewrite Hde. cbn [bind_value].
    rewrite Hroot, String.eqb_refl. reflexivity.
Qed.

End CopyErrors.

Lemma copy_invalid_argument_witness :
  copy MemEnv.drivers "" "file://b/" false MemEnv.world0
  = Threw (ArbiterError "Cannot copy from empty source") MemEnv.world0 /\
  copy MemEnv.drivers "file://a/" "" false MemEnv.world0
  = Threw (ArbiterError "Cannot copy to empty destination") MemEnv.world0 /\
  copy MemEnv.drivers "file://a/" "file://a" false MemEnv.world0
  = Threw (ArbiterError "Cannot copy directory to itself") MemEnv.world0.
Proof.
  set (w := MemEnv.world0).
  split; [|split].
  - apply (proj1 (copy_invalid_argument MemEnv.drivers "" "file://b/" false w)).
    reflexivity.
  - apply (proj1 (proj2
      (copy_invalid_argument MemEnv.drivers "file://a/" "" false w)));
      [discriminate | reflexivity].
  - apply (proj2 (proj2
      (copy_invalid_argument MemEnv.drivers "file://a/" "file://a" false w))
      ("file", "a/") ("file", "a/"));
      try discriminate; reflexivity.
Defined.

End ArbiterFacts.


Module S3Facts.
Import S3.

(** ** Bucket and object of a path *)

Lemma back_None_iff (s : string) : back s = None <-> s = "".
Proof.
  split; [|now intros ->].
  induction s as [|c s IH]; [reflexivity|].
  cbn [back]. destruct s as [|c' s]; [discriminate|].
  intros H. apply IH in H. discriminate.
Qed.


Lemma split_UB_iff (path : string) : split path = UB <-> path = "".
Proof.
  unfold split. rewrite <- back_None_iff.
  destruct (back path); split; intros H; congruence.
Qed.


(** ** The retry loop never invents undefined behaviour *)

Section Defined.
Context {W : Type} {host : Host W}.



End Defined.



End S3Facts.


(** ** The retry loop on a scripted operation *)

Module RetryFacts.
Import S3 Scripted.

Lemma is5xx_quot (status : Z) :
  (Z.quot status 100 =? 5)%Z = true <-> is5xx status.
Proof.
  unfold is5xx. rewrite Z.eqb_eq. split.
  - intros H. assert (0 <= status)%Z.
    { destruct (Z.lt_ge_cases status 0) as [Hneg|]; [|assumption].
      pose proof (Z.quot_opp_l status 100 ltac:(lia)) as Hq.
      pose proof (Z.quot_pos (- status) 100 ltac:(lia) ltac:(lia)). lia. }
    rewrite Z.quot_div_nonneg in H by lia.
    pose proof (Z.div_mod status 100 ltac:(lia)).
    pose proof (Z.mod_pos_bound status 100 ltac:(lia)). lia.
  - intros H. rewrite Z.quot_div_nonneg by lia.
    symmetry. apply (Z.div_unique status 100 5 (status - 500)); lia.
Qed.

Lemma is5xx_not_200 (status : Z) : is5xx status -> (status =? 200)%Z = false.
Proof.
  unfold is5xx. intros H. apply Z.eqb_neq. lia.
Qed.

Lemma backoff_S (n : nat) :
  backoff (S n) = (backoff n ++ [Z.min (2 ^ Z.of_nat n) maxSleepTime])%list.
Proof.
  unfold backoff. now rewrite seq_S, map_app.
Qed.

Lemma backoff_length (n : nat) : List.length (backoff n) = n.
Proof.
  unfold backoff. now rewrite length_map, length_seq.
Qed.

Lemma backoff_nth (n i : nat) (a : Z) :
  nth_error (backoff n) i = Some a ->
  a = Z.min (2 ^ Z.of_nat i) maxSleepTime.
Proof.
  induction n as [|n IH]; intros H.
  - destruct i; discriminate.
  - rewrite backoff_S in H.
    destruct (Nat.lt_ge_cases i n) as [Hlt|Hge].
    + rewrite nth_error_app1 in H by (now rewrite backoff_length). auto.
    + rewrite nth_error_app2 in H by (now rewrite backoff_length).
      rewrite backoff_length in H.
      destruct (i - n)%nat as [|d] eqn:E.
      * injection H as <-. replace i with n by lia. reflexivity.
      * destruct d; discriminate.
Qed.

(** The sleeps of any number of failed attempts follow the schedule. *)
Lemma backoff_is_schedule (n : nat) : backoff_schedule (backoff n).
Proof.
  unfold backoff_schedule, maxSleepTime, baseSleepTime. repeat split.
  - intros first H. now apply backoff_nth in H.
  - apply backoff_nth in H, H0. subst a b. unfold maxSleepTime.
    rewrite Nat2Z.inj_succ, Z.pow_succ_r by lia. lia.
  - apply backoff_nth in H, H0. subst a b. unfold maxSleepTime.
    rewrite Nat2Z.inj_succ, Z.pow_succ_r by lia.
    pose proof (Z.pow_pos_nonneg 2 (Z.of_nat i) ltac:(lia) ltac:(lia)). lia.
  - intros i a H. apply backoff_nth in H. subst a. unfold maxSleepTime. lia.
Qed.

Lemma sleepTime_step (j : nat) :
  (let s := (Z.min (2 ^ Z.of_nat j) maxSleepTime * 2)%Z in
   if (s >? maxSleepTime)%Z then maxSleepTime else s)
  = Z.min (2 ^ Z.of_nat (S j)) maxSleepTime.
Proof.
  cbv zeta. unfold maxSleepTime.
  rewrite Nat2Z.inj_succ, Z.pow_succ_r by lia.
  pose proof (Z.pow_pos_nonneg 2 (Z.of_nat j) ltac:(lia) ltac:(lia)).
  destruct (Z.gtb_spec (Z.min (2 ^ Z.of_nat j) 4096 * 2) 4096); lia.
Qed.

Lemma size_t_small (n : N) : (n < 2 ^ 64)%N -> size_t n = n.
Proof. intros H. unfold size_t. now apply N.mod_small. Qed.

Lemma httpExec_loop_scripted (script : nat -> HttpResponse) (tries : nat) :
  (N.of_nat tries < 2 ^ 64)%N ->
  forall fuel j w,
    calls w = j -> slept w = backoff j ->
    (j < tries)%nat -> (tries <= fuel + j)%nat ->
    exists w' n,
      httpExec_loop fuel (op script) (N.of_nat tries) (N.of_nat j)
        (Z.min (2 ^ Z.of_nat j) maxSleepTime) w
      = Some (Returned (script (n - 1)%nat) w') /\
      (j < n <= tries)%nat /\
      calls w' = n /\
      (forall k, (j <= k < n - 1)%nat -> is5xx (code (script k))) /\
      ((n < tries)%nat -> ~ is5xx (code (script (n - 1)%nat))) /\
      slept w' =
        backoff (if (code (script (n - 1)%nat) =? 200)%Z then n - 1 else n).
Proof.
  intros Htries. induction fuel as [|fuel IH]; intros j w Hc Hs Hj Hfuel; [lia|].
  cbn [httpExec_loop]. unfold op at 1. rewrite Hc.
  destruct (code (script j) =? 200)%Z eqn:E200.
  - (* success: no sleep, no retry *)
    cbn [negb].
    assert (Hn5 : ~ is5xx (code (script j))).
    { intros H5. apply is5xx_not_200 in H5. congruence. }
    destruct (Z.quot (code (script j)) 100 =? 5)%Z eqn:E5.
    { apply is5xx_quot in E5. contradiction. }
    eexists. exists (S j).
    replace (S j - 1)%nat with j by lia. rewrite E200.
    split; [reflexivity|]. split; [lia|]. split; [reflexivity|].
    split; [intros k Hk; lia|]. split; [intros _; assumption | assumption].
  - cbn [negb]. cbn [sleep_for host].
    rewrite sleepTime_step.
    set (w1 := if (N.of_nat j =? 5)%N then _ else _).
    assert (Hw1 : calls w1 = S j /\ slept w1 = backoff (S j)).
    { rewrite backoff_S, <- Hs. subst w1.
      destruct (N.of_nat j =? 5)%N; split; reflexivity. }
    destruct Hw1 as [Hc1 Hs1].
    destruct (Z.quot (code (script j)) 100 =? 5)%Z eqn:E5.
    + apply is5xx_quot in E5.
      rewrite size_t_small by lia.
      replace (N.of_nat j + 1)%N with (N.of_nat (S j)) by lia.
      destruct (N.ltb_spec (N.of_nat (S j)) (N.of_nat tries)) as [Hlt|Hge].
      * destruct (IH (S j) w1 Hc1 Hs1 ltac:(lia) ltac:(lia))
          as (w' & n & Hrun & Hn & Hcalls & H5 & Hlast & Hsl).
        exists w', n. split; [assumption|]. split; [lia|].
        split; [assumption|]. split; [|split; assumption].
        intros k Hk. destruct (Nat.eq_dec k j) as [->|]; [assumption|].
        apply H5. lia.
      * exists w1, (S j).
        replace (S j - 1)%nat with j by lia. rewrite E200.
        split; [reflexivity|]. split; [lia|]. split; [assumption|].
        split; [intros k Hk; lia|]. split; [intros; lia | assumption].
    + exists w1, (S j).
      replace (S j - 1)%nat with j by lia. rewrite E200.
      split; [reflexivity|]. split; [lia|]. split; [assumption|].
      split; [intros k Hk; lia|]. split; [|assumption].
      intros _ H5. apply is5xx_quot in H5. congruence.
Qed.

Lemma httpExec_scripted (script : nat -> HttpResponse) :
  exists w' n,
    httpExec (op script) httpAttempts start
    = Some (Returned (script (n - 1)%nat) w') /\
    (0 < n <= 200)%nat /\
    calls w' = n /\
    (forall k, (k < n - 1)%nat -> is5xx (code (script k))) /\
    ((n < 200)%nat -> ~ is5xx (code (script (n - 1)%nat))) /\
    slept w' =
      backoff (if (code (script (n - 1)%nat) =? 200)%Z then n - 1 else n).
Proof.
  destruct (httpExec_loop_scripted script 200 ltac:(reflexivity)
              (S (N.to_nat httpAttempts)) 0 start eq_refl eq_refl
              ltac:(lia) ltac:(unfold httpAttempts; lia))
    as (w' & n & Hrun & Hn & Hc & H5 & Hlast & Hs).
  exists w', n. split; [exact Hrun|]. split; [lia|]. split; [exact Hc|].
  split; [|split; assumption]. intros k Hk. apply H5. lia.
Qed.

(** C2. On the operation that answers [script k] at its [k]-th invocation,
    [httpExec] with the cap of 200 attempts: when the first [N] answers are
    5xx and the next one is 200 (N + 1 <= 200), it returns that answer after
    exactly [N + 1] invocations, having slept 1, 2, 4, ... capped at 4096
    between them; when the answers are 5xx throughout, it returns the 200th
    answer after exactly 200 invocations; when the first answer is outside
    5xx, it returns it after one invocation; and for every script the sleeps
    start at 1, double up to the cap of 4096 from one to the next, never
    decrease and never exceed 4096. *)
Theorem httpExec_retry_policy (script : nat -> HttpResponse) :
  (forall N : nat,
      (N + 1 <= 200)%nat ->
      (forall k, (k < N)%nat -> is5xx (code (script k))) ->
      code (script N) = 200%Z ->
      exists w,
        httpExec (op script) httpAttempts start = Some (Returned (script N) w) /\
        calls w = (N + 1)%nat /\
        slept w = backoff N) /\
  ((forall k, (k < 200)%nat -> is5xx (code (script k))) ->
   exists w,
     httpExec (op script) httpAttempts start = Some (Returned (script 199%nat) w) /\
     calls w = 200%nat /\
     slept w = backoff 200) /\
  (~ is5xx (code (script 0%nat)) ->
   exists w,
     httpExec (op script) httpAttempts start = Some (Returned (script 0%nat) w) /\
     calls w = 1%nat) /\
  (exists res w,
      httpExec (op script) httpAttempts start = Some (Returned res w) /\
      backoff_schedule (slept w)).
Proof.
  destruct (httpExec_scripted script)
    as (w & n & Hrun & Hn & Hc & H5 & Hlast & Hs).
  split; [|split; [|split]].
  - intros N HN Hfail Hok.
    assert (Hn5 : ~ is5xx (code (script N))) by (unfold is5xx; lia).
    assert (Hn' : n = S N).
    { destruct (lt_eq_lt_dec (n - 1) N) as [[Hlt|Heq]|Hgt].
      - exfalso. apply Hlast; [lia | apply Hfail; exact Hlt].
      - lia.
      - exfalso. apply Hn5, H5. lia. }
    rewrite Hn' in *. replace (S N - 1)%nat with N in * by lia.
    exists w. split; [exact Hrun|]. split; [lia|].
    rewrite Hs, Hok. reflexivity.
  - intros Hfail.
    assert (Hn' : n = 200%nat).
    { destruct (Nat.eq_dec n 200) as [|Hne]; [assumption|].
      exfalso. apply Hlast; [lia | apply Hfail; lia]. }
    rewrite Hn' in *. exists w. split; [exact Hrun|]. split; [assumption|].
    rewrite Hs. rewrite is5xx_not_200 by (apply Hfail; lia). reflexivity.
  - intros Hfirst.
    assert (Hn' : n = 1%nat).
    { destruct (Nat.eq_dec n 1) as [|Hne]; [assumption|].
      exfalso. apply Hfirst, H5. lia. }
    rewrite Hn' in *. exists w. split; [exact Hrun | assumption].
  - exists (script (n - 1)%nat), w. split; [exact Hrun|].
    rewrite Hs. apply backoff_is_schedule.
Qed.

Lemma httpExec_retry_policy_witness :
  (exists w,
      httpExec (op (fail_then_ok 3)) httpAttempts start
      = Some (Returned (fail_then_ok 3 3) w) /\
      calls w = 4%nat /\ slept w = backoff 3) /\
  (exists w,
      httpExec (op (fail_then_ok 200)) httpAttempts start
      = Some (Returned (fail_then_ok 200 199) w) /\
      calls w = 200%nat /\ slept w = backoff 200) /\
  (exists w,
      httpExec (op (fail_then_ok 0)) httpAttempts start
      = Some (Returned (fail_then_ok 0 0) w) /\
      calls w = 1%nat).
Proof.
  split; [|split].
  - apply (proj1 (httpExec_retry_policy (fail_then_ok 3)) 3%nat).
    + lia.
    + intros k Hk. unfold fail_then_ok.
      destruct (Nat.ltb_spec k 3); [cbn; unfold is5xx; lia | lia].
    + reflexivity.
  - apply (proj1 (proj2 (httpExec_retry_policy (fail_then_ok 200)))).
    intros k Hk. unfold fail_then_ok.
    destruct (Nat.ltb_spec k 200); [cbn; unfold is5xx; lia | lia].
  - apply (proj1 (proj2 (proj2 (httpExec_retry_policy (fail_then_ok 0))))).
    cbn. unfold is5xx. lia.
Defined.

Section Total.
Context {W : Type} {host : Host W}.

(** With one unit of fuel per remaining attempt the loop exits. *)
Lemma httpExec_loop_total (f : W -> Outcome W HttpResponse) (tries : N) :
  (tries < 2 ^ 64)%N ->
  forall fuel fails sleepTime w,
    (fails < tries \/ fails = 0)%N ->
    (1 <= fuel)%nat ->
    (N.to_nat tries <= fuel + N.to_nat fails)%nat ->
    httpExec_loop fuel f tries fails sleepTime w <> None.
Proof.
  intros Htries. induction fuel as [|fuel IH];
    intros fails sleepTime w Hinv Hfuel Hle; [lia|].
  cbn [httpExec_loop].
  destruct (f w) as [res w'| e w' |]; try discriminate.
  destruct (negb (code res =? 200)%Z);
    (destruct (Z.quot (code res) 100 =? 5)%Z; [|discriminate]);
    rewrite size_t_small by lia;
    (destruct (N.ltb_spec (fails + 1) tries); [|discriminate]);
    apply IH; lia.
Qed.

End Total.

End RetryFacts.

(** ** The paginated listing *)

Module GlobFacts.
Import S3.

Lemma compare_refl (k : string) : String.compare k k = Eq.
Proof.
  induction k as [|c k IH]; [reflexivity|].
  cbn [String.compare]. unfold Ascii.compare. now rewrite N.compare_refl.
Qed.

Lemma query_set_set (k v1 v2 : string) (q : Query) :
  query_set k v2 (query_set k v1 q) = query_set k v2 q.
Proof.
  induction q as [|[k' v'] q IH]; cbn [query_set].
  - now rewrite compare_refl.
  - destruct (String.compare k k') eqn:E; cbn [query_set].
    + now rewrite compare_refl.
    + now rewrite compare_refl.
    + now rewrite E, IH.
Qed.

Lemma query_get_set (k v : string) (q : Query) :
  query_get k (query_set k v q) = Some v.
Proof.
  induction q as [|[k' v'] q IH]; cbn [query_set query_get].
  - now rewrite String.eqb_refl.
  - destruct (String.compare k k') eqn:E; cbn [query_get].
    + now rewrite String.eqb_refl.
    + now rewrite String.eqb_refl.
    + destruct (String.eqb_spec k k') as [->|_]; [|exact IH].
      rewrite compare_refl in E. discriminate.
Qed.

Section Pages.
Variables bucket object prefix : string.

Lemma next_query_cons (more : bool) (k : string) (keys : list string)
    (query : Query) :
  next_query object prefix more (k :: keys) query
  = next_query object prefix more keys
      (if (qualifies prefix k && more)%bool
       then query_set "marker" (marker_of object prefix k) query
       else query).
Proof.
  unfold next_query. destruct more; [|now rewrite andb_false_r].
  rewrite andb_true_r. cbn [filter].
  destruct (qualifies prefix k); [|reflexivity].
  cbn [map]. destruct (filter (qualifies prefix) keys) as [|k' ks] eqn:E.
  - reflexivity.
  - cbn [map]. 
    assert (H : exists key, last (Some k' :: map Some ks) None = Some key).
    { clear. revert k'. induction ks as [|x ks IH]; intros k'.
      - now exists k'.
      - destruct (IH x) as [key Hk]. exists key. exact Hk. }
    destruct H as [key Hk].
    change (last (Some k :: Some k' :: map Some ks) None)
      with (last (Some k' :: map Some ks) None).
    rewrite Hk. now rewrite query_set_set.
Qed.

Lemma entries_cons (k : string) (keys : list string) :
  entries bucket prefix (k :: keys)
  = ((if qualifies prefix k then [entry bucket k] else [])
     ++ entries bucket prefix keys)%list.
Proof.
  unfold entries. cbn [filter]. now destruct (qualifies prefix k).
Qed.

Lemma contents_loop_spec (more : bool) :
  forall conNode keys results query,
    map key_of conNode = map Some keys ->
    keys_in_range prefix more keys ->
    contents_loop bucket object prefix more conNode results query
    = inr ((results ++ entries bucket prefix keys)%list,
           next_query object prefix more keys query).
Proof.
  induction conNode as [|[name value children] siblings IH];
    intros keys results query Hk Hr.
  - destruct keys; [|discriminate].
    unfold entries, next_query. cbn. rewrite app_nil_r. now destruct more.
  - destruct keys as [|k keys]; [discriminate|].
    cbn [map] in Hk. injection Hk as Hk1 Hk.
    unfold key_of in Hk1. cbn [node_children] in Hk1.
    cbn [contents_loop].
    destruct (first_node children "Key") as [|keyNode ?]; [discriminate|].
    injection Hk1 as <-.
    assert (Hr' : keys_in_range prefix more keys).
    { intros Hm. specialize (Hr Hm). now inversion Hr. }
    rewrite next_query_cons, entries_cons.
    pose proof (eq_refl (qualifies prefix (node_value keyNode))) as Hq.
    unfold qualifies at 2 in Hq.
    destruct (find_char (node_value keyNode) "/" (length prefix)) eqn:Ef;
      rewrite Hq.
    + cbn [andb]. now rewrite (IH keys results query Hk Hr').
    + cbn [andb]. destruct more.
      * assert (Hlen : (length prefix <= length (node_value keyNode))%nat).
        { specialize (Hr eq_refl). inversion Hr as [|? ? Hq' _]; subst.
          auto. }
        unfold substr_out_of_range.
        destruct (Nat.ltb_spec (length (node_value keyNode)) (length prefix));
          [lia|].
        rewrite (IH keys _ _ Hk Hr'). unfold entry, marker_of.
        now rewrite <- app_assoc.
      * rewrite (IH keys _ _ Hk Hr'). unfold entry.
        now rewrite <- app_assoc.
Qed.

End Pages.

Section Glob.
Context {W : Type} {host : Host W}.
Variables (this : S3Driver) (verbose : bool) (bucket object prefix : string).

(** One page of the listing loop. *)
Lemma glob_loop_page (fuel : nat) (query : Query) (more_in : bool)
    (results : list string) (w : W)
    (res : HttpResponse) (w' : W) (xml : list XmlNode)
    (more : bool) (keys : list string) :
  fetch this verbose bucket query w = Some (Returned res w') ->
  code res = 200%Z ->
  xml_parse (body res) = Some xml ->
  is_page xml more_in more keys ->
  keys_in_range prefix more keys ->
  glob_loop this (S fuel) verbose bucket object prefix query more_in results w
  = if more
    then glob_loop this fuel verbose bucket object prefix
           (next_query object prefix more keys query) more
           (results ++ entries bucket prefix keys)%list w'
    else Some (Returned (results ++ entries bucket prefix keys)%list w').
Proof.
  intros Hf Hc Hp (topNode & rest & Htop & Htr & Hne & Hk) Hr.
  cbn [glob_loop]. unfold fetch in Hf. rewrite Hf, Hc. cbn [Z.eqb Pos.eqb].
  unfold body in Hp. rewrite Hp, Htop.
  fold (truncation (node_children topNode) more_in). rewrite Htr.
  destruct (first_node (node_children topNode) "Contents") as [|c cs] eqn:Ec;
    [contradiction|].
  rewrite (contents_loop_spec bucket object prefix more (c :: cs) keys
             results query Hk Hr).
  reflexivity.
Qed.

(** A page without [Contents]. *)
Lemma glob_loop_no_contents (fuel : nat) (query : Query) (more_in : bool)
    (results : list string) (w : W)
    (res : HttpResponse) (w' : W) (xml : list XmlNode)
    (topNode : XmlNode) (rest : list XmlNode) :
  fetch this verbose bucket query w = Some (Returned res w') ->
  code res = 200%Z ->
  xml_parse (body res) = Some xml ->
  first_node xml "ListBucketResult" = topNode :: rest ->
  first_node (node_children topNode) "Contents" = [] ->
  glob_loop this (S fuel) verbose bucket object prefix query more_in results w
  = Some (Threw (runtime_error badResponse) w').
Proof.
  intros Hf Hc Hp Htop Hcon.
  cbn [glob_loop]. unfold fetch in Hf. rewrite Hf, Hc. cbn [Z.eqb Pos.eqb].
  unfold body in Hp. rewrite Hp, Htop, Hcon. reflexivity.
Qed.

End Glob.

Section GlobClaims.
Context {W : Type} {host : Host W}.
Variables (this : S3Driver) (verbose : bool).

(** [glob] on a well-formed path enters the listing loop. *)
Lemma glob_enters_loop (fuel : nat) (path bucket object : string) (w : W) :
  getBucket path = Value bucket ->
  getObject path = Value object ->
  glob this fuel (path ++ "/*") verbose w
  = glob_loop this fuel verbose bucket object (prefix_of object)
      (first_query object) false [] w.
Proof.
  intros Hb Ho. unfold glob.
  assert (Hlen : (length (path ++ "/*") - 2 = length path)%nat).
  { rewrite length_append. simpl. lia. }
  rewrite Hlen, substr_skip_app, substr_take_app.
  destruct (length (path ++ "/*") <? 2)%nat eqn:El.
  { apply Nat.ltb_lt in El. rewrite length_append in El. simpl in El. lia. }
  change (String.eqb "/*" "/*") with true. cbn [orb negb].
  rewrite Hb, Ho. reflexivity.
Qed.

(** C7. A listing response of status 200 that parses and holds a
    [ListBucketResult] without any [Contents] makes the listing loop throw
    [runtime_error(badResponse)] in the world after the request, whatever
    results were collected before; whatever the status, the loop throws and
    returns no result; and so does [glob] when this is its first page. *)
Theorem glob_missing_contents (fuel : nat) (bucket object prefix : string)
    (query : Query) (more_in : bool) (results : list string) (w : W)
    (res : HttpResponse) (w' : W) (xml : list XmlNode)
    (topNode : XmlNode) (rest : list XmlNode) :
  fetch this verbose bucket query w = Some (Returned res w') ->
  xml_parse (body res) = Some xml ->
  first_node xml "ListBucketResult" = topNode :: rest ->
  first_node (node_children topNode) "Contents" = [] ->
  (code res = 200%Z ->
   glob_loop this (S fuel) verbose bucket object prefix query more_in results w
   = Some (Threw (runtime_error badResponse) w')) /\
  (exists what,
      glob_loop this (S fuel) verbose bucket object prefix query more_in
        results w
      = Some (Threw (runtime_error what) w')) /\
  (forall path,
      code res = 200%Z ->
      getBucket path = Value bucket -> getObject path = Value object ->
      query = first_query object ->
      glob this (S fuel) (path ++ "/*") verbose w
      = Some (Threw (runtime_error badResponse) w')).
Proof.
  intros Hf Hp Htop Hcon.
  assert (H200 : code res = 200%Z ->
    forall o p m r,
      glob_loop this (S fuel) verbose bucket o p query m r w
      = Some (Threw (runtime_error badResponse) w')).
  { intros Hc o p m r.
    exact (glob_loop_no_contents this verbose bucket o p fuel query m r w
             res w' xml topNode rest Hf Hc Hp Htop Hcon). }
  split; [|split].
  - intros Hc. apply H200, Hc.
  - destruct (Z.eq_dec (code res) 200) as [Hc|Hc].
    + eexists. apply H200, Hc.
    + eexists. cbn [glob_loop]. unfold fetch in Hf. rewrite Hf.
      apply Z.eqb_neq in Hc. rewrite Hc. reflexivity.
  - intros path Hc Hb Ho ->.
    rewrite (glob_enters_loop (S fuel) path bucket object w Hb Ho).
    apply H200, Hc.
Qed.

End GlobClaims.

Lemma glob_missing_contents_witness :
  glob (host := Listing.empty_host) Listing.this 1 ("bucket" ++ "/*") false
    Listing.start
  = Some (Threw (runtime_error badResponse)
            {| Listing.served := 1;
               Listing.requests := ["http://bucket.s3.amazonaws.com/"] |}).
Proof.
  refine (proj2 (proj2 (glob_missing_contents (host := Listing.empty_host)
            Listing.this false 0 "bucket" "" "" [] false [] Listing.start
            {| code := 200;
               data := list_byte_of_string (Listing.render Listing.empty_xml) |}
            _ Listing.empty_xml
            (Node "ListBucketResult" ""
               [Node "Name" "bucket" []; Node "IsTruncated" "false" []])
            [] _ _ _ _)) "bucket" _ _ _ _); reflexivity.
Defined.

Lemma find_char_None_iff (key : string) (c : ascii) :
  forall n,
    find_char key c n = None <->
    (forall i, (n <= i)%nat -> String.get i key <> Some c).
Proof.
  unfold find_char. induction key as [|b key IH]; intros n.
  - split; [intros _ i _; destruct i; discriminate|].
    intros _. destruct n; reflexivity.
  - destruct n as [|n]; cbn [index].
    + cbn [prefix]. destruct (ascii_dec c b) as [->|Hcb].
      * replace (prefix "" key) with true by (now destruct key).
        split; [discriminate|]. intros H. exfalso.
        apply (H 0%nat); [lia | reflexivity].
      * specialize (IH 0%nat).
        destruct (index 0 (String c "") key) as [p|].
        -- split; [discriminate|]. intros H. exfalso.
           assert (Hn : Some p = None); [|discriminate].
           apply IH. intros i _. apply (H (S i)). lia.
        -- split; [|reflexivity]. intros _ i _.
           destruct i as [|i]; cbn [String.get].
           ++ congruence.
           ++ apply (proj1 IH eq_refl). lia.
    + specialize (IH n).
      destruct (index n (String c "") key) as [p|].
      * split; [discriminate|]. intros H. exfalso.
        assert (Hn : Some p = None); [|discriminate].
        apply IH. intros i Hi. apply (H (S i)). lia.
      * split; [|reflexivity]. intros _ i Hi.
        destruct i as [|i]; [lia|]. cbn [String.get].
        apply (proj1 IH eq_refl). lia.
Qed.

Lemma qualifies_iff (prefix key : string) :
  qualifies prefix key = true <->
  (forall i, (length prefix <= i)%nat -> String.get i key <> Some "/"%char).
Proof.
  rewrite <- find_char_None_iff. unfold qualifies.
  destruct (find_char key "/" (length prefix)); split; congruence.
Qed.

Lemma append_inj_l (a b c : string) : a ++ b = a ++ c -> b = c.
Proof.
  induction a as [|x a IH]; cbn [append]; intros H; [exact H|].
  injection H as H. auto.
Qed.

Lemma entry_in_entries (bucket prefix key : string) (keys : list string) :
  In (entry bucket key) (entries bucket prefix keys) <->
  In key keys /\ qualifies prefix key = true.
Proof.
  unfold entries. rewrite in_map_iff, <- filter_In. split.
  - intros (k & Hk & Hin). unfold entry in Hk.
    apply append_inj_l, append_inj_l, append_inj_l in Hk. now subst.
  - intros H. now exists key.
Qed.

Section Listings.
Context {W : Type} {host : Host W}.
Variables (this : S3Driver) (verbose : bool).

(** C5. A key qualifies exactly when it has no '/' at or after index
    [prefix.length]; a listing page with [keys] appends to the results the
    entries of its qualifying keys in order, so that the entry of a key of
    the page is among them iff the key has no '/' at or after that index;
    and a one-page listing returns exactly these entries. *)
Theorem glob_single_level (bucket object prefix : string) :
  (forall key : string,
      qualifies prefix key = true <->
      (forall i, (length prefix <= i)%nat -> String.get i key <> Some "/"%char)) /\
  (forall (fuel : nat) (query : Query) (more_in : bool)
          (results : list string) (w : W)
          (res : HttpResponse) (w' : W) (xml : list XmlNode)
          (more : bool) (keys : list string),
      fetch this verbose bucket query w = Some (Returned res w') ->
      code res = 200%Z ->
      xml_parse (body res) = Some xml ->
      is_page xml more_in more keys ->
      keys_in_range prefix more keys ->
      glob_loop this (S fuel) verbose bucket object prefix query more_in
        results w
      = (if more
         then glob_loop this fuel verbose bucket object prefix
                (next_query object prefix more keys query) more
                (results ++ entries bucket prefix keys)%list w'
         else Some (Returned (results ++ entries bucket prefix keys)%list w')) /\
      (forall key,
          In key keys ->
          (In (entry bucket key) (entries bucket prefix keys) <->
           (forall i, (length prefix <= i)%nat ->
                      String.get i key <> Some "/"%char)))) /\
  (forall (fuel : nat) (path : string) (w : W)
          (res : HttpResponse) (w' : W) (xml : list XmlNode)
          (keys : list string),
      getBucket path = Value bucket ->
      getObject path = Value object ->
      fetch this verbose bucket (first_query object) w
      = Some (Returned res w') ->
      code res = 200%Z ->
      xml_parse (body res) = Some xml ->
      is_page xml false false keys ->
      glob this (S fuel) (path ++ "/*") verbose w
      = Some (Returned (entries bucket (prefix_of object) keys) w')).
Proof.
  split; [|split].
  - intros key. apply qualifies_iff.
  - intros fuel query more_in results w res w' xml more keys
           Hf Hc Hp Hpage Hr.
    split.
    + exact (glob_loop_page this verbose bucket object prefix fuel query
               more_in results w res w' xml more keys Hf Hc Hp Hpage Hr).
    + intros key Hin. rewrite entry_in_entries, qualifies_iff. tauto.
  - intros fuel path w res w' xml keys Hb Ho Hf Hc Hp Hpage.
    rewrite (glob_enters_loop this verbose (S fuel) path bucket object w Hb Ho).
    rewrite (glob_loop_page this verbose bucket object (prefix_of object)
               fuel (first_query object) false [] w res w' xml false keys
               Hf Hc Hp Hpage); [reflexivity|].
    intros H; discriminate.
Qed.

End Listings.

Lemma glob_single_level_witness :
  glob (host := Listing.dir_host) Listing.this 1 ("bucket/dir" ++ "/*") false
    Listing.start
  = Some (Returned ["s3://bucket/dir/a"]
            {| Listing.served := 1;
               Listing.requests :=
                 ["http://bucket.s3.amazonaws.com/?prefix=dir/"] |}).
Proof.
  refine (proj2 (proj2 (glob_single_level (host := Listing.dir_host)
            Listing.this false "bucket" "dir" "dir/"))
            0%nat "bucket/dir" Listing.start
            (Listing.page "false" ["dir/a"; "dir/sub/b"]) _
            Listing.dir_page ["dir/a"; "dir/sub/b"] _ _ _ _ _ _);
    try reflexivity.
  eexists; eexists. repeat split; try reflexivity. discriminate.
Defined.

Lemma marker_of_key (object rel : string) :
  marker_of object (prefix_of object) (prefix_of object ++ rel)
  = prefix_of object ++ rel.
Proof.
  unfold marker_of. rewrite substr_skip_app. unfold prefix_of.
  destruct object; reflexivity.
Qed.

Section Pagination.
Context {W : Type} {host : Host W}.
Variables (this : S3Driver) (verbose : bool) (bucket object prefix : string).

(** The entries of a sequence of pages, page after page. *)
Lemma glob_loop_in_turn (pages : list (bool * list string)) :
  forall (last_keys : list string) (query : Query) (more_in : bool)
         (results : list string) (w : W),
    Forall (fun page => fst page = true) pages ->
    answers_in_turn this verbose bucket object prefix w query more_in
      (pages ++ [(false, last_keys)]) ->
    exists w',
      glob_loop this (S (List.length pages)) verbose bucket object prefix
        query more_in results w
      = Some (Returned
                (results ++
                 flat_map (fun page => entries bucket prefix (snd page))
                          (pages ++ [(false, last_keys)]))%list
                w').
Proof.
  induction pages as [|[more keys] pages IH];
    intros last_keys query more_in results w Hall Hs.
  - cbn [app answers_in_turn] in Hs.
    destruct Hs as (res & w' & xml & Hf & Hc & Hp & Hpg & Hr & _).
    exists w'.
    rewrite (glob_loop_page this verbose bucket object prefix _ query more_in
               results w res w' xml false last_keys Hf Hc Hp Hpg Hr).
    cbn [app flat_map snd]. now rewrite app_nil_r.
  - inversion Hall as [|? ? Hm Hall']; subst. cbn [fst] in Hm. subst more.
    cbn [app answers_in_turn] in Hs.
    destruct Hs as (res & w' & xml & Hf & Hc & Hp & Hpg & Hr & Hs').
    cbn [List.length].
    rewrite (glob_loop_page this verbose bucket object prefix _ query more_in
               results w res w' xml true keys Hf Hc Hp Hpg Hr).
    destruct (IH last_keys (next_query object prefix true keys query) true
                (results ++ entries bucket prefix keys)%list w' Hall' Hs')
      as [w'' Hrun].
    exists w''. rewrite Hrun. cbn [app flat_map snd].
    now rewrite app_assoc.
Qed.

(** C4. When the server answers the requests that the loop sends, one
    after the other, with a sequence of truncated pages and a final page,
    the listing loop returns the entries of the qualifying keys of the
    first page, then of the second, and so on, in response order. After a
    truncated page whose last qualifying key is [key], the loop goes on with
    [query["marker"]] set to the object followed by a slash (nothing for the
    empty object) and the part of [key] after the prefix. For a key under
    the prefix of the listing that is the key in full, and it differs from
    the part of the key after the prefix as soon as the object is not
    empty. *)
Theorem glob_pages_in_order :
  (forall (pages : list (bool * list string)) (last_keys : list string)
          (query : Query) (more_in : bool) (results : list string) (w : W),
      Forall (fun page => fst page = true) pages ->
      answers_in_turn this verbose bucket object prefix w query more_in
        (pages ++ [(false, last_keys)]) ->
      exists w',
        glob_loop this (S (List.length pages)) verbose bucket object prefix
          query more_in results w
        = Some (Returned
                  (results ++
                   flat_map (fun page => entries bucket prefix (snd page))
                            (pages ++ [(false, last_keys)]))%list
                  w')) /\
  (forall (fuel : nat) (query : Query) (more_in : bool)
          (results : list string) (w : W)
          (res : HttpResponse) (w' : W) (xml : list XmlNode)
          (keys : list string) (key : string),
      fetch this verbose bucket query w = Some (Returned res w') ->
      code res = 200%Z ->
      xml_parse (body res) = Some xml ->
      is_page xml more_in true keys ->
      keys_in_range prefix true keys ->
      last (map Some (filter (qualifies prefix) keys)) None = Some key ->
      let marker :=
        (if (0 <? length object)%nat then object ++ "/" else "") ++
        substr key (length prefix) None in
      let query' := query_set "marker" marker query in
      glob_loop this (S fuel) verbose bucket object prefix query more_in
        results w
      = glob_loop this fuel verbose bucket object prefix query' true
          (results ++ entries bucket prefix keys)%list w' /\
      query_get "marker" query' = Some marker /\
      (forall rel,
          prefix = prefix_of object -> key = prefix ++ rel ->
          marker = key /\ (object <> "" -> marker <> rel))).
Proof.
  split.
  - intros pages. apply glob_loop_in_turn.
  - intros fuel query more_in results w res w' xml keys key
           Hf Hc Hp Hpg Hr Hlast marker query'.
    split; [|split].
    + rewrite (glob_loop_page this verbose bucket object prefix fuel query
                 more_in results w res w' xml true keys Hf Hc Hp Hpg Hr).
      unfold next_query. rewrite Hlast. reflexivity.
    + apply query_get_set.
    + intros rel -> ->.
      assert (Hm : marker = prefix_of object ++ rel).
      { exact (marker_of_key object rel). }
      split; [exact Hm|].
      intros Hne Heq. rewrite Hm in Heq.
      apply (f_equal length) in Heq. rewrite length_append in Heq.
      unfold prefix_of in Heq. destruct object as [|c o]; [congruence|].
      cbn [length Nat.eqb append] in Heq. lia.
Qed.

End Pagination.

Lemma two_pages_in_turn :
  answers_in_turn (host := Listing.two_pages_host) Listing.this false
    "bucket" "" "" Listing.start [] false
    ([(true, ["a"; "b"])] ++ [(false, ["c"])]).
Proof.
  cbn [app answers_in_turn].
  eexists. eexists. exists (Listing.page_xml "true" ["a"; "b"]).
  split; [reflexivity|]. split; [reflexivity|]. split; [reflexivity|].
  split.
  { eexists; eexists. repeat split; try reflexivity. discriminate. }
  split.
  { intros _. repeat (constructor; [intros _; cbn; lia|]). constructor. }
  eexists. eexists. exists (Listing.page_xml "false" ["c"]).
  split; [reflexivity|]. split; [reflexivity|]. split; [reflexivity|].
  split.
  { eexists; eexists. repeat split; try reflexivity. discriminate. }
  split; [intros H; discriminate | exact I].
Qed.

(** The server that answers by the URL alone answers the requests of the
    listing of "dir/" in turn. *)
Lemma dir_resume_in_turn :
  answers_in_turn (host := Listing.dir_resume_host) Listing.this false
    "bucket" "dir" "dir/" Listing.start (first_query "dir") false
    ([(true, ["dir/a"; "dir/b"])] ++ [(false, ["dir/c"])]).
Proof.
  cbn [app answers_in_turn].
  eexists. eexists. exists (Listing.page_xml "true" ["dir/a"; "dir/b"]).
  split; [reflexivity|]. split; [reflexivity|]. split; [reflexivity|].
  split.
  { eexists; eexists. repeat split; try reflexivity. discriminate. }
  split.
  { intros _. repeat (constructor; [intros _; cbn; lia|]). constructor. }
  eexists. eexists. exists (Listing.page_xml "false" ["dir/c"]).
  split; [reflexivity|]. split; [reflexivity|]. split; [reflexivity|].
  split.
  { eexists; eexists. repeat split; try reflexivity. discriminate. }
  split; [intros H; discriminate | exact I].
Qed.

Lemma glob_pages_in_order_witness :
  (exists w',
      glob_loop (host := Listing.two_pages_host) Listing.this 2 false
        "bucket" "" "" [] false [] Listing.start
      = Some (Returned ["s3://bucket/a"; "s3://bucket/b"; "s3://bucket/c"] w')) /\
  (exists w',
      glob_loop (host := Listing.dir_resume_host) Listing.this 2 false
        "bucket" "dir" "dir/" (first_query "dir") false [] Listing.start
      = Some (Returned ["s3://bucket/dir/a"; "s3://bucket/dir/b";
                        "s3://bucket/dir/c"] w')) /\
  (glob_loop (host := Listing.dir_resume_host) Listing.this 2 false
     "bucket" "dir" "dir/" (first_query "dir") false [] Listing.start
   = glob_loop (host := Listing.dir_resume_host) Listing.this 1 false
       "bucket" "dir" "dir/" [("marker", "dir/b"); ("prefix", "dir/")] true
       ["s3://bucket/dir/a"; "s3://bucket/dir/b"]
       {| Listing.served := 1;
          Listing.requests :=
            ["http://bucket.s3.amazonaws.com/?prefix=dir/"] |} /\
   query_get "marker" [("marker", "dir/b"); ("prefix", "dir/")]
   = Some "dir/b" /\
   "dir/b" <> "b") /\
  glob (host := Listing.dir_resume_host) Listing.this 2 "bucket/dir/*" false
    Listing.start
  = Some (Returned ["s3://bucket/dir/a"; "s3://bucket/dir/b";
                    "s3://bucket/dir/c"]
            {| Listing.served := 2;
               Listing.requests :=
                 ["http://bucket.s3.amazonaws.com/?prefix=dir/";
                  "http://bucket.s3.amazonaws.com/?marker=dir/b&prefix=dir/"] |}).
Proof.
  split; [|split; [|split]].
  - apply (proj1 (glob_pages_in_order (host := Listing.two_pages_host)
             Listing.this false "bucket" "" "")
             [(true, ["a"; "b"])] ["c"] [] false [] Listing.start).
    + repeat constructor.
    + exact two_pages_in_turn.
  - apply (proj1 (glob_pages_in_order (host := Listing.dir_resume_host)
             Listing.this false "bucket" "dir" "dir/")
             [(true, ["dir/a"; "dir/b"])] ["dir/c"] (first_query "dir") false
             [] Listing.start).
    + repeat constructor.
    + exact dir_resume_in_turn.
  - destruct (proj2 (glob_pages_in_order (host := Listing.dir_resume_host)
                Listing.this false "bucket" "dir" "dir/")
                1%nat (first_query "dir") false [] Listing.start
                (Listing.page "true" ["dir/a"; "dir/b"])
                {| Listing.served := 1;
                   Listing.requests :=
                     ["http://bucket.s3.amazonaws.com/?prefix=dir/"] |}
                (Listing.page_xml "true" ["dir/a"; "dir/b"])
                ["dir/a"; "dir/b"] "dir/b"
                eq_refl eq_refl eq_refl)
      as (Hstep & Hmarker & Hfull).
    + eexists; eexists. repeat split; try reflexivity. discriminate.
    + intros _. repeat (constructor; [intros _; cbn; lia|]). constructor.
    + reflexivity.
    + split; [exact Hstep|]. split; [exact Hmarker|].
      exact (proj2 (Hfull "b" eq_refl eq_refl) ltac:(discriminate)).
  - reflexivity.
Defined.

(** The claim as stated fails under a non-empty prefix: after the truncated
    page with the keys "dir/a" and "dir/b" of the listing of "dir/", the
    last qualifying key relative to the prefix is "b", and the marker of the
    next request is "dir/b". *)
Lemma relative_marker_counterexample :
  last (map Some (filter (qualifies "dir/") ["dir/a"; "dir/b"])) None
  = Some "dir/b" /\
  substr "dir/b" (length "dir/") None = "b" /\
  query_get "marker"
    (next_query "dir" "dir/" true ["dir/a"; "dir/b"] (first_query "dir"))
  = Some "dir/b" /\
  query_get "marker"
    (next_query "dir" "dir/" true ["dir/a"; "dir/b"] (first_query "dir"))
  <> Some "b" /\
  glob (host := Listing.dir_resume_host) Listing.this 2 "bucket/dir/*" false
    Listing.start
  = Some (Returned ["s3://bucket/dir/a"; "s3://bucket/dir/b";
                    "s3://bucket/dir/c"]
            {| Listing.served := 2;
               Listing.requests :=
                 ["http://bucket.s3.amazonaws.com/?prefix=dir/";
                  "http://bucket.s3.amazonaws.com/?marker=dir/b&prefix=dir/"] |}).
Proof.
  split; [reflexivity|]. split; [reflexivity|]. split; [reflexivity|].
  split; [discriminate | reflexivity].
Qed.

Lemma stuck_next_query (object prefix : string) (page : bool * list string)
    (query : Query) :
  stuck prefix page = true ->
  fst page = true /\
  next_query object prefix (fst page) (snd page) query = query.
Proof.
  unfold stuck, next_query. destruct (fst page); [|discriminate].
  destruct (filter (qualifies prefix) (snd page)); [|discriminate].
  now split.
Qed.

Section Termination.
Context {W : Type} {host : Host W}.
Variables (this : S3Driver) (verbose : bool) (bucket object prefix : string).
Variable listing : Query -> bool * list string.
Variable query : Query.
Hypothesis Hanswers : answers this verbose bucket object prefix listing query.

Local Abbreviation q n := (query_after object prefix listing n query).
Local Abbreviation loop fuel qn more results w :=
  (glob_loop this fuel verbose bucket object prefix qn more results w).

(** The loop after [n] truncated pages. *)
Lemma glob_loop_after (n : nat) :
  (forall i, (i < n)%nat -> fst (listing (q i)) = true) ->
  forall fuel more_in results w,
  exists more results' w',
    loop (n + fuel)%nat query more_in results w
    = loop fuel (q n) more results' w'.
Proof.
  induction n as [|n IH]; intros Htr fuel more_in results w.
  - now exists more_in, results, w.
  - destruct (IH (fun i Hi => Htr i (Nat.lt_lt_succ_r _ _ Hi))
                (S fuel) more_in results w) as (more & results' & w' & Hrun).
    destruct (Hanswers n w' more)
      as (res & w'' & xml & Hf & Hc & Hp & Hpg & Hr).
    cbv zeta in Hf, Hpg, Hr.
    replace (S n + fuel)%nat with (n + S fuel)%nat by lia.
    rewrite Hrun.
    rewrite (glob_loop_page this verbose bucket object prefix fuel (q n) more
               results' w' res w'' xml _ _ Hf Hc Hp Hpg Hr).
    eexists; eexists; eexists. cbn [query_after].
    rewrite (Htr n (Nat.lt_succ_diag_r n)). reflexivity.
Qed.

(** On a stuck page the loop runs out of any fuel. *)
Lemma glob_loop_stuck (n : nat) :
  stuck prefix (listing (q n)) = true ->
  forall fuel more_in results w, loop fuel (q n) more_in results w = None.
Proof.
  intros Hst. destruct (stuck_next_query object prefix _ (q n) Hst) as [Htr Hq].
  induction fuel as [|fuel IH]; intros more_in results w; [reflexivity|].
  destruct (Hanswers n w more_in)
    as (res & w' & xml & Hf & Hc & Hp & Hpg & Hr).
  cbv zeta in Hf, Hpg, Hr.
  rewrite (glob_loop_page this verbose bucket object prefix fuel (q n) more_in
             results w res w' xml _ _ Hf Hc Hp Hpg Hr).
  rewrite Htr in *. rewrite Hq. apply IH.
Qed.

Lemma glob_loop_fuel_out (n : nat) :
  (forall i, (i < n)%nat -> fst (listing (q i)) = true) ->
  forall fuel more_in results w,
    (fuel <= n)%nat -> loop fuel query more_in results w = None.
Proof.
  intros Htr fuel more_in results w Hle.
  destruct (glob_loop_after fuel (fun i Hi => Htr i ltac:(lia))
              0%nat more_in results w) as (more & results' & w' & Hrun).
  rewrite Nat.add_0_r in Hrun. rewrite Hrun. reflexivity.
Qed.

(** C9. With a server that answers every page request by its query alone,
    with status 200 and a well-formed page ([answers]): on a truncated page
    without a qualifying key the next query is the same query and the loop
    runs out of any fuel; and when each truncated page with a qualifying
    key brings the listing closer to its end ([rank]), the loop terminates
    iff no page reached through truncated pages is truncated without a
    qualifying key. *)
Theorem glob_terminates_iff_no_stuck_page :
  (forall n,
      stuck prefix (listing (q n)) = true ->
      q (S n) = q n /\
      forall fuel more_in results w,
        loop fuel (q n) more_in results w = None) /\
  (forall rank : Query -> nat,
      (forall n,
          fst (listing (q n)) = true ->
          stuck prefix (listing (q n)) = false ->
          (rank (q (S n)) < rank (q n))%nat) ->
      forall more_in results w,
        (exists fuel, loop fuel query more_in results w <> None) <->
        (forall n,
            (forall i, (i < n)%nat -> fst (listing (q i)) = true) ->
            stuck prefix (listing (q n)) = false)).
Proof.
  split.
  - intros n Hst. split.
    + cbn [query_after].
      apply (stuck_next_query object prefix _ (q n) Hst).
    + apply glob_loop_stuck, Hst.
  - intros rank Hrank more_in results w. split.
    + intros [fuel Hterm] n Htr.
      destruct (stuck prefix (listing (q n))) eqn:Hst; [|reflexivity].
      exfalso. apply Hterm.
      destruct (Nat.le_gt_cases fuel n) as [Hle|Hgt].
      * now apply (glob_loop_fuel_out n Htr).
      * destruct (glob_loop_after n Htr (fuel - n) more_in results w)
          as (more & results' & w' & Hrun).
        replace (n + (fuel - n))%nat with fuel in Hrun by lia.
        rewrite Hrun. now apply glob_loop_stuck.
    + intros Hno.
      assert (Hfrom : forall r n,
                 (rank (q n) < r)%nat ->
                 (forall i, (i < n)%nat -> fst (listing (q i)) = true) ->
                 exists fuel, forall more results' w',
                   loop fuel (q n) more results' w' <> None).
      { induction r as [|r IH]; intros n Hr Htr; [lia|].
        destruct (fst (listing (q n))) eqn:Hm.
        - assert (Htr' : forall i, (i < S n)%nat -> fst (listing (q i)) = true).
          { intros i Hi. destruct (Nat.eq_dec i n) as [->|]; [exact Hm|].
            apply Htr. lia. }
          pose proof (Hrank n Hm (Hno n Htr)) as Hlt.
          destruct (IH (S n) ltac:(lia) Htr') as [fuel Hfuel].
          exists (S fuel). intros more results' w'.
          destruct (Hanswers n w' more)
            as (res & w'' & xml & Hf & Hc & Hp & Hpg & Hkr).
          cbv zeta in Hf, Hpg, Hkr.
          rewrite (glob_loop_page this verbose bucket object prefix fuel (q n)
                     more results' w' res w'' xml _ _ Hf Hc Hp Hpg Hkr).
          specialize (Hfuel (fst (listing (q n)))
                       (results' ++ entries bucket prefix (snd (listing (q n))))%list
                       w'').
          cbn [query_after] in Hfuel. rewrite Hm in *. exact Hfuel.
        - exists 1%nat. intros more results' w'.
          destruct (Hanswers n w' more)
            as (res & w'' & xml & Hf & Hc & Hp & Hpg & Hkr).
          cbv zeta in Hf, Hpg, Hkr.
          rewrite (glob_loop_page this verbose bucket object prefix 0 (q n)
                     more results' w' res w'' xml _ _ Hf Hc Hp Hpg Hkr).
          rewrite Hm. discriminate. }
      destruct (Hfrom (S (rank (q 0%nat))) 0%nat ltac:(lia)
                  ltac:(intros i Hi; lia)) as [fuel Hfuel].
      exists fuel. apply Hfuel.
Qed.

End Termination.

Lemma stuck_queries (n : nat) :
  query_after "dir" "dir/" Listing.stuck_listing n (first_query "dir")
  = first_query "dir".
Proof.
  induction n as [|n IH]; [reflexivity|].
  cbn [query_after]. rewrite IH. reflexivity.
Qed.

Lemma stuck_answers :
  answers (host := Listing.stuck_host) Listing.this false "bucket" "dir" "dir/"
    Listing.stuck_listing (first_query "dir").
Proof.
  intros n w more_in. rewrite stuck_queries.
  eexists. eexists. exists Listing.stuck_xml.
  split; [reflexivity|]. split; [reflexivity|]. split; [reflexivity|].
  split.
  - eexists; eexists. repeat split; try reflexivity. discriminate.
  - intros _. constructor; [intros _; cbn; lia | constructor].
Qed.

Lemma resume_queries (n : nat) :
  query_after "" "" Listing.resume_listing (S n) [] = [("marker", "b")].
Proof.
  induction n as [|n IH]; [reflexivity|].
  cbn [query_after] in *. rewrite IH. reflexivity.
Qed.

Lemma resume_answers :
  answers (host := Listing.resume_host) Listing.this false "bucket" "" ""
    Listing.resume_listing [].
Proof.
  intros n w more_in. destruct n as [|n].
  - eexists. eexists. exists (Listing.page_xml "true" ["a"; "b"]).
    split; [reflexivity|]. split; [reflexivity|]. split; [reflexivity|].
    split.
    + eexists; eexists. repeat split; try reflexivity. discriminate.
    + intros _. repeat (constructor; [intros _; cbn; lia|]). constructor.
  - rewrite resume_queries.
    eexists. eexists. exists (Listing.page_xml "false" ["c"]).
    split; [reflexivity|]. split; [reflexivity|]. split; [reflexivity|].
    split.
    + eexists; eexists. repeat split; try reflexivity. discriminate.
    + intros H. discriminate.
Qed.

Lemma glob_terminates_iff_no_stuck_page_witness :
  (forall fuel,
      glob (host := Listing.stuck_host) Listing.this fuel ("bucket/dir" ++ "/*")
        false Listing.start = None) /\
  (exists fuel,
      glob_loop (host := Listing.resume_host) Listing.this fuel false
        "bucket" "" "" [] false [] Listing.start <> None).
Proof.
  split.
  - intros fuel.
    rewrite (glob_enters_loop (host := Listing.stuck_host) Listing.this false
               fuel "bucket/dir" "bucket" "dir" Listing.start eq_refl eq_refl).
    apply (proj2 (proj1 (glob_terminates_iff_no_stuck_page
             (host := Listing.stuck_host) Listing.this false
             "bucket" "dir" "dir/" Listing.stuck_listing (first_query "dir")
             stuck_answers) 0%nat eq_refl)).
  - apply (proj2 (glob_terminates_iff_no_stuck_page
             (host := Listing.resume_host) Listing.this false
             "bucket" "" "" Listing.resume_listing [] resume_answers)
             Listing.resume_rank).
    + intros [|n] Htr _.
      * cbn. lia.
      * rewrite resume_queries in Htr. discriminate.
    + intros [|n] _.
      * reflexivity.
      * rewrite resume_queries. reflexivity.
Defined.

Lemma endless_answers :
  answers (host := Listing.endless_host) Listing.this false "bucket" "" ""
    Listing.endless_listing [].
Proof.
  intros n w more_in.
  eexists. eexists. exists (Listing.page_xml "true" ["a"]).
  split; [reflexivity|]. split; [reflexivity|]. split; [reflexivity|].
  split.
  - eexists; eexists. repeat split; try reflexivity. discriminate.
  - intros _. constructor; [intros _; cbn; lia | constructor].
Qed.

(** The claim as stated fails in both directions when the server is not
    held to answer by the query alone and to come to a last page. A server
    that follows a truncated page without a qualifying key by a last page,
    whatever the request, ends the listing: the identical request is sent
    twice and [glob] returns. And a server that answers every request with
    the same truncated page, whose key qualifies, never ends it: no fuel
    suffices. *)
Lemma stuck_page_counterexample :
  (stuck "dir/" (true, ["dir/sub/b"]) = true /\
   glob (host := Listing.stuck_then_last_host) Listing.this 2 "bucket/dir/*"
     false Listing.start
   = Some (Returned ["s3://bucket/dir/z"]
             {| Listing.served := 2;
                Listing.requests :=
                  ["http://bucket.s3.amazonaws.com/?prefix=dir/";
                   "http://bucket.s3.amazonaws.com/?prefix=dir/"] |})) /\
  (stuck "" (true, ["a"]) = false /\
   forall fuel,
     glob (host := Listing.endless_host) Listing.this fuel "bucket/*" false
       Listing.start
     = None).
Proof.
  split; [split; reflexivity|]. split; [reflexivity|].
  intros fuel. change "bucket/*" with ("bucket" ++ "/*").
  rewrite (glob_enters_loop (host := Listing.endless_host) Listing.this false
             fuel "bucket" "bucket" "" Listing.start eq_refl eq_refl).
  apply (glob_loop_fuel_out (host := Listing.endless_host) Listing.this false
           "bucket" "" "" Listing.endless_listing [] endless_answers fuel).
  - intros i _. reflexivity.
  - apply le_n.
Qed.

End GlobFacts.

(** ** Signed requests *)

Module SigningFacts.
Import S3 S3Facts.

Lemma pop_back_back (s : string) (c : ascii) :
  back s = Some c -> s = pop_back s ++ String c "".
Proof.
  induction s as [|x s IH]; [discriminate|].
  cbn [back pop_back]. destruct s as [|y s].
  - now intros [= ->].
  - intros H. cbn [append]. f_equal. exact (IH H).
Qed.

Lemma get_of_substring_1 (s : string) (c : ascii) :
  forall n, substring n 1 s = String c "" -> String.get n s = Some c.
Proof.
  induction s as [|x s IH]; intros n H.
  - destruct n; discriminate.
  - destruct n as [|n]; cbn [substring String.get] in *.
    + now injection H as -> _.
    + auto.
Qed.

Lemma get_app_l (a b : string) (n : nat) (c : ascii) :
  String.get n a = Some c -> String.get n (a ++ b) = Some c.
Proof.
  revert n. induction a as [|x a IH]; intros n H.
  - destruct n; discriminate.
  - destruct n as [|n]; cbn [String.get append] in *; auto.
Qed.

Lemma substring_to_end (s : string) :
  forall n m, (length s <= n + m)%nat ->
              substring n m s = substring n (length s) s.
Proof.
  induction s as [|x s IH]; intros n m H.
  - destruct n, m; reflexivity.
  - destruct n as [|n].
    + rewrite !substring_0_all; [reflexivity | lia | cbn in *; lia].
    + cbn [substring]. cbn [length] in H.
      rewrite (IH n m) by lia. symmetry. apply IH. cbn [length]. lia.
Qed.

Lemma split_at_get (s : string) (c : ascii) :
  forall n,
    String.get n s = Some c ->
    s = substring 0 n s ++ String c (substring (S n) (length s) s).
Proof.
  induction s as [|x s IH]; intros n H.
  - destruct n; discriminate.
  - destruct n as [|n]; cbn [String.get] in H.
    + injection H as ->. cbn [substring append length].
      now rewrite substring_0_all by lia.
    + cbn [substring append]. f_equal.
      rewrite (substring_to_end s (S n) (length (String x s)))
        by (cbn [length]; lia).
      exact (IH n H).
Qed.

(** A path with a slash between bucket and object is their join. *)
Lemma path_is_bucket_object (path bucket object : string) (pos : nat) :
  split path = Value (Some pos) ->
  getBucket path = Value bucket ->
  getObject path = Value object ->
  path = bucket ++ "/" ++ object.
Proof.
  intros Hs Hb Ho. unfold getBucket, getObject in *. rewrite Hs in *.
  injection Hb as <-. injection Ho as <-.
  unfold split in Hs. destruct (back path) as [c|] eqn:Hback; [|discriminate].
  injection Hs as Hs. unfold find in Hs.
  assert (Hget : String.get pos path = Some "/"%char).
  { destruct (Ascii.eqb c "/").
    - rewrite (pop_back_back path c Hback). apply get_app_l.
      apply get_of_substring_1. exact (index_correct1 _ _ _ _ Hs).
    - apply get_of_substring_1. exact (index_correct1 _ _ _ _ Hs). }
  unfold substr. replace (pos + 1)%nat with (S pos) by lia.
  exact (split_at_get path "/" pos Hget).
Qed.

Section Signing.
Context {W : Type} {host : Host W}.
Variable this : S3Driver.

(** C3, amended. A GET of [bucket] and [object] signs exactly GET, two
    newlines, an empty content type, a newline, the date, a newline and
    "/" bucket "/" object, and sends [Date] and [Authorization: AWS
    access:signature]. A PUT whose path has a '/' between bucket and object
    signs PUT, two newlines, application/octet-stream, a newline, the date,
    a newline and "/" bucket "/" object, and sends [Content-Type] first and
    the cleared [Transfer-Encoding] and [Expect] last. Every PUT signs "/"
    followed by its path. *)
Theorem requests_sign_bucket_and_object :
  (forall (bucket object : string) (query : Query) (w : W),
      getStringToSign "GET" (bucket ++ "/" ++ object) (getHttpDate w) ""
      = "GET" ++ nl ++ nl ++ "" ++ nl ++ getHttpDate w ++ nl ++
        "/" ++ bucket ++ "/" ++ object /\
      tryGet this bucket object query w
      = curl_get (getEndpoint bucket object query)
          (spec_get_headers this bucket object w) w) /\
  (forall (path : string) (payload : list byte) (w : W)
          (bucket object : string) (pos : nat),
      split path = Value (Some pos) ->
      getBucket path = Value bucket ->
      getObject path = Value object ->
      getStringToSign "PUT" path (getHttpDate w) "application/octet-stream"
      = "PUT" ++ nl ++ nl ++ "application/octet-stream" ++ nl ++
        getHttpDate w ++ nl ++ "/" ++ bucket ++ "/" ++ object /\
      tryPut this path payload w
      = (let '(res, w') :=
           curl_put ("http://" ++ bucket ++ baseUrl ++ object)
             (spec_put_headers this bucket object w) payload w in
         Returned res w')) /\
  (forall (path : string) (w : W),
      httpPutHeaders this path w
      = ["Content-Type: application/octet-stream";
         "Date: " ++ getHttpDate w;
         authorization this
           (canonical "PUT" "application/octet-stream" (getHttpDate w)
              ("/" ++ path));
         "Transfer-Encoding:";
         "Expect:"]).
Proof.
  split; [|split].
  - intros bucket object query w. split; reflexivity.
  - intros path payload w bucket object pos Hs Hb Ho.
    pose proof (path_is_bucket_object path bucket object pos Hs Hb Ho) as Hp.
    split.
    + unfold getStringToSign. now rewrite Hp at 1.
    + unfold tryPut. rewrite Hb, Ho.
      replace (httpPutHeaders this path w)
        with (spec_put_headers this bucket object w); [reflexivity|].
      unfold spec_put_headers, httpPutHeaders, getSignedEncodedString,
        getStringToSign, authorization, canonical.
      now rewrite Hp at 1.
  - intros path w. reflexivity.
Qed.

End Signing.

Lemma requests_sign_bucket_and_object_witness :
  getStringToSign "PUT" "bucket/dir/o" Echo.date "application/octet-stream"
  = "PUT" ++ nl ++ nl ++ "application/octet-stream" ++ nl ++
    Echo.date ++ nl ++ "/" ++ "bucket" ++ "/" ++ "dir/o" /\
  tryPut (host := Echo.host) Echo.this "bucket/dir/o" [x01] tt
  = (let '(res, w') :=
       curl_put (Host := Echo.host) ("http://" ++ "bucket" ++ baseUrl ++ "dir/o")
         (spec_put_headers (host := Echo.host) Echo.this "bucket" "dir/o" tt)
         [x01] tt in
     Returned res w').
Proof.
  exact (proj1 (proj2 (requests_sign_bucket_and_object (host := Echo.host)
           Echo.this))
           "bucket/dir/o" [x01] tt "bucket" "dir/o" 6%nat
           eq_refl eq_refl eq_refl).
Defined.

(** The claim as stated fails for a PUT whose path names a bucket only:
    bucket "bucket" and object "" ask for the resource "/bucket/", and the
    headers sign "/bucket"; on the host that shows what was signed, the
    request sent differs from the one the claim describes. *)
Lemma put_bucket_only_counterexample :
  getBucket "bucket" = Value "bucket" /\
  getObject "bucket" = Value "" /\
  getStringToSign "PUT" "bucket" Echo.date "application/octet-stream"
  <> "PUT" ++ nl ++ nl ++ "application/octet-stream" ++ nl ++
     Echo.date ++ nl ++ "/" ++ "bucket" ++ "/" ++ "" /\
  httpPutHeaders (host := Echo.host) Echo.this "bucket" tt
  <> spec_put_headers (host := Echo.host) Echo.this "bucket" "" tt /\
  tryPut (host := Echo.host) Echo.this "bucket" [x01] tt
  <> (let '(res, w') :=
        curl_put (Host := Echo.host) ("http://" ++ "bucket" ++ baseUrl ++ "")
          (spec_put_headers (host := Echo.host) Echo.this "bucket" "" tt)
          [x01] tt in
      Returned res w').
Proof.
  split; [reflexivity|]. split; [reflexivity|]. split; [|split].
  - intros H. vm_compute in H. discriminate.
  - intros H. vm_compute in H. discriminate.
  - intros H. vm_compute in H. discriminate.
Qed.

End SigningFacts.

(** ** Base64 *)

Module Base64Facts.
Import S3 Base64Ref.

Local Open Scope nat_scope.

(** *** The loop over the full groups *)

Lemma string_set_app (a b : string) (i : nat) (c : ascii) :
  string_set (a ++ b) (length a + i) c = a ++ string_set b i c.
Proof.
  induction a as [|x a IH]; cbn [append length string_set Nat.add];
    [reflexivity | now rewrite IH].
Qed.

Lemma nth_app_at (l1 l2 : list Z) (i : nat) :
  nth (List.length l1 + i) (l1 ++ l2)%list 0%Z = nth i l2 0%Z.
Proof.
  rewrite app_nth2 by lia. f_equal. lia.
Qed.

Lemma chunk_at_app (l1 : list Z) (a b c : Z) (l2 : list Z) :
  chunk_at (l1 ++ a :: b :: c :: l2)%list (List.length l1) = chunk_of a b c.
Proof.
  unfold chunk_at, chunk_of.
  pose proof (nth_app_at l1 (a :: b :: c :: l2) 0) as H0.
  rewrite Nat.add_0_r in H0.
  now rewrite H0, !nth_app_at.
Qed.

Lemma string_fill_S4 (n : nat) :
  string_fill (4 * S n) "_" = "____" ++ string_fill (4 * n) "_".
Proof.
  replace (4 * S n)%nat with (S (S (S (S (4 * n))))) by lia. reflexivity.
Qed.

Lemma encode_loop_groups (steps : nat) :
  forall (l1 l2 : list Z) (done : string),
    (3 * steps <= List.length l2)%nat ->
    encode_loop steps (l1 ++ l2)%list (List.length l1)
      (List.length l1 + 3 * steps) (done ++ string_fill (4 * steps) "_")
      (length done)
    = ((List.length l1 + 3 * steps)%nat,
       done ++ encode_groups (firstn (3 * steps) l2)).
Proof.
  induction steps as [|steps IH]; intros l1 l2 done Hlen.
  - cbn [encode_loop Nat.mul]. rewrite Nat.add_0_r, Nat.eqb_refl.
    reflexivity.
  - cbn [encode_loop].
    destruct (Nat.eqb_spec (List.length l1) (List.length l1 + 3 * S steps));
      [lia|].
    destruct l2 as [|a [|b [|c l2]]]; cbn [List.length] in Hlen; try lia.
    rewrite chunk_at_app, string_fill_S4.
    replace (length done) with (length done + 0)%nat at 1 by lia.
    rewrite !string_set_app. cbn [append string_set].
    replace (List.length l1 + 3 * S steps)%nat
      with (List.length (l1 ++ [a; b; c]) + 3 * steps)%nat
      by (rewrite length_app; cbn [List.length]; lia).
    replace (List.length l1 + 3)%nat with (List.length (l1 ++ [a; b; c]))
      by (rewrite length_app; reflexivity).
    replace (l1 ++ a :: b :: c :: l2)%list with ((l1 ++ [a; b; c]) ++ l2)%list
      by (now rewrite <- app_assoc).
    set (q := quartet (chunk_of a b c)).
    replace (length done + 4)%nat with (length (done ++ q))
      by (rewrite length_append; reflexivity).
    change (done ++ String (vals_at (Z.land (Z.shiftr (chunk_of a b c) 18) mask))
              (String (vals_at (Z.land (Z.shiftr (chunk_of a b c) 12) mask))
                 (String (vals_at (Z.land (Z.shiftr (chunk_of a b c) 6) mask))
                    (String (vals_at (Z.land (chunk_of a b c) mask))
                       (string_fill (4 * steps) "_")))))
      with (done ++ q ++ string_fill (4 * steps) "_").
    rewrite <- append_assoc.
    rewrite (IH (l1 ++ [a; b; c])%list l2 (done ++ q)) by lia.
    replace (3 * S steps)%nat with (S (S (S (3 * steps)))) by lia.
    cbn [firstn encode_groups]. fold q. now rewrite append_assoc.
Qed.

Lemma encode_loop_full (fullSteps : nat) (input : list Z) :
  (fullSteps * 3 <= List.length input)%nat ->
  encode_loop fullSteps input 0 (fullSteps * 3)
    (string_fill (fullSteps * 4) "_") 0
  = ((fullSteps * 3)%nat, encode_groups (firstn (fullSteps * 3) input)).
Proof.
  intros H.
  pose proof (encode_loop_groups fullSteps [] input "" ltac:(lia)) as E.
  cbn [app List.length append length Nat.add] in E.
  now rewrite !(Nat.mul_comm fullSteps).
Qed.

Lemma encode_groups_app (full rest : list Z) (n : nat) :
  List.length full = (3 * n)%nat ->
  encode_groups (full ++ rest) = encode_groups full ++ encode_groups rest.
Proof.
  revert full. induction n as [|n IH]; intros full H.
  - destruct full; [reflexivity | discriminate].
  - destruct full as [|a [|b [|c full]]]; cbn [List.length] in H; try lia.
    cbn [app encode_groups]. rewrite (IH full) by lia.
    now rewrite append_assoc.
Qed.

Lemma encode_groups_length (full : list Z) (n : nat) :
  List.length full = (3 * n)%nat ->
  length (encode_groups full) = (4 * n)%nat.
Proof.
  revert full. induction n as [|n IH]; intros full H.
  - destruct full; [reflexivity | discriminate].
  - destruct full as [|a [|b [|c full]]]; cbn [List.length] in H; try lia.
    cbn [encode_groups]. rewrite length_append, (IH full) by lia.
    cbn [quartet triplet append length]. lia.
Qed.

Lemma div3 (n k : nat) : (k < 3)%nat -> ((3 * n + k) / 3 = n)%nat.
Proof.
  intros H. symmetry. apply (Nat.div_unique _ 3 n k); lia.
Qed.

Lemma mod3 (n k : nat) : (k < 3)%nat -> ((3 * n + k) mod 3 = k)%nat.
Proof.
  intros H. symmetry. apply (Nat.mod_unique _ 3 n k); lia.
Qed.

Lemma mod4 (n k : nat) : (k < 4)%nat -> ((4 * n + k) mod 4 = k)%nat.
Proof.
  intros H. symmetry. apply (Nat.mod_unique _ 4 n k); lia.
Qed.

Lemma pad_input_0 (l : list Z) :
  (List.length l mod 3 = 0)%nat -> pad_input 3 l = l.
Proof.
  intros H. cbn [pad_input]. now rewrite H.
Qed.

Lemma pad_input_2 (l : list Z) :
  (List.length l mod 3 = 2)%nat -> pad_input 3 l = (l ++ [0%Z])%list.
Proof.
  intros H. cbn [pad_input]. rewrite H. cbn [Nat.eqb].
  rewrite length_app. cbn [List.length].
  pose proof (Nat.div_mod_eq (List.length l) 3) as E. rewrite H in E.
  replace (List.length l + 1)%nat with (3 * S (List.length l / 3) + 0)%nat
    by lia.
  now rewrite (mod3 _ 0 ltac:(lia)).
Qed.

Lemma pad_input_1 (l : list Z) :
  (List.length l mod 3 = 1)%nat -> pad_input 3 l = (l ++ [0%Z; 0%Z])%list.
Proof.
  intros H. cbn [pad_input]. rewrite H. cbn [Nat.eqb].
  pose proof (Nat.div_mod_eq (List.length l) 3) as E. rewrite H in E.
  assert (H2 : (List.length (l ++ [0%Z]) mod 3 = 2)%nat).
  { rewrite length_app. cbn [List.length].
    replace (List.length l + 1)%nat with (3 * (List.length l / 3) + 2)%nat
      by lia.
    apply mod3. lia. }
  rewrite H2. cbn [Nat.eqb].
  assert (H0 : (List.length ((l ++ [0%Z]) ++ [0%Z]) mod 3 = 0)%nat).
  { rewrite !length_app. cbn [List.length].
    replace (List.length l + 1 + 1)%nat
      with (3 * S (List.length l / 3) + 0)%nat by lia.
    apply mod3. lia. }
  rewrite H0. cbn [Nat.eqb]. now rewrite <- app_assoc.
Qed.

Lemma pad_output_0 (s : string) :
  (length s mod 4 = 0)%nat -> pad_output 4 s = s.
Proof.
  intros H. cbn [pad_output]. now rewrite H.
Qed.

Lemma pad_output_3 (s : string) :
  (length s mod 4 = 3)%nat -> pad_output 4 s = s ++ "=".
Proof.
  intros H. cbn [pad_output]. rewrite H. cbn [Nat.eqb].
  rewrite length_append. cbn [length].
  pose proof (Nat.div_mod_eq (length s) 4) as E. rewrite H in E.
  replace (length s + 1)%nat with (4 * S (length s / 4) + 0)%nat by lia.
  now rewrite (mod4 _ 0 ltac:(lia)).
Qed.

(** [encodeBase64] on an input of [n] full groups and a last group. *)
Lemma encodeBase64_shape (data : list byte) (full tail : list Z) (n : nat) :
  map uint8_of_char data = (full ++ tail)%list ->
  List.length full = (3 * n)%nat ->
  (List.length tail < 3)%nat ->
  encodeBase64 data = encode_groups (full ++ tail).
Proof.
  intros Hmap Hfull Htail. unfold encodeBase64. rewrite Hmap.
  assert (Hlen : List.length (full ++ tail) = (3 * n + List.length tail)%nat).
  { rewrite length_app. lia. }
  rewrite Hlen, (div3 n _ Htail).
  pose proof (encode_groups_length full n Hfull) as Hglen.
  destruct tail as [|a [|b [|c tail]]]; cbn [List.length] in *; try lia.
  - rewrite pad_input_0 by (rewrite Hlen; apply mod3; lia).
    rewrite encode_loop_full by (rewrite Hlen; lia).
    rewrite Hlen, (Nat.mul_comm n 3), Nat.add_0_r, Nat.eqb_refl. cbn [negb].
    rewrite app_nil_r, <- Hfull, firstn_all.
    apply pad_output_0. rewrite Hglen.
    replace (4 * n)%nat with (4 * n + 0)%nat by lia. apply mod4. lia.
  - rewrite pad_input_1 by (rewrite Hlen; apply mod3; lia).
    rewrite <- app_assoc. cbn [app].
    rewrite encode_loop_full by (rewrite length_app; cbn [List.length]; lia).
    rewrite length_app. cbn [List.length].
    rewrite (Nat.mul_comm n 3).
    destruct (Nat.eqb_spec (3 * n) (List.length full + 3)); [lia|].
    cbn [negb]. rewrite Z.sub_diag. cbn [Z.eqb Nat.eqb].
    rewrite <- Hfull, firstn_app, firstn_all, Nat.sub_diag.
    cbn [firstn]. rewrite app_nil_r, chunk_at_app.
    rewrite (encode_groups_app full [a] n Hfull).
    cbn [encode_groups].
    rewrite pad_output_3.
    + unfold push_back, triplet. now rewrite !append_assoc.
    + unfold push_back. rewrite !length_append, Hglen. cbn [length].
      replace (4 * n + 1 + 1 + 1)%nat with (4 * n + 3)%nat by lia.
      apply mod4. lia.
  - rewrite pad_input_2 by (rewrite Hlen; apply mod3; lia).
    rewrite <- app_assoc. cbn [app].
    rewrite encode_loop_full by (rewrite length_app; cbn [List.length]; lia).
    rewrite length_app. cbn [List.length].
    rewrite (Nat.mul_comm n 3).
    destruct (Nat.eqb_spec (3 * n) (List.length full + 3)); [lia|].
    cbn [negb]. rewrite Z.sub_diag. cbn [Z.eqb Nat.eqb].
    rewrite <- Hfull, firstn_app, firstn_all, Nat.sub_diag.
    cbn [firstn]. rewrite app_nil_r, chunk_at_app.
    rewrite (encode_groups_app full [a; b] n Hfull).
    cbn [encode_groups].
    rewrite pad_output_3.
    + unfold push_back, triplet. now rewrite !append_assoc.
    + unfold push_back. rewrite !length_append, Hglen. cbn [length].
      replace (4 * n + 1 + 1 + 1)%nat with (4 * n + 3)%nat by lia.
      apply mod4. lia.
Qed.

Lemma encodeBase64_groups (data : list byte) :
  encodeBase64 data
  = encode_groups (map uint8_of_char data).
Proof.
  set (input := map uint8_of_char data).
  pose proof (Nat.div_mod_eq (List.length input) 3) as Hdm.
  pose proof (Nat.mod_upper_bound (List.length input) 3 ltac:(lia)) as Hr.
  rewrite <- (firstn_skipn (3 * (List.length input / 3)) input).
  apply (encodeBase64_shape data _ _ (List.length input / 3)).
  - now rewrite firstn_skipn.
  - rewrite length_firstn. lia.
  - rewrite length_skipn. lia.
Qed.

Local Open Scope Z_scope.

(** *** Bytes and sextets *)

Local Abbreviation zb := uint8_of_char.

Lemma zb_range (c : byte) : 0 <= zb c < 256.
Proof.
  unfold uint8_of_char. pose proof (Byte.to_N_bounded c). lia.
Qed.

Lemma byte_of_Z_mod (z : Z) (c : byte) : z mod 256 = zb c -> byte_of_Z z = c.
Proof.
  intros H. unfold byte_of_Z. rewrite H. unfold uint8_of_char.
  now rewrite N2Z.id, Byte.of_to_N.
Qed.

Lemma lor_shiftl_small (a b k : Z) :
  0 <= k -> 0 <= b < 2 ^ k -> Z.lor (Z.shiftl a k) b = a * 2 ^ k + b.
Proof.
  intros Hk Hb.
  assert (Hland : Z.land (Z.shiftl a k) b = 0).
  { apply Z.bits_inj'. intros n Hn. rewrite Z.land_spec, Z.bits_0.
    destruct (Z.lt_ge_cases n k) as [Hlt|Hge].
    - now rewrite Z.shiftl_spec_low.
    - destruct (Z.eq_dec b 0) as [->|Hb0].
      + now rewrite Z.bits_0, andb_false_r.
      + rewrite (Z.bits_above_log2 b n), andb_false_r; [reflexivity | lia |].
        apply Z.lt_le_trans with k; [|exact Hge].
        apply Z.log2_lt_pow2; lia. }
  rewrite <- Z.lxor_lor by exact Hland.
  rewrite <- Z.add_nocarry_lxor by exact Hland.
  now rewrite Z.shiftl_mul_pow2.
Qed.

Lemma chunk_of_bytes (a b c : Z) :
  0 <= a < 256 -> 0 <= b < 256 -> 0 <= c < 256 ->
  chunk_of a b c = a * 65536 + b * 256 + c.
Proof.
  intros Ha Hb Hc. unfold chunk_of, uint32.
  rewrite (Z.shiftl_mul_pow2 b 8) by lia.
  rewrite (lor_shiftl_small a (b * 2 ^ 8) 16) by lia.
  replace (a * 2 ^ 16 + b * 2 ^ 8) with ((a * 256 + b) * 2 ^ 8) by lia.
  rewrite <- (Z.shiftl_mul_pow2 (a * 256 + b) 8) by lia.
  rewrite (lor_shiftl_small (a * 256 + b) c 8) by lia.
  rewrite Z.mod_small; lia.
Qed.

Lemma sextet_shift (chunk k : Z) :
  0 <= k -> Z.land (Z.shiftr chunk k) mask = (chunk / 2 ^ k) mod 64.
Proof.
  intros Hk. change mask with (Z.ones 6).
  rewrite Z.land_ones by lia. now rewrite Z.shiftr_div_pow2.
Qed.

Lemma sextet_low (chunk : Z) : Z.land chunk mask = chunk mod 64.
Proof.
  change mask with (Z.ones 6). now rewrite Z.land_ones by lia.
Qed.

(** Every sextet value has its own character, which is not the pad. *)
Lemma vals_at_sextet (i : Z) :
  0 <= i < 64 ->
  sextet (vals_at i) = Some i /\ Ascii.eqb (vals_at i) "=" = false.
Proof.
  intros Hi.
  assert (H : forall n : nat,
             (n < 64)%nat ->
             sextet (vals_at (Z.of_nat n)) = Some (Z.of_nat n) /\
             Ascii.eqb (vals_at (Z.of_nat n)) "=" = false).
  { intros n Hn.
    do 64 (destruct n as [|n]; [split; vm_compute; reflexivity|]). lia. }
  specialize (H (Z.to_nat i) ltac:(lia)).
  now rewrite Z2Nat.id in H by lia.
Qed.

(** *** Decoding the groups *)

Lemma decode_quartet (a b c : byte) :
  let chunk := chunk_of (zb a) (zb b) (zb c) in
  decode3 (vals_at (Z.land (Z.shiftr chunk 18) mask))
          (vals_at (Z.land (Z.shiftr chunk 12) mask))
          (vals_at (Z.land (Z.shiftr chunk 6) mask))
          (vals_at (Z.land chunk mask))
  = Some [a; b; c].
Proof.
  cbv zeta. pose proof (zb_range a). pose proof (zb_range b).
  pose proof (zb_range c).
  rewrite chunk_of_bytes by lia.
  rewrite !sextet_shift, sextet_low by lia.
  set (ch := zb a * 65536 + zb b * 256 + zb c).
  assert (Hch : 0 <= ch < 2 ^ 24) by (subst ch; lia).
  unfold decode3.
  rewrite !(proj1 (vals_at_sextet _ (Z.mod_pos_bound _ 64 eq_refl))).
  replace (ch / 2 ^ 18 mod 64 * 262144 + ch / 2 ^ 12 mod 64 * 4096 +
           ch / 2 ^ 6 mod 64 * 64 + ch mod 64) with ch
    by (change (2 ^ 18) with 262144; change (2 ^ 12) with 4096;
        change (2 ^ 6) with 64; change (2 ^ 24) with 16777216 in Hch;
        Z.div_mod_to_equations; lia).
  f_equal. f_equal; [|f_equal; [|f_equal]]; apply byte_of_Z_mod; subst ch;
    Z.div_mod_to_equations; lia.
Qed.

Lemma decode_triplet_2 (a b : byte) :
  let chunk := chunk_of (zb a) (zb b) 0 in
  decode2 (vals_at (Z.land (Z.shiftr chunk 18) mask))
          (vals_at (Z.land (Z.shiftr chunk 12) mask))
          (vals_at (Z.land (Z.shiftr chunk 6) mask))
  = Some [a; b].
Proof.
  cbv zeta. pose proof (zb_range a). pose proof (zb_range b).
  rewrite chunk_of_bytes by lia.
  rewrite !sextet_shift by lia.
  set (ch := zb a * 65536 + zb b * 256 + 0).
  assert (Hch : 0 <= ch < 2 ^ 24) by (subst ch; lia).
  unfold decode2.
  rewrite !(proj1 (vals_at_sextet _ (Z.mod_pos_bound _ 64 eq_refl))).
  replace (ch / 2 ^ 18 mod 64 * 262144 + ch / 2 ^ 12 mod 64 * 4096 +
           ch / 2 ^ 6 mod 64 * 64) with ch
    by (change (2 ^ 18) with 262144; change (2 ^ 12) with 4096;
        change (2 ^ 6) with 64; change (2 ^ 24) with 16777216 in Hch;
        subst ch; Z.div_mod_to_equations; lia).
  f_equal. f_equal; [|f_equal]; apply byte_of_Z_mod; subst ch;
    Z.div_mod_to_equations; lia.
Qed.

(** One byte: the third character is computed too, and decodes. *)
Lemma decode_triplet_1 (a : byte) :
  let chunk := chunk_of (zb a) 0 0 in
  decode2 (vals_at (Z.land (Z.shiftr chunk 18) mask))
          (vals_at (Z.land (Z.shiftr chunk 12) mask))
          (vals_at (Z.land (Z.shiftr chunk 6) mask))
  = Some [a; x00].
Proof.
  exact (decode_triplet_2 a x00).
Qed.

Lemma triplet_third_not_pad (chunk : Z) :
  Ascii.eqb (vals_at (Z.land (Z.shiftr chunk 6) mask)) "=" = false.
Proof.
  rewrite sextet_shift by lia.
  apply (vals_at_sextet _ (Z.mod_pos_bound _ 64 eq_refl)).
Qed.

Lemma quartet_fourth_not_pad (chunk : Z) :
  Ascii.eqb (vals_at (Z.land chunk mask)) "=" = false.
Proof.
  rewrite sextet_low.
  apply (vals_at_sextet _ (Z.mod_pos_bound _ 64 eq_refl)).
Qed.

Lemma encode_groups_nonempty (x : Z) (l : list Z) :
  exists c s, encode_groups (x :: l) = String c s.
Proof.
  destruct l as [|y [|z l]]; cbn [encode_groups quartet triplet append];
    eexists; eexists; reflexivity.
Qed.

Lemma decode_more (a b c d : ascii) (rest : string) :
  rest <> "" ->
  decode (String a (String b (String c (String d rest))))
  = match decode3 a b c d, decode rest with
    | Some x, Some y => Some (x ++ y)%list
    | _, _ => None
    end.
Proof.
  destruct rest; [contradiction | reflexivity].
Qed.

Lemma mod3_SSS (k : nat) : (S (S (S k)) mod 3 = k mod 3)%nat.
Proof.
  replace (S (S (S k))) with (k + 1 * 3)%nat by lia.
  apply Nat.Div0.mod_add.
Qed.

(** The reference decoder on the output, group by group. *)
Lemma decode_encode_groups (n : nat) :
  forall data : list byte,
    (List.length data <= n)%nat ->
    decode (encode_groups (map zb data))
    = Some (data ++ (if (List.length data mod 3 =? 1)%nat then [x00] else []))%list.
Proof.
  induction n as [|n IH]; intros data Hlen.
  - destruct data; [reflexivity | cbn in Hlen; lia].
  - destruct data as [|a [|b [|c rest]]].
    + reflexivity.
    + cbn [map encode_groups triplet append decode].
      rewrite triplet_third_not_pad. cbn [Ascii.eqb Bool.eqb].
      change (Ascii.eqb "=" "=") with true. cbv iota.
      exact (decode_triplet_1 a).
    + cbn [map encode_groups triplet append decode].
      rewrite triplet_third_not_pad. cbn [Ascii.eqb Bool.eqb].
      change (Ascii.eqb "=" "=") with true. cbv iota.
      rewrite (decode_triplet_2 a b). reflexivity.
    + cbn [map encode_groups quartet triplet append].
      cbn [List.length] in *. rewrite mod3_SSS.
      destruct rest as [|d rest].
      * cbn [map encode_groups decode].
        rewrite quartet_fourth_not_pad.
        exact (decode_quartet a b c).
      * rewrite decode_more.
        2:{ destruct (encode_groups_nonempty (zb d) (map zb rest))
              as (x & s & E).
            cbn [map]. rewrite E. discriminate. }
        rewrite (decode_quartet a b c).
        rewrite (IH (d :: rest)) by (cbn [List.length] in *; lia).
        reflexivity.
Qed.

Lemma encode_groups_length_mod4 (n : nat) :
  forall input : list Z,
    (List.length input <= n)%nat ->
    exists k, length (encode_groups input) = (4 * k)%nat.
Proof.
  induction n as [|n IH]; intros input Hlen.
  - destruct input; [now exists 0%nat | cbn in Hlen; lia].
  - destruct input as [|a [|b [|c rest]]].
    + now exists 0%nat.
    + now exists 1%nat.
    + now exists 1%nat.
    + destruct (IH rest ltac:(cbn [List.length] in Hlen; lia)) as [k Hk].
      exists (S k). cbn [encode_groups quartet triplet append length].
      rewrite Hk. lia.
Qed.

Lemma decode_encodeBase64 (data : list byte) :
  decode (encodeBase64 data)
  = Some (data ++
          (if (List.length data mod 3 =? 1)%nat then [x00] else []))%list.
Proof.
  rewrite encodeBase64_groups.
  exact (decode_encode_groups (List.length data) data (le_n _)).
Qed.

Lemma encode_groups_length_exact (n : nat) :
  forall input : list Z,
    (List.length input <= n)%nat ->
    length (encode_groups input) = (4 * ((List.length input + 2) / 3))%nat.
Proof.
  induction n as [|n IH]; intros input Hlen.
  - destruct input; [reflexivity | cbn in Hlen; lia].
  - destruct input as [|a [|b [|c rest]]]; try reflexivity.
    cbn [encode_groups quartet triplet append length List.length] in *.
    rewrite (IH rest) by lia.
    replace (S (S (S (List.length rest))) + 2)%nat
      with (List.length rest + 2 + 1 * 3)%nat by lia.
    rewrite Nat.div_add by lia. lia.
Qed.

(** C1. The output of [encodeBase64] has a length that is a multiple of 4,
    and the standard decoder yields the input back when its length is 0 or
    2 modulo 3. When it is 1 modulo 3 the decoder yields the input followed
    by a zero byte: the last group is written with three characters and one
    pad ("TQA=" for the byte "M") where base64 has two characters and two
    pads ("TQ=="), so the round trip of the specification fails there. *)
Theorem encodeBase64_round_trip :
  (forall data : list byte, (length (encodeBase64 data) mod 4 = 0)%nat) /\
  (forall data : list byte,
      decode (encodeBase64 data)
      = Some (data ++
              (if (List.length data mod 3 =? 1)%nat then [x00] else []))%list) /\
  (forall data : list byte,
      (List.length data mod 3)%nat <> 1%nat ->
      decode (encodeBase64 data) = Some data) /\
  (encodeBase64 [x4d] = "TQA=" /\
   decode (encodeBase64 [x4d]) = Some [x4d; x00] /\
   decode "TQ==" = Some [x4d]).
Proof.
  pose proof decode_encodeBase64 as Hdec.
  split; [|split; [|split]].
  - intros data. rewrite encodeBase64_groups.
    destruct (encode_groups_length_mod4 _ (map zb data) (le_n _)) as [k ->].
    replace (4 * k)%nat with (4 * k + 0)%nat by lia. apply mod4. lia.
  - exact Hdec.
  - intros data Hmod. rewrite Hdec.
    destruct (Nat.eqb_spec (List.length data mod 3) 1); [contradiction|].
    now rewrite app_nil_r.
  - split; [reflexivity|]. split; [|reflexivity].
    exact (Hdec [x4d]).
Qed.

(** *** The signature of a request *)

Section Signature.
Context {W : Type} {host : Host W}.
Variable this : S3Driver.

Lemma signString_length (input : string) :
  List.length (signString this input) = 20%nat.
Proof.
  unfold signString.
  rewrite length_app, length_firstn, length_skipn, repeat_length. lia.
Qed.

(** X2. The signature of a request is the base64 of a 20-byte digest: it
    has 28 characters and the standard decoder yields the digest back. *)
Theorem signature_decodes (command file httpDate contentType : string) :
  let toSign := getStringToSign command file httpDate contentType in
  decode (getSignedEncodedString this command file httpDate contentType)
  = Some (signString this toSign) /\
  List.length (signString this toSign) = 20%nat /\
  length (getSignedEncodedString this command file httpDate contentType)
  = 28%nat.
Proof.
  cbv zeta. unfold getSignedEncodedString.
  set (digest := signString this _).
  pose proof (signString_length (getStringToSign command file httpDate contentType))
    as Hlen. fold digest in Hlen.
  split; [|split].
  - rewrite decode_encodeBase64, Hlen. cbn. now rewrite app_nil_r.
  - exact Hlen.
  - rewrite encodeBase64_groups.
    rewrite (encode_groups_length_exact _ _ (le_n _)).
    rewrite length_map, Hlen. reflexivity.
Qed.

End Signature.

End Base64Facts.

(** ** Extensions, and the scheme of a path with a delimiter *)

Module PathFacts.
Import Arbiter ArbiterFacts.

Lemma substring_split (s : string) :
  forall n a b,
    substring n (a + b) s = substring n a s ++ substring (n + a) b s.
Proof.
  induction s as [|c s IH]; intros n a b.
  - destruct n, a, b; reflexivity.
  - destruct n as [|n].
    + destruct a as [|a]; [reflexivity|].
      cbn [Nat.add substring append]. f_equal.
      exact (IH 0 a b).
    + cbn [Nat.add substring]. apply IH.
Qed.

(** A string is its first [n] characters followed by the rest. *)
Lemma substring_cut (s : string) (n : nat) :
  n <= length s ->
  s = substring 0 n s ++ substring n (length s) s.
Proof.
  intros Hn.
  rewrite <- (substring_0_all s (n + length s)) at 1 by lia.
  apply (substring_split s 0 n (length s)).
Qed.

Lemma substring_length_le (s : string) :
  forall n m, n + length (substring n m s) <= Nat.max n (length s).
Proof.
  induction s as [|c s IH]; intros n m.
  - destruct n, m; simpl; lia.
  - destruct n as [|n].
    + destruct m as [|m]; simpl; [lia|]. specialize (IH 0 m). simpl in IH. lia.
    + cbn [substring length]. specialize (IH n m). lia.
Qed.

Lemma substring_0_length (s : string) :
  forall n, n <= length s -> length (substring 0 n s) = n.
Proof.
  induction s as [|c s IH]; intros n Hn.
  - destruct n; simpl in *; [reflexivity | lia].
  - destruct n as [|n]; [reflexivity|].
    cbn [substring length] in *. rewrite IH; lia.
Qed.

Lemma find_last_of_Some_split (c : ascii) (s : string) :
  forall pos,
    find_last_of s c = Some pos ->
    exists a b,
      s = a ++ String c b /\ length a = pos /\ find_last_of b c = None.
Proof.
  induction s as [|x s IH]; intros pos H; [discriminate|].
  cbn [find_last_of] in H. destruct (find_last_of s c) as [p|] eqn:E.
  - injection H as <-. destruct (IH p eq_refl) as (a & b & -> & Hl & Hb).
    exists (String x a), b. cbn [append length]. now rewrite Hl.
  - destruct (Ascii.eqb_spec x c) as [->|_]; [|discriminate].
    injection H as <-. now exists "", s.
Qed.

Lemma find_last_of_app (c : ascii) (a b : string) :
  find_last_of b c = None ->
  find_last_of (a ++ String c b) c = Some (length a).
Proof.
  intros Hb. induction a as [|x a IH]; cbn [append find_last_of length].
  - now rewrite Hb, Ascii.eqb_refl.
  - now rewrite IH.
Qed.

Lemma find_last_of_occurs (c : ascii) (a b : string) :
  find_last_of (a ++ String c b) c <> None.
Proof.
  induction a as [|x a IH]; cbn [append find_last_of].
  - destruct (find_last_of b c); [discriminate|].
    now rewrite Ascii.eqb_refl.
  - destruct (find_last_of (a ++ String c b) c); [discriminate | contradiction].
Qed.

Lemma find_last_of_None_iff (s : string) (c : ascii) :
  find_last_of s c = None <-> ~ occurs (String c "") s.
Proof.
  split.
  - intros H [a [b ->]]. revert H. apply find_last_of_occurs.
  - intros H. destruct (find_last_of s c) as [pos|] eqn:E; [|reflexivity].
    exfalso. apply H.
    destruct (find_last_of_Some_split c s pos E) as (a & b & -> & _ & _).
    now exists a, b.
Qed.

Lemma extension_cut (base ext : string) :
  ~ occurs "." ext ->
  getExtension (base ++ "." ++ ext) = ext /\
  stripExtension (base ++ "." ++ ext) = base.
Proof.
  intros He. apply find_last_of_None_iff in He.
  unfold getExtension, stripExtension.
  change ("." ++ ext) with (String "." ext).
  rewrite (find_last_of_app "." base ext He). split.
  - change (String "." ext) with ("." ++ ext).
    rewrite <- append_assoc.
    replace (length base + 1) with (length (base ++ ".")).
    + apply substr_skip_app.
    + rewrite length_append. reflexivity.
  - apply substr_take_app.
Qed.

Lemma extension_none (path : string) :
  ~ occurs "." path -> getExtension path = "" /\ stripExtension path = path.
Proof.
  intros Hp. apply find_last_of_None_iff in Hp.
  unfold getExtension, stripExtension. rewrite Hp. split; [reflexivity|].
  unfold substr. apply substring_0_all. lia.
Qed.

(** X3. [getExtension] and [stripExtension] cut a path at its last dot,
    wherever that dot is: for [ext] without a dot the extension of
    [base ++ "." ++ ext] is [ext] and stripping gives [base]; a path without
    a dot has the empty extension and is left unchanged; and a path with a
    dot is [stripExtension], a dot and [getExtension], the latter without a
    dot. *)
Theorem extension_at_last_dot :
  (forall base ext : string,
      ~ occurs "." ext ->
      getExtension (base ++ "." ++ ext) = ext /\
      stripExtension (base ++ "." ++ ext) = base) /\
  (forall path : string,
      ~ occurs "." path ->
      getExtension path = "" /\ stripExtension path = path) /\
  (forall path : string,
      occurs "." path ->
      path = stripExtension path ++ "." ++ getExtension path /\
      ~ occurs "." (getExtension path)).
Proof.
  split; [exact extension_cut | split; [exact extension_none|]].
  intros path Hp.
  destruct (find_last_of path ".") as [pos|] eqn:E.
  - destruct (find_last_of_Some_split "." path pos E)
      as (a & b & -> & _ & Hb).
    apply find_last_of_None_iff in Hb.
    change (String "." b) with ("." ++ b).
    destruct (extension_cut a b Hb) as [-> ->]. split; [reflexivity | exact Hb].
  - apply find_last_of_None_iff in E. contradiction.
Qed.

Lemma extension_at_last_dot_witness :
  (getExtension ("s3://bucket/data" ++ "." ++ "laz") = "laz" /\
   stripExtension ("s3://bucket/data" ++ "." ++ "laz") = "s3://bucket/data") /\
  (getExtension ("dir" ++ "." ++ "v1/file") = "v1/file" /\
   stripExtension ("dir" ++ "." ++ "v1/file") = "dir") /\
  (getExtension "dir/file" = "" /\ stripExtension "dir/file" = "dir/file") /\
  ("a.tar.gz" = stripExtension "a.tar.gz" ++ "." ++ getExtension "a.tar.gz" /\
   ~ occurs "." (getExtension "a.tar.gz")).
Proof.
  split; [|split; [|split]].
  - apply (proj1 extension_at_last_dot).
    apply (find_last_of_None_iff "laz" "."). reflexivity.
  - apply (proj1 extension_at_last_dot).
    apply (find_last_of_None_iff "v1/file" "."). reflexivity.
  - apply (proj1 (proj2 extension_at_last_dot)).
    apply (find_last_of_None_iff "dir/file" "."). reflexivity.
  - apply (proj2 (proj2 extension_at_last_dot)).
    now exists "a", "tar.gz".
Defined.

(** The first occurrence of the delimiter cuts the path in three. *)
Lemma find_delimiter_cut (path : string) (pos : nat) :
  find path delimiter 0 = Some pos ->
  exists rest,
    path = substring 0 pos path ++ delimiter ++ rest /\
    length (substring 0 pos path) = pos.
Proof.
  unfold find. intros H.
  pose proof (index_correct1 0 pos delimiter path H) as H1.
  change (length delimiter) with 3 in H1.
  pose proof (substring_length_le path pos 3) as Hl.
  rewrite H1 in Hl. cbn [delimiter length] in Hl.
  assert (Hpos : pos + 3 <= length path) by lia.
  exists (substring (pos + 3) (length path) path).
  pose proof (substring_cut path pos ltac:(lia)) as Hc.
  pose proof (substring_split path pos 3 (length path)) as Hs.
  rewrite H1 in Hs.
  assert (Htail : substring pos (length path) path
                  = substring pos (3 + length path) path).
  { pose proof (substring_split path pos (length path) 3) as Hs'.
    replace (length path + 3) with (3 + length path) in Hs' by lia.
    rewrite Hs'.
    assert (Hnil : substring (pos + length path) 3 path = "").
    { pose proof (substring_length_le path (pos + length path) 3).
      destruct (substring (pos + length path) 3 path); [reflexivity|].
      cbn [length] in *. lia. }
    now rewrite Hnil, append_nil_r. }
  split.
  - rewrite <- Hs, <- Htail. exact Hc.
  - apply substring_0_length. lia.
Qed.

Lemma getType_no_delimiter (path : string) :
  ~ occurs delimiter (getType path).
Proof.
  assert (Hd : delimiter <> "") by discriminate.
  unfold getType. destruct (find path delimiter 0) as [pos|] eqn:E.
  - destruct (find_delimiter_cut path pos E) as (rest & Hp & Hl).
    change (substr path 0 (Some pos)) with (substring 0 pos path).
    intros [a [b Hab]].
    unfold find in E.
    apply (index_correct2 0 pos delimiter path E (length a)); [lia | |].
    + rewrite <- Hl, Hab, !length_append. cbn [delimiter length]. lia.
    + rewrite Hp, Hab. rewrite !append_assoc.
      replace (length a) with (length a + 0) at 1 by lia.
      rewrite substring_skip_app. apply substring_0_app.
  - apply (index_None_iff delimiter "file" Hd). reflexivity.
Qed.

Lemma type_and_remainder (path : string) (pos : nat) :
  find path delimiter 0 = Some pos ->
  path = getType path ++ delimiter ++ stripType path.
Proof.
  intros E. destruct (find_delimiter_cut path pos E) as (rest & Hp & Hl).
  unfold getType, stripType. rewrite E.
  change (substr path 0 (Some pos)) with (substring 0 pos path).
  remember (substring 0 pos path) as t eqn:Et.
  assert (Hs : substr path (pos + length delimiter) None = rest).
  { rewrite Hp, <- Hl, <- append_assoc, <- length_append.
    apply substr_skip_app. }
  rewrite Hs. exact Hp.
Qed.

(** X4. A path with an occurrence of "://" is its type, the delimiter and
    its remainder, and the type has no occurrence of the delimiter: the
    path is cut at the first one. *)
Theorem type_delimiter_remainder (path : string) :
  occurs "://" path ->
  path = getType path ++ "://" ++ stripType path /\
  ~ occurs "://" (getType path).
Proof.
  assert (Hd : delimiter <> "") by discriminate.
  intros Ho. split; [|apply getType_no_delimiter].
  destruct (find path delimiter 0) as [pos|] eqn:E.
  - exact (type_and_remainder path pos E).
  - unfold find in E. apply (index_None_iff delimiter path Hd) in E.
    contradiction.
Qed.

Lemma type_delimiter_remainder_witness :
  "http://host/a://b" = getType "http://host/a://b" ++ "://" ++
                        stripType "http://host/a://b" /\
  ~ occurs "://" (getType "http://host/a://b").
Proof.
  apply type_delimiter_remainder. now exists "http", "host/a://b".
Defined.

End PathFacts.

(** ** The driver registry and the dispatch on the type of a path *)

Module RegistryFacts.
Import Arbiter ArbiterFacts PathFacts.

Lemma string_compare_eq (a b : string) : String.compare a b = Eq -> a = b.
Proof. apply String.compare_eq_iff. Qed.

Lemma string_compare_refl (a : string) : String.compare a a = Eq.
Proof.
  induction a as [|c a IH]; [reflexivity|].
  cbn [String.compare]. unfold Ascii.compare. now rewrite N.compare_refl.
Qed.

Section Registry.
Context {Driver : Type}.

Lemma drivers_at_set_same (type : string) (d : Driver)
    (m : list (string * Driver)) :
  drivers_at (drivers_set type d m) type = Some d.
Proof.
  induction m as [|[t d'] m IH]; cbn [drivers_set drivers_at].
  - now rewrite String.eqb_refl.
  - destruct (String.compare type t) eqn:E; cbn [drivers_at].
    + now rewrite String.eqb_refl.
    + now rewrite String.eqb_refl.
    + destruct (String.eqb_spec t type) as [->|_]; [|exact IH].
      rewrite string_compare_refl in E. discriminate.
Qed.

Lemma drivers_at_set_other (type other : string) (d : Driver)
    (m : list (string * Driver)) :
  other <> type ->
  drivers_at (drivers_set type d m) other = drivers_at m other.
Proof.
  intros Hne. induction m as [|[t d'] m IH]; cbn [drivers_set drivers_at].
  - destruct (String.eqb_spec type other); [congruence | reflexivity].
  - destruct (String.compare type t) eqn:E; cbn [drivers_at].
    + apply string_compare_eq in E. subst t.
      destruct (String.eqb_spec type other); [congruence | reflexivity].
    + destruct (String.eqb_spec type other); [congruence | reflexivity].
    + destruct (String.eqb t other); [reflexivity | exact IH].
Qed.

(** X5. [addDriver] refuses a null driver; a driver added under [type] is
    the one [getDriver] returns for every path [type://...] when [type] has
    no "://", and for every path without "://" when [type] is "file"; paths
    of another type are dispatched as before; and a driver added under a
    type that contains "://" is never dispatched to. *)
Theorem addDriver_then_getDriver (m_drivers : list (string * Driver))
    (type : string) (d : Driver) :
  addDriver m_drivers type None
  = inl (ArbiterError ("Cannot add empty driver for " ++ type)) /\
  exists m',
    addDriver m_drivers type (Some d) = inr m' /\
    (~ occurs "://" type ->
     forall rest,
       hasDriver m' (type ++ "://" ++ rest) = true /\
       getDriver m' (type ++ "://" ++ rest) = inr d) /\
    (type = "file" ->
     forall path,
       ~ occurs "://" path ->
       hasDriver m' path = true /\ getDriver m' path = inr d) /\
    (forall path,
       getType path <> type ->
       hasDriver m' path = hasDriver m_drivers path /\
       getDriver m' path = getDriver m_drivers path) /\
    (occurs "://" type ->
     forall path,
       hasDriver m' path = hasDriver m_drivers path /\
       getDriver m' path = getDriver m_drivers path).
Proof.
  assert (Hd : delimiter <> "") by discriminate.
  split; [reflexivity|].
  exists (drivers_set type d m_drivers). split; [reflexivity|].
  assert (Hother : forall path,
             getType path <> type ->
             hasDriver (drivers_set type d m_drivers) path
             = hasDriver m_drivers path /\
             getDriver (drivers_set type d m_drivers) path
             = getDriver m_drivers path).
  { intros path Hne. unfold hasDriver, getDriver.
    now rewrite (drivers_at_set_other type (getType path) d m_drivers Hne). }
  assert (Hsame : forall path,
             getType path = type ->
             hasDriver (drivers_set type d m_drivers) path = true /\
             getDriver (drivers_set type d m_drivers) path = inr d).
  { intros path <-. unfold hasDriver, getDriver.
    now rewrite drivers_at_set_same. }
  split; [|split; [|split]].
  - intros Hno rest. apply Hsame.
    apply (index_None_iff delimiter type Hd) in Hno.
    unfold getType. fold delimiter.
    rewrite (find_delimiter_app type rest Hno). apply substr_take_app.
  - intros -> path Hno. apply Hsame.
    apply (index_None_iff delimiter path Hd) in Hno.
    unfold getType, find. now rewrite Hno.
  - exact Hother.
  - intros Ho path. apply Hother. intros <-.
    exact (getType_no_delimiter path Ho).
Qed.

End Registry.
Lemma addDriver_then_getDriver_witness :
  exists m',
    addDriver MemEnv.drivers "s3" (Some "s3") = inr m' /\
    getDriver m' ("s3" ++ "://" ++ "bucket/key") = inr "s3" /\
    getDriver m' "test://x" = getDriver MemEnv.drivers "test://x" /\
    getDriver (drivers_set "a://b" "odd" MemEnv.drivers) "a://b://c"
    = getDriver MemEnv.drivers "a://b://c".
Proof.
  destruct (addDriver_then_getDriver MemEnv.drivers "s3" "s3")
    as (_ & m' & Hadd & Hsame & _ & Hother & _).
  exists m'. split; [exact Hadd|]. split; [|split].
  - apply Hsame.
    apply (index_None_iff delimiter "s3"); [discriminate | reflexivity].
  - apply Hother. discriminate.
  - destruct (addDriver_then_getDriver MemEnv.drivers "a://b" "odd")
      as (_ & m2 & Hadd2 & _ & _ & _ & Hnever).
    injection Hadd2 as <-. apply Hnever. now exists "a", "b".
Defined.

Section Dispatch.
Context {W Driver Endpoint : Type} {env : Env W Driver Endpoint}.
Variable m_drivers : list (string * Driver).

(** X6. The calls on a path are dispatched on its type. Without a driver
    for the type, [getBinary], [put], [resolve] and [getEndpoint] throw
    "No driver for" and the path, in the world of the call; with the driver
    [d] registered for [type], a path [type://rest] is handed to [d] as
    [rest], without the type. *)
Theorem dispatch_on_type (w : W) (data : list byte) (verbose : bool) :
  (forall path,
      hasDriver m_drivers path = false ->
      getBinary m_drivers path w
      = Threw (ArbiterError ("No driver for " ++ path)) w /\
      put m_drivers path data w
      = Threw (ArbiterError ("No driver for " ++ path)) w /\
      resolve m_drivers path verbose w
      = Threw (ArbiterError ("No driver for " ++ path)) w /\
      getEndpoint m_drivers path
      = inl (ArbiterError ("No driver for " ++ path))) /\
  (forall type rest d,
      ~ occurs "://" type ->
      drivers_at m_drivers type = Some d ->
      getBinary m_drivers (type ++ "://" ++ rest) w
      = driver_getBinary d rest w /\
      put m_drivers (type ++ "://" ++ rest) data w
      = driver_put d rest data w /\
      resolve m_drivers (type ++ "://" ++ rest) verbose w
      = driver_resolve d rest verbose w /\
      getEndpoint m_drivers (type ++ "://" ++ rest)
      = inr (Endpoint_new d rest)) /\
  (forall path d,
      ~ occurs "://" path ->
      drivers_at m_drivers "file" = Some d ->
      getBinary m_drivers path w = driver_getBinary d path w /\
      put m_drivers path data w = driver_put d path data w /\
      resolve m_drivers path verbose w = driver_resolve d path verbose w /\
      getEndpoint m_drivers path = inr (Endpoint_new d path)).
Proof.
  assert (Hd : delimiter <> "") by discriminate.
  split; [|split].
  - intros path H. unfold hasDriver in H.
    unfold getBinary, put, resolve, getEndpoint, getDriver.
    destruct (drivers_at m_drivers (getType path)); [discriminate|].
    repeat split.
  - intros type rest d Hno Hat.
    apply (index_None_iff delimiter type Hd) in Hno.
    pose proof (find_delimiter_app type rest Hno) as Hf.
    assert (Ht : getType (type ++ "://" ++ rest) = type).
    { unfold getType. fold delimiter. rewrite Hf. apply substr_take_app. }
    assert (Hs : stripType (type ++ "://" ++ rest) = rest).
    { unfold stripType. fold delimiter. rewrite Hf.
      rewrite <- append_assoc, <- length_append. apply substr_skip_app. }
    unfold getBinary, put, resolve, getEndpoint, getDriver.
    rewrite Ht, Hat, Hs. repeat split.
  - intros path d Hno Hat.
    apply (index_None_iff delimiter path Hd) in Hno.
    assert (Ht : getType path = "file").
    { unfold getType, find. now rewrite Hno. }
    assert (Hs : stripType path = path).
    { unfold stripType, find. now rewrite Hno. }
    unfold getBinary, put, resolve, getEndpoint, getDriver.
    rewrite Ht, Hat, Hs. repeat split.
Qed.

End Dispatch.

Lemma dispatch_on_type_witness :
  getBinary MemEnv.drivers "s3://bucket/key" MemEnv.world0
  = Threw (ArbiterError "No driver for s3://bucket/key") MemEnv.world0 /\
  getBinary MemEnv.drivers ("test" ++ "://" ++ "a/x") MemEnv.world0
  = MemEnv.fetch "test" "a/x" MemEnv.world0 /\
  getBinary MemEnv.drivers "a/x" MemEnv.world0
  = MemEnv.fetch "file" "a/x" MemEnv.world0.
Proof.
  pose proof (dispatch_on_type MemEnv.drivers MemEnv.world0 [] false)
    as (Hnone & Htype & Hfile).
  split; [|split].
  - apply (Hnone "s3://bucket/key"). reflexivity.
  - apply (Htype "test" "a/x" "test").
    + apply (index_None_iff delimiter "test"); [discriminate | reflexivity].
    + reflexivity.
  - apply (Hfile "a/x" "file").
    + apply (index_None_iff delimiter "a/x"); [discriminate | reflexivity].
    + reflexivity.
Defined.

End RegistryFacts.

(** ** The loops of copy *)

Module CopyFacts.
Import Arbiter ArbiterFacts.

Section Paths.
Context {W Driver Endpoint : Type} {env : Env W Driver Endpoint}.
Variable m_drivers : list (string * Driver).
Variables (commonPrefix : string) (dstEndpoint : Endpoint).
Variables (verbose : bool) (total : nat).

Local Abbreviation loop := (copy_paths m_drivers commonPrefix dstEndpoint verbose total).

(** X7. The loop of [copy] over the resolved paths handles them one after
    the other and stops at the first failure, in the world that the paths
    copied so far have left: copying [ps1 ++ ps2] is copying [ps1] and, when
    that returns, copying [ps2] from there. A path shorter than the common
    prefix throws [std::out_of_range] before anything is read for it, and a
    path [commonPrefix ++ sub] is read in full and written to the
    destination endpoint as [sub]. *)
Theorem copy_paths_in_sequence :
  (forall ps1 ps2 i w,
      loop (ps1 ++ ps2)%list i w
      = match loop ps1 i w with
        | Returned _ w' =>
            loop ps2 (if verbose then i + List.length ps1 else i) w'
        | Threw e w' => Threw e w'
        | Undefined => Undefined
        end) /\
  (forall path rest i w,
      length path < length commonPrefix ->
      loop (path :: rest) i w = Threw out_of_range w) /\
  (forall sub rest i w,
      verbose = false ->
      endpoint_isLocal dstEndpoint = false ->
      loop ((commonPrefix ++ sub) :: rest) i w
      = run data, w <- getBinary m_drivers (commonPrefix ++ sub) w ;;
        run _, w <- endpoint_put dstEndpoint sub data w ;;
        loop rest i w).
Proof.
  split; [|split].
  - induction ps1 as [|path ps1 IH]; intros ps2 i w.
    + cbn [app copy_paths List.length].
      replace (i + 0) with i by lia. now destruct verbose.
    + cbn [app copy_paths List.length].
      destruct (substr_out_of_range path (length commonPrefix));
        [reflexivity|].
      cbv zeta.
      destruct (if endpoint_isLocal dstEndpoint then mkdirp _ _ else _)
        as [b w1|e w1|]; cbn [bind]; [|reflexivity|reflexivity].
      destruct (getBinary m_drivers path w1) as [data w2|e w2|];
        cbn [bind]; [|reflexivity|reflexivity].
      destruct (endpoint_put dstEndpoint _ data w2) as [u w3|e w3|];
        cbn [bind]; [|reflexivity|reflexivity].
      rewrite IH. destruct verbose.
      * replace (S i + List.length ps1) with (i + S (List.length ps1)) by lia.
        reflexivity.
      * reflexivity.
  - intros path rest i w Hlt. cbn [copy_paths].
    unfold substr_out_of_range.
    destruct (Nat.ltb_spec (length path) (length commonPrefix)); [reflexivity | lia].
  - intros sub rest i w -> Hremote. cbn [copy_paths].
    unfold substr_out_of_range. rewrite length_append.
    destruct (Nat.ltb_spec (length commonPrefix + length sub)
                (length commonPrefix)); [lia|].
    rewrite Hremote, substr_skip_app. reflexivity.
Qed.

End Paths.

Lemma copy_paths_in_sequence_witness :
  copy_paths MemEnv.drivers "file://a/" ("test", "b/") false 2
    (["file://a/x"] ++ ["file://a/missing"])%list 0 MemEnv.world0
  = Threw (ArbiterError "Could not read a/missing")
      (("test://b/x", [x01]) :: MemEnv.world0) /\
  copy_paths MemEnv.drivers "file://a/" ("test", "b/") false 1
    ["file:"] 0 MemEnv.world0
  = Threw out_of_range MemEnv.world0 /\
  copy_paths MemEnv.drivers "file://a/" ("test", "b/") false 1
    [("file://a/" ++ "x")] 0 MemEnv.world0
  = Returned tt (("test://b/x", [x01]) :: MemEnv.world0).
Proof.
  pose proof (copy_paths_in_sequence MemEnv.drivers "file://a/" ("test", "b/")
                false) as H.
  split; [|split].
  - rewrite (proj1 (H 2)). reflexivity.
  - apply (proj1 (proj2 (H 1))). cbn. lia.
  - rewrite (proj2 (proj2 (H 1))); reflexivity.
Defined.

Section File.
Context {W Driver Endpoint : Type} {env : Env W Driver Endpoint}.
Variable m_drivers : list (string * Driver).

(** X8. A source that is neither a directory nor ends in '*' is copied by
    [copyFile]. [copyFile] throws on an empty destination and on a
    destination without a driver before anything is read or written; a
    source without a driver is found only after the directory of a local
    destination has been made, so the error leaves the world of [mkdirp]. *)
Theorem copy_single_file (verbose : bool) (w : W) :
  (forall src dst c,
      src <> "" -> dst <> "" ->
      isDirectory src = false -> back src = Some c -> c <> "*"%char ->
      copy m_drivers src dst verbose w = copyFile m_drivers src dst verbose w) /\
  (forall file,
      copyFile m_drivers file "" verbose w
      = Threw (ArbiterError "Cannot copy to empty destination") w) /\
  (forall file dst,
      dst <> "" -> hasDriver m_drivers dst = false ->
      copyFile m_drivers file dst verbose w
      = Threw (ArbiterError ("No driver for " ++ dst)) w) /\
  (forall file dst dstEndpoint made w',
      dst <> "" -> verbose = false ->
      getEndpoint m_drivers dst = inr dstEndpoint ->
      endpoint_isLocal dstEndpoint = true ->
      mkdirp (getNonBasename
                (if isDirectory dst then dst ++ getBasename file else dst)) w
      = Returned made w' ->
      hasDriver m_drivers file = false ->
      copyFile m_drivers file dst verbose w
      = Threw (ArbiterError ("No driver for " ++ file)) w').
Proof.
  split; [|split; [|split]].
  - intros src dst c Hs Hd Hdir Hb Hc. unfold copy.
    destruct (length src =? 0)%nat eqn:E1;
      [now apply length_0_empty in E1|].
    destruct (length dst =? 0)%nat eqn:E2;
      [now apply length_0_empty in E2|].
    rewrite Hdir, append_nil_r, Hb.
    destruct (Ascii.eqb_spec c "*"); [contradiction | reflexivity].
  - reflexivity.
  - intros file dst Hd Hno. unfold copyFile.
    destruct (length dst =? 0)%nat eqn:E;
      [now apply length_0_empty in E|].
    unfold hasDriver in Hno. unfold getEndpoint, getDriver.
    destruct (drivers_at m_drivers (getType dst)); [discriminate | reflexivity].
  - intros file dst de made w' Hd -> Hde Hlocal Hmk Hno. unfold copyFile.
    destruct (length dst =? 0)%nat eqn:E;
      [now apply length_0_empty in E|].
    rewrite Hde. cbn [bind_value]. rewrite Hlocal, Hmk. cbn [bind].
    unfold hasDriver in Hno. unfold getEndpoint, getDriver.
    destruct (drivers_at m_drivers (getType file)); [discriminate | reflexivity].
Qed.

End File.

Lemma copy_single_file_witness :
  copy MemEnv.drivers "file://a/x" "test://b/y" false MemEnv.world0
  = copyFile MemEnv.drivers "file://a/x" "test://b/y" false MemEnv.world0 /\
  copyFile MemEnv.drivers "file://a/x" "s3://b/y" false MemEnv.world0
  = Threw (ArbiterError "No driver for s3://b/y") MemEnv.world0 /\
  copyFile MemEnv.drivers "s3://a/x" "file://b/y" false MemEnv.world0
  = Threw (ArbiterError "No driver for s3://a/x") MemEnv.world0.
Proof.
  pose proof (copy_single_file MemEnv.drivers false MemEnv.world0)
    as (Hcopy & _ & Hdst & Hsrc).
  split; [|split].
  - apply (Hcopy "file://a/x" "test://b/y" "x"%char);
      try discriminate; reflexivity.
  - apply Hdst; [discriminate | reflexivity].
  - apply (Hsrc "s3://a/x" "file://b/y" ("file", "b/y/") true);
      try discriminate; reflexivity.
Defined.

End CopyFacts.

(** ** Local handles *)

Module HandleFacts.
Import Arbiter ArbiterFacts PathFacts.

Section Handle.
Context {W Driver Endpoint : Type} {env : Env W Driver Endpoint}
        {local : Local W Driver Endpoint}.
Variable m_drivers : list (string * Driver).

(** X9. [getLocalHandle] transfers nothing unless the path is remote and
    the temporary endpoint local: without a driver for the path it throws
    "No driver for"; a local path gives the handle of the path itself,
    without its type, that is not to be erased; a remote path with a remote
    temporary endpoint throws. Otherwise the contents are written to the
    temporary endpoint under a random number followed by a dot and the
    extension of the path, or under the number alone when the path has no
    dot, and the handle is that file under the endpoint's root, to be
    erased. *)
Theorem getLocalHandle_cases (path : string) (tempEndpoint : Endpoint)
    (w : W) :
  (hasDriver m_drivers path = false ->
   getLocalHandle m_drivers path tempEndpoint w
   = Threw (ArbiterError ("No driver for " ++ path)) w) /\
  (isRemote m_drivers path = inr false ->
   getLocalHandle m_drivers path tempEndpoint w
   = Returned {| localPath := expandTilde (stripType path); erase := false |}
       w) /\
  (isRemote m_drivers path = inr true ->
   endpoint_isRemote tempEndpoint = true ->
   getLocalHandle m_drivers path tempEndpoint w
   = Threw (ArbiterError "Temporary endpoint must be local.") w) /\
  (forall name number w1 data w2 w3,
      isRemote m_drivers path = inr true ->
      endpoint_isRemote tempEndpoint = false ->
      randomNumber w = (number, w1) ->
      ((exists base ext,
           path = base ++ "." ++ ext /\ ext <> "" /\ ~ occurs "." ext /\
           name = string_of_N number ++ "." ++ ext) \/
       ((~ occurs "." path \/ exists base, path = base ++ ".") /\
        name = string_of_N number)) ->
      getBinary m_drivers path w1 = Returned data w2 ->
      endpoint_put tempEndpoint name data w2 = Returned tt w3 ->
      getLocalHandle m_drivers path tempEndpoint w
      = Returned {| localPath := endpoint_root tempEndpoint ++ name;
                    erase := true |} w3).
Proof.
  split; [|split; [|split]].
  - intros H. unfold getLocalHandle, isRemote, getDriver.
    unfold hasDriver in H.
    destruct (drivers_at m_drivers (getType path)); [discriminate | reflexivity].
  - intros H. unfold getLocalHandle. now rewrite H.
  - intros H Ht. unfold getLocalHandle. rewrite H. cbn [bind_value].
    now rewrite Ht.
  - intros name number w1 data w2 w3 H Ht Hr Hname Hget Hput.
    unfold getLocalHandle. rewrite H. cbn [bind_value]. rewrite Ht, Hr.
    assert (Hn : string_of_N number ++
                 (if (0 <? length (getExtension path))%nat
                  then "." ++ getExtension path else "") = name).
    { destruct Hname as [(base & ext & -> & Hne & Hno & ->) | [Hp ->]].
      - rewrite (proj1 (extension_cut base ext Hno)).
        destruct ext; [congruence | reflexivity].
      - assert (He : getExtension path = "").
        { destruct Hp as [Hp | [base ->]].
          - exact (proj1 (extension_none path Hp)).
          - change (base ++ ".") with (base ++ "." ++ "").
            apply extension_cut. intros [a [b Hab]]. destruct a; discriminate. }
        rewrite He. apply append_nil_r. }
    rewrite Hn, Hget. cbn [bind]. rewrite Hput. reflexivity.
Qed.

End Handle.

Lemma getLocalHandle_cases_witness :
  getLocalHandle MemEnv.drivers "s3://bucket/x.laz" ("file", "tmp/")
    MemLocal.world1
  = Threw (ArbiterError "No driver for s3://bucket/x.laz") MemLocal.world1 /\
  getLocalHandle MemEnv.drivers "file://a/x.laz" ("file", "tmp/")
    MemLocal.world1
  = Returned {| localPath := "a/x.laz"; erase := false |} MemLocal.world1 /\
  getLocalHandle MemEnv.drivers "test://a/x.laz" ("test", "tmp/")
    MemLocal.world1
  = Threw (ArbiterError "Temporary endpoint must be local.") MemLocal.world1 /\
  getLocalHandle MemEnv.drivers "test://a/x.laz" ("file", "tmp/")
    MemLocal.world1
  = Returned {| localPath := "tmp/" ++ "1.laz"; erase := true |}
      (("file://tmp/1.laz", [x01]) :: MemLocal.world1).
Proof.
  split; [|split; [|split]].
  - apply getLocalHandle_cases. reflexivity.
  - exact (proj1 (proj2 (getLocalHandle_cases MemEnv.drivers "file://a/x.laz"
                           ("file", "tmp/") MemLocal.world1)) eq_refl).
  - apply (proj1 (proj2 (proj2 (getLocalHandle_cases MemEnv.drivers
                                  "test://a/x.laz" ("test", "tmp/")
                                  MemLocal.world1))));
      reflexivity.
  - refine (proj2 (proj2 (proj2 (getLocalHandle_cases MemEnv.drivers
                                   "test://a/x.laz" ("file", "tmp/")
                                   MemLocal.world1)))
              "1.laz" 1%N MemLocal.world1 [x01] MemLocal.world1
              (("file://tmp/1.laz", [x01]) :: MemLocal.world1)
              eq_refl eq_refl eq_refl _ eq_refl eq_refl).
    left. exists "test://a/x", "laz".
    split; [reflexivity|]. split; [discriminate|]. split; [|reflexivity].
    apply (find_last_of_None_iff "laz" "."). reflexivity.
Defined.

End HandleFacts.

(** ** Bucket and object of a path with a slash *)

Module BucketFacts.
Import S3 S3Facts ArbiterFacts.

Lemma pop_back_app (a o : string) :
  o <> "" -> pop_back (a ++ o) = a ++ pop_back o.
Proof.
  intros Ho. induction a as [|x a IH]; [reflexivity|].
  cbn [append pop_back]. rewrite IH.
  destruct (a ++ o) eqn:E; [|reflexivity].
  destruct a; [cbn in E; congruence | discriminate].
Qed.

Lemma pop_back_app_char (s : string) (c : ascii) :
  pop_back (s ++ String c "") = s.
Proof.
  rewrite pop_back_app by discriminate. apply append_nil_r.
Qed.

(** The first slash of [b ++ "/" ++ x] is at [length b] when [b] has none. *)
Lemma find_slash_app (b x : string) :
  ~ occurs "/" b -> find (b ++ "/" ++ x) "/" 0 = Some (length b).
Proof.
  unfold find. induction b as [|c b IH]; intros Hno.
  - change ("" ++ "/" ++ x) with (String "/" x). cbn [index length].
    change (String "/" x) with ("/" ++ x). now rewrite prefix_app.
  - change (String c b ++ "/" ++ x) with (String c (b ++ "/" ++ x)).
    cbn [index length].
    assert (Hc : c <> "/"%char).
    { intros ->. apply Hno. now exists "", b. }
    assert (Hp : prefix "/" (String c (b ++ "/" ++ x)) = false).
    { cbn [prefix]. destruct (ascii_dec "/" c); [congruence | reflexivity]. }
    rewrite Hp. rewrite IH; [reflexivity|].
    intros [a [d ->]]. apply Hno. now exists (String c a), d.
Qed.

(** X10. The bucket of a path is what precedes its first slash and the
    object all that follows it: for [b] without a slash and a non-empty
    [o], the path [b ++ "/" ++ o] has the bucket [b] and the object [o],
    slashes of [o] included. A path whose only slash is its last character
    keeps that slash in the bucket, and its object is empty. *)
Theorem bucket_is_first_segment :
  (forall b o : string,
      ~ occurs "/" b -> o <> "" ->
      getBucket (b ++ "/" ++ o) = Value b /\
      getObject (b ++ "/" ++ o) = Value o) /\
  (forall b : string,
      ~ occurs "/" b ->
      getBucket (b ++ "/") = Value (b ++ "/") /\
      getObject (b ++ "/") = Value "").
Proof.
  split.
  - intros b o Hb Ho.
    assert (Hs : split (b ++ "/" ++ o) = Value (Some (length b))).
    { unfold split.
      destruct (back (b ++ "/" ++ o)) as [c|] eqn:E.
      - destruct (Ascii.eqb c "/").
        + rewrite <- append_assoc, (pop_back_app (b ++ "/") o Ho), append_assoc.
          now rewrite (find_slash_app b (pop_back o) Hb).
        + now rewrite (find_slash_app b o Hb).
      - apply back_None_iff in E. destruct b; discriminate. }
    unfold getBucket, getObject. rewrite Hs. split.
    + now rewrite substr_take_app.
    + rewrite <- append_assoc.
      replace (length b + 1) with (length (b ++ "/"))
        by (rewrite length_append; reflexivity).
      now rewrite substr_skip_app.
  - intros b Hb.
    assert (Hs : split (b ++ "/") = Value None).
    { unfold split. rewrite back_app_char.
      change (Ascii.eqb "/" "/") with true. cbv iota.
      rewrite pop_back_app_char. unfold find.
      f_equal. apply index_None_iff; [discriminate | exact Hb]. }
    unfold getBucket, getObject. rewrite Hs. split; [|reflexivity].
    unfold substr. f_equal. apply substring_0_all. lia.
Qed.

Lemma bucket_is_first_segment_witness :
  (getBucket ("bucket" ++ "/" ++ "dir/key/") = Value "bucket" /\
   getObject ("bucket" ++ "/" ++ "dir/key/") = Value "dir/key/") /\
  (getBucket ("bucket" ++ "/") = Value ("bucket" ++ "/") /\
   getObject ("bucket" ++ "/") = Value "").
Proof.
  assert (Hno : ~ occurs "/" "bucket").
  { apply (index_None_iff "/" "bucket"); [discriminate | reflexivity]. }
  split.
  - apply (proj1 bucket_is_first_segment); [exact Hno | discriminate].
  - apply (proj2 bucket_is_first_segment). exact Hno.
Defined.

End BucketFacts.

(** ** Sleeps and the warning of the retry loop *)

Module BackoffFacts.
Import S3 Scripted RetryFacts.

Local Abbreviation warning := ("Detected bad S3 connection quality" ++ nl).

Lemma httpExec_loop_warns (script : nat -> HttpResponse) (tries : nat) :
  (N.of_nat tries < 2 ^ 64)%N ->
  forall fuel j sleepTime w out,
    List.length (slept w) = j ->
    printed w = (if (6 <=? j)%nat then [warning] else []) ->
    (j < tries)%nat ->
    httpExec_loop fuel (op script) (N.of_nat tries) (N.of_nat j) sleepTime w
    = Some out ->
    exists res w',
      out = Returned res w' /\
      printed w'
      = (if (6 <=? List.length (slept w'))%nat then [warning] else []).
Proof.
  intros Htries. induction fuel as [|fuel IH];
    intros j sleepTime w out Hs Hp Hj Hrun; [discriminate|].
  cbn [httpExec_loop] in Hrun. unfold op at 1 in Hrun.
  destruct (code (script (calls w)) =? 200)%Z eqn:E200.
  - cbn [negb] in Hrun.
    destruct (Z.quot (code (script (calls w))) 100 =? 5)%Z eqn:E5.
    { apply is5xx_quot, is5xx_not_200 in E5. congruence. }
    injection Hrun as <-. eexists _, _. split; [reflexivity|].
    cbn [printed slept]. now rewrite Hs.
  - cbn [negb] in Hrun. cbn [sleep_for host] in Hrun.
    set (w1 := if (N.of_nat j =? 5)%N then _ else _) in Hrun.
    assert (Hw1 : List.length (slept w1) = S j /\
                  printed w1 = (if (6 <=? S j)%nat then [warning] else [])).
    { subst w1. destruct (N.eqb_spec (N.of_nat j) 5) as [E|E].
      - assert (Hj5 : j = 5%nat) by lia. rewrite Hj5 in *.
        cbn [slept printed cout host]. rewrite length_app, Hs, Hp.
        split; reflexivity.
      - cbn [slept printed]. rewrite length_app, Hs, Hp. split; [cbn; lia|].
        destruct (Nat.leb_spec 6 j), (Nat.leb_spec 6 (S j)); try reflexivity; lia. }
    destruct Hw1 as [Hs1 Hp1].
    destruct (Z.quot (code (script (calls w))) 100 =? 5)%Z.
    + rewrite size_t_small in Hrun by lia.
      replace (N.of_nat j + 1)%N with (N.of_nat (S j)) in Hrun by lia.
      destruct (N.ltb_spec (N.of_nat (S j)) (N.of_nat tries)) as [Hlt|Hge].
      * exact (IH (S j) _ w1 out Hs1 Hp1 ltac:(lia) Hrun).
      * injection Hrun as <-. eexists _, _. split; [reflexivity|].
        now rewrite Hs1.
    + injection Hrun as <-. eexists _, _. split; [reflexivity|].
      now rewrite Hs1.
Qed.

(** X11. On a scripted operation [httpExec] sleeps once after every answer
    that is not 200, the last one included: an answer that is neither 200
    nor 5xx ends the loop after one invocation and one sleep of the base
    time. The warning "Detected bad S3 connection quality" is printed once,
    at the sixth such answer, and never otherwise. *)
Theorem httpExec_sleeps_and_warns (script : nat -> HttpResponse) :
  (exists res w,
      httpExec (op script) httpAttempts start = Some (Returned res w) /\
      List.length (slept w)
      = (if (code res =? 200)%Z then calls w - 1 else calls w)%nat /\
      printed w
      = (if (6 <=? List.length (slept w))%nat then [warning] else [])) /\
  (code (script 0%nat) <> 200%Z -> ~ is5xx (code (script 0%nat)) ->
   exists w,
     httpExec (op script) httpAttempts start
     = Some (Returned (script 0%nat) w) /\
     calls w = 1%nat /\ slept w = [baseSleepTime] /\ printed w = []).
Proof.
  destruct (httpExec_scripted script)
    as (w & n & Hrun & Hn & Hc & H5 & Hlast & Hs).
  assert (Hp : printed w
               = (if (6 <=? List.length (slept w))%nat then [warning] else [])).
  { destruct (httpExec_loop_warns script 200 ltac:(reflexivity)
                (S (N.to_nat httpAttempts)) 0 baseSleepTime start _
                eq_refl eq_refl ltac:(lia) Hrun)
      as (res & w' & Heq & Hp).
    injection Heq as _ <-. exact Hp. }
  split.
  - exists (script (n - 1)%nat), w. split; [exact Hrun|]. split; [|exact Hp].
    rewrite Hs, backoff_length, Hc. reflexivity.
  - intros H200 Hn5.
    assert (Hn' : n = 1%nat).
    { destruct (Nat.eq_dec n 1) as [|Hne]; [assumption|].
      exfalso. apply Hn5, H5. lia. }
    rewrite Hn' in *. cbn [Nat.sub] in *.
    exists w. split; [exact Hrun|]. split; [exact Hc|].
    apply Z.eqb_neq in H200. rewrite H200 in Hs.
    split; [exact Hs|]. now rewrite Hp, Hs.
Qed.

Lemma httpExec_sleeps_and_warns_witness :
  exists w,
    httpExec (op (fun _ => {| code := 404; data := [] |})) httpAttempts start
    = Some (Returned {| code := 404; data := [] |} w) /\
    calls w = 1%nat /\ slept w = [baseSleepTime] /\ printed w = [].
Proof.
  apply (proj2 (httpExec_sleeps_and_warns
                  (fun _ => {| code := 404; data := [] |}))).
  - discriminate.
  - unfold is5xx. cbn. lia.
Defined.

End BackoffFacts.

(** ** Outcomes of get and put *)

Module TransferFacts.
Import S3 S3Facts RetryFacts.

Section Transfer.
Context {W : Type} {host : Host W}.

(** What the retry loop returns is an answer of the operation, and after a
    200 the world is the one the operation left. *)
Lemma httpExec_loop_returned (f : W -> Outcome W HttpResponse) :
  forall fuel tries fails sleepTime w res w',
    httpExec_loop fuel f tries fails sleepTime w = Some (Returned res w') ->
    exists w0 w1,
      f w0 = Returned res w1 /\ (code res = 200%Z -> w' = w1).
Proof.
  induction fuel as [|fuel IH]; intros tries fails sleepTime w res w' H;
    [discriminate|].
  cbn [httpExec_loop] in H.
  destruct (f w) as [r w1|e w1|] eqn:Ef; [|discriminate|discriminate].
  destruct (code r =? 200)%Z eqn:E200; cbn [negb] in H.
  - destruct (Z.quot (code r) 100 =? 5)%Z eqn:E5.
    { apply Z.eqb_eq in E200. rewrite E200 in E5. discriminate. }
    injection H as <- <-. exists w, w1. split; [exact Ef | reflexivity].
  - destruct (Z.quot (code r) 100 =? 5)%Z.
    + destruct (size_t (fails + 1) <? tries)%N.
      * exact (IH _ _ _ _ _ _ H).
      * injection H as <- <-. exists w, w1. split; [exact Ef|].
        intros H200. apply Z.eqb_neq in E200. contradiction.
    + injection H as <- <-. exists w, w1. split; [exact Ef|].
      intros H200. apply Z.eqb_neq in E200. contradiction.
Qed.

Lemma httpExec_loop_threw (f : W -> Outcome W HttpResponse) :
  forall fuel tries fails sleepTime w e w',
    httpExec_loop fuel f tries fails sleepTime w = Some (Threw e w') ->
    exists w0, f w0 = Threw e w'.
Proof.
  induction fuel as [|fuel IH]; intros tries fails sleepTime w e w' H;
    [discriminate|].
  cbn [httpExec_loop] in H.
  destruct (f w) as [r w1|e1 w1|] eqn:Ef; [| |discriminate].
  - destruct (negb (code r =? 200)%Z);
      destruct (Z.quot (code r) 100 =? 5)%Z; try discriminate;
      destruct (size_t (fails + 1) <? tries)%N; try discriminate;
      exact (IH _ _ _ _ _ _ H).
  - injection H as <- <-. now exists w.
Qed.

Lemma httpExec_attempts_total (f : W -> Outcome W HttpResponse) (w : W) :
  httpExec f httpAttempts w <> None.
Proof.
  unfold httpExec.
  apply httpExec_loop_total; [reflexivity | now right | lia | lia].
Qed.

Variable this : S3Driver.

(** X12. [get] and [put] always come to an end. [get] returns only the body
    of an answer with status 200 that the server gave to the request for the
    bucket and object of the path, and leaves the world of that answer; it
    throws nothing but "Couldn't fetch" and the path. [put] returns only
    after an answer with status 200 and throws nothing but "Couldn't write"
    and the path. *)
Theorem get_put_outcomes (path : string) (w : W) :
  get this path w <> None /\
  (forall d w',
      get this path w = Some (Returned d w') ->
      exists bucket object w0 res,
        getBucket path = Value bucket /\ getObject path = Value object /\
        tryGet this bucket object [] w0 = (res, w') /\
        code res = 200%Z /\ data res = d) /\
  (forall e w',
      get this path w = Some (Threw e w') ->
      e = runtime_error ("Couldn't fetch " ++ path)) /\
  (forall payload,
      put this path payload w <> None /\
      (forall w',
          put this path payload w = Some (Returned tt w') ->
          exists w0 res,
            tryPut this path payload w0 = Returned res w' /\
            code res = 200%Z) /\
      (forall e w',
          put this path payload w = Some (Threw e w') ->
          e = runtime_error ("Couldn't write " ++ path))).
Proof.
  split; [|split; [|split]].
  - unfold get.
    match goal with
    | |- context [httpExec ?f ?n ?w0] =>
        pose proof (httpExec_attempts_total f w0) as Ht;
        destruct (httpExec f n w0) as [[res w1|e w1|]|]
    end; try discriminate; [|contradiction].
    destruct (negb (code res =? 200)%Z); discriminate.
  - intros d w' H. unfold get in H.
    match type of H with
    | context [httpExec ?f ?n ?w0] =>
        destruct (httpExec f n w0) as [[res w1|e w1|]|] eqn:E
    end; try discriminate.
    destruct (code res =? 200)%Z eqn:E200; cbn [negb] in H; [|discriminate].
    injection H as <- <-. apply Z.eqb_eq in E200.
    unfold httpExec in E.
    destruct (httpExec_loop_returned _ _ _ _ _ _ _ _ E) as (w0 & w2 & Hf & Hw).
    destruct (getBucket path) as [bucket|]; [|discriminate].
    destruct (getObject path) as [object|]; [|discriminate].
    exists bucket, object, w0, res.
    destruct (tryGet this bucket object [] w0) as [r w3] eqn:Etry.
    injection Hf as -> ->. rewrite (Hw E200).
    repeat split; assumption || reflexivity.
  - intros e w' H. unfold get in H.
    match type of H with
    | context [httpExec ?f ?n ?w0] =>
        destruct (httpExec f n w0) as [[res w1|e1 w1|]|] eqn:E
    end; try discriminate.
    + destruct (negb (code res =? 200)%Z); [|discriminate].
      now injection H as <- _.
    + exfalso. unfold httpExec in E.
      destruct (httpExec_loop_threw _ _ _ _ _ _ _ _ E) as (w0 & Hf).
      destruct (getBucket path); [|discriminate].
      destruct (getObject path); [|discriminate].
      destruct (tryGet this _ _ [] w0). discriminate.
  - intros payload. split; [|split].
    + unfold put.
      match goal with
      | |- context [httpExec ?f ?n ?w0] =>
          pose proof (httpExec_attempts_total f w0) as Ht;
          destruct (httpExec f n w0) as [[res w1|e w1|]|]
      end; try discriminate; [|contradiction].
      destruct (negb (code res =? 200)%Z); discriminate.
    + intros w' H. unfold put in H.
      match type of H with
      | context [httpExec ?f ?n ?w0] =>
          destruct (httpExec f n w0) as [[res w1|e w1|]|] eqn:E
      end; try discriminate.
      destruct (code res =? 200)%Z eqn:E200; cbn [negb] in H; [|discriminate].
      injection H as <-. apply Z.eqb_eq in E200.
      unfold httpExec in E.
      destruct (httpExec_loop_returned _ _ _ _ _ _ _ _ E)
        as (w0 & w2 & Hf & Hw).
      exists w0, res. rewrite (Hw E200). split; assumption.
    + intros e w' H. unfold put in H.
      match type of H with
      | context [httpExec ?f ?n ?w0] =>
          destruct (httpExec f n w0) as [[res w1|e1 w1|]|] eqn:E
      end; try discriminate.
      * destruct (negb (code res =? 200)%Z); [|discriminate].
        now injection H as <- _.
      * exfalso. unfold httpExec in E.
        destruct (httpExec_loop_threw _ _ _ _ _ _ _ _ E) as (w0 & Hf).
        unfold tryPut in Hf.
        destruct (getBucket path); [|discriminate].
        destruct (getObject path); [|discriminate].
        destruct (curl_put _ _ _ _). discriminate.
Qed.

End Transfer.

Local Abbreviation ok_host :=
  (Listing.host (Listing.scripted [{| code := 200; data := [x6f; x6b] |}]) []).

Local Abbreviation no_host := (Listing.host (Listing.scripted []) []).

Lemma get_put_outcomes_witness :
  (exists bucket object w0 res,
      getBucket "bucket/key" = Value bucket /\
      getObject "bucket/key" = Value object /\
      (tryGet (host := ok_host) Listing.this bucket object [] w0
       = (res, {| Listing.served := 1;
                  Listing.requests :=
                    ["http://bucket.s3.amazonaws.com/key"] |})) /\
      code res = 200%Z /\ data res = [x6f; x6b]) /\
  (get (host := no_host) Listing.this "bucket/key" Listing.start
   = Some (Threw (runtime_error "Couldn't fetch bucket/key")
             {| Listing.served := 1;
                Listing.requests := ["http://bucket.s3.amazonaws.com/key"] |}) /\
   runtime_error "Couldn't fetch bucket/key"
   = runtime_error ("Couldn't fetch " ++ "bucket/key")).
Proof.
  split.
  - apply (proj1 (proj2 (get_put_outcomes (host := ok_host)
             Listing.this "bucket/key" Listing.start))).
    vm_compute. reflexivity.
  - split; [vm_compute; reflexivity|].
    apply (proj1 (proj2 (proj2 (get_put_outcomes (host := no_host)
             Listing.this "bucket/key" Listing.start)))
             (runtime_error "Couldn't fetch bucket/key")
             {| Listing.served := 1;
                Listing.requests := ["http://bucket.s3.amazonaws.com/key"] |}).
    vm_compute. reflexivity.
Defined.

Section Cap.
Context {W : Type} {host : Host W}.

Lemma httpExec_loop_more_fuel (f : W -> Outcome W HttpResponse) :
  forall fuel tries fails sleepTime w out,
    httpExec_loop fuel f tries fails sleepTime w = Some out ->
    httpExec_loop (S fuel) f tries fails sleepTime w = Some out.
Proof.
  induction fuel as [|fuel IH]; intros tries fails sleepTime w out H;
    [discriminate|].
  cbn [httpExec_loop] in H. cbn [httpExec_loop].
  destruct (f w) as [res w1|e w1|]; [|exact H|exact H].
  destruct (negb (code res =? 200)%Z);
    (destruct (Z.quot (code res) 100 =? 5)%Z; [|exact H]);
    (destruct (size_t (fails + 1) <? tries)%N; [|exact H]);
    apply IH in H; exact H.
Qed.

Lemma httpExec_loop_undefined (f : W -> Outcome W HttpResponse) :
  forall fuel tries fails sleepTime w,
    httpExec_loop fuel f tries fails sleepTime w = Some Undefined ->
    exists w0, f w0 = Undefined.
Proof.
  induction fuel as [|fuel IH]; intros tries fails sleepTime w H;
    [discriminate|].
  cbn [httpExec_loop] in H.
  destruct (f w) as [r w1|e1 w1|] eqn:Ef; [|discriminate|now exists w].
  destruct (negb (code r =? 200)%Z);
    destruct (Z.quot (code r) 100 =? 5)%Z; try discriminate;
    destruct (size_t (fails + 1) <? tries)%N; try discriminate;
    exact (IH _ _ _ _ H).
Qed.

(** The loop exits within [max(1, tries)] iterations, and what it gives was
    given by the operation. *)
Lemma httpExec_within_cap (f : W -> Outcome W HttpResponse) (tries : N)
    (w : W) :
  (tries < 2 ^ 64)%N ->
  exists out,
    httpExec_loop (Nat.max 1 (N.to_nat tries)) f tries 0 baseSleepTime w
    = Some out /\
    httpExec f tries w = Some out /\
    match out with
    | Returned res _ => exists w0 w1, f w0 = Returned res w1
    | Threw e w' => exists w0, f w0 = Threw e w'
    | Undefined => exists w0, f w0 = Undefined
    end.
Proof.
  intros Htries.
  destruct (httpExec_loop (Nat.max 1 (N.to_nat tries)) f tries 0 baseSleepTime w)
    as [out|] eqn:E.
  - exists out. split; [reflexivity|]. split.
    + unfold httpExec. destruct (Nat.max_spec 1 (N.to_nat tries)) as [[Hlt Hm]|[Hle Hm]].
      * rewrite Hm in E. now apply httpExec_loop_more_fuel.
      * rewrite Hm in E.
        assert (H0 : N.to_nat tries = 0%nat \/ N.to_nat tries = 1%nat) by lia.
        destruct H0 as [H0|H0]; rewrite H0.
        -- exact E.
        -- now apply httpExec_loop_more_fuel.
    + destruct out as [res w'|e w'|].
      * destruct (httpExec_loop_returned f _ _ _ _ _ _ _ E) as (w0 & w1 & Hf & _).
        now exists w0, w1.
      * exact (httpExec_loop_threw f _ _ _ _ _ _ _ E).
      * exact (httpExec_loop_undefined f _ _ _ _ _ E).
  - exfalso. revert E.
    apply httpExec_loop_total; [assumption | now right | lia | lia].
Qed.

End Cap.

(** X1. For every operation and every attempt cap that fits [std::size_t],
    [httpExec] exits its loop within [max(1, tries)] iterations, and what
    it returns or throws, and any undefined behaviour, is what the operation
    gave at one of its invocations. On a scripted operation it makes at
    least one and at most [max(1, tries)] invocations and returns the answer
    of the last one. *)
Theorem httpExec_terminates :
  (forall (W : Type) (host : Host W) (f : W -> Outcome W HttpResponse)
          (tries : N) (w : W),
      (tries < 2 ^ 64)%N ->
      exists out,
        httpExec_loop (Nat.max 1 (N.to_nat tries)) f tries 0 baseSleepTime w
        = Some out /\
        httpExec f tries w = Some out /\
        match out with
        | Returned res _ => exists w0 w1, f w0 = Returned res w1
        | Threw e w' => exists w0, f w0 = Threw e w'
        | Undefined => exists w0, f w0 = Undefined
        end) /\
  (forall (script : nat -> HttpResponse) (tries : nat),
      (N.of_nat tries < 2 ^ 64)%N ->
      exists w',
        httpExec (Scripted.op script) (N.of_nat tries) Scripted.start
        = Some (Returned (script (Scripted.calls w' - 1)%nat) w') /\
        (1 <= Scripted.calls w' <= Nat.max 1 tries)%nat).
Proof.
  split.
  - intros W host f tries w. apply httpExec_within_cap.
  - intros script [|tries] Htries.
    + unfold httpExec. cbn [N.of_nat N.to_nat httpExec_loop].
      unfold Scripted.op at 1. cbn [Scripted.calls Scripted.start].
      destruct (negb (code (script 0%nat) =? 200)%Z);
        (destruct (Z.quot (code (script 0%nat)) 100 =? 5)%Z;
         [change (size_t (0 + 1) <? 0)%N with false; cbv iota|]);
        match goal with
        | |- exists w', Some (Returned _ ?x) = _ /\ _ =>
            exists x; split; [reflexivity | cbn; lia]
        end.
    + destruct (httpExec_loop_scripted script (S tries) Htries
                  (S (N.to_nat (N.of_nat (S tries)))) 0 Scripted.start
                  eq_refl eq_refl ltac:(lia) ltac:(lia))
        as (w' & n & Hrun & Hn & Hc & _).
      exists w'. rewrite Hc. split; [exact Hrun | lia].
Qed.

Lemma httpExec_terminates_witness :
  (exists out,
      httpExec_loop (Nat.max 1 (N.to_nat 3)) (Scripted.op (Scripted.fail_then_ok 5))
        3 0 baseSleepTime Scripted.start
      = Some out /\
      httpExec (Scripted.op (Scripted.fail_then_ok 5)) 3 Scripted.start
      = Some out /\
      match out with
      | Returned res _ =>
          exists w0 w1, Scripted.op (Scripted.fail_then_ok 5) w0 = Returned res w1
      | Threw e w' =>
          exists w0, Scripted.op (Scripted.fail_then_ok 5) w0 = Threw e w'
      | Undefined =>
          exists w0, Scripted.op (Scripted.fail_then_ok 5) w0 = Undefined
      end) /\
  (exists w',
      httpExec (Scripted.op (Scripted.fail_then_ok 5)) (N.of_nat 3)
        Scripted.start
      = Some (Returned (Scripted.fail_then_ok 5 (Scripted.calls w' - 1)) w') /\
      (1 <= Scripted.calls w' <= Nat.max 1 3)%nat).
Proof.
  split.
  - apply (proj1 httpExec_terminates). reflexivity.
  - apply (proj2 httpExec_terminates (Scripted.fail_then_ok 5) 3%nat).
    reflexivity.
Defined.

End TransferFacts.

(** ** Errors of the listing *)

Module PageFacts.
Import S3 S3Facts GlobFacts.

(** A path ends in "/*" exactly when [glob] accepts it. *)
Lemma glob_suffix_test (path : string) :
  ((length path <? 2)%nat ||
   negb (String.eqb (substr path (length path - 2) None) "/*"))%bool = false
  <-> exists p, path = p ++ "/*".
Proof.
  split.
  - intros H. apply orb_false_iff in H. destruct H as [Hl He].
    apply Nat.ltb_ge in Hl. apply negb_false_iff, String.eqb_eq in He.
    exists (substring 0 (length path - 2) path).
    unfold substr in He. rewrite <- He.
    apply PathFacts.substring_cut. lia.
  - intros [p ->].
    assert (Hlen : (length (p ++ "/*") - 2 = length p)%nat).
    { rewrite length_append. simpl. lia. }
    rewrite Hlen, substr_skip_app. apply orb_false_iff. split.
    + apply Nat.ltb_ge. rewrite length_append. simpl. lia.
    + reflexivity.
Qed.

Section Contents.
Variables bucket object prefix : string.
Variable more : bool.

Lemma contents_loop_app (c1 c2 : list XmlNode) :
  forall results query,
    contents_loop bucket object prefix more (c1 ++ c2)%list results query
    = match contents_loop bucket object prefix more c1 results query with
      | inl e => inl e
      | inr (results, query) =>
          contents_loop bucket object prefix more c2 results query
      end.
Proof.
  induction c1 as [|[name value children] c1 IH]; intros results query;
    [reflexivity|].
  cbn [app contents_loop].
  destruct (first_node children "Key") as [|keyNode ?]; [reflexivity|].
  destruct (find_char (node_value keyNode) "/" (length prefix));
    [apply IH|].
  destruct more; [|apply IH].
  destruct (substr_out_of_range (node_value keyNode) (length prefix));
    [reflexivity | apply IH].
Qed.

Lemma contents_loop_no_key (bad : XmlNode) (after : list XmlNode)
    (results : list string) (query : Query) :
  key_of bad = None ->
  contents_loop bucket object prefix more (bad :: after) results query
  = inl (runtime_error badResponse).
Proof.
  destruct bad as [name value children]. unfold key_of. cbn [node_children].
  intros H. cbn [contents_loop].
  destruct (first_node children "Key"); [reflexivity | discriminate].
Qed.

Lemma contents_loop_short_key (bad : XmlNode) (after : list XmlNode)
    (results : list string) (query : Query) (k : string) :
  key_of bad = Some k -> more = true ->
  qualifies prefix k = true -> length k < length prefix ->
  contents_loop bucket object prefix more (bad :: after) results query
  = inl out_of_range.
Proof.
  destruct bad as [name value children]. unfold key_of. cbn [node_children].
  intros H Hm Hq Hl. cbn [contents_loop].
  destruct (first_node children "Key") as [|keyNode ?]; [discriminate|].
  injection H as H. rewrite H. unfold qualifies in Hq.
  destruct (find_char k "/" (length prefix)); [discriminate|].
  rewrite Hm. unfold substr_out_of_range.
  destruct (Nat.ltb_spec (length k) (length prefix)); [reflexivity | lia].
Qed.

End Contents.

Section Errors.
Context {W : Type} {host : Host W}.
Variables (this : S3Driver) (verbose : bool).

(** X13. [glob] accepts exactly the paths that end in "/*": any other path
    throws "Invalid glob path: " and the path before any request is made,
    and a path [p ++ "/*"] with a non-empty [p] starts the listing of the
    bucket and object of [p]. *)
Theorem glob_path_check (fuel : nat) (w : W) :
  (forall path,
      ~ (exists p, path = p ++ "/*") ->
      glob this fuel path verbose w
      = Some (Threw (runtime_error ("Invalid glob path: " ++ path)) w)) /\
  (forall p,
      p <> "" ->
      exists bucket object,
        getBucket p = Value bucket /\ getObject p = Value object /\
        glob this fuel (p ++ "/*") verbose w
        = glob_loop this fuel verbose bucket object (prefix_of object)
            (first_query object) false [] w).
Proof.
  split.
  - intros path Hno. unfold glob.
    destruct ((length path <? 2)%nat ||
              negb (String.eqb (substr path (length path - 2) None) "/*"))%bool
      eqn:E; [reflexivity|].
    apply glob_suffix_test in E. contradiction.
  - intros p Hp.
    destruct (getBucket p) as [bucket|] eqn:Eb.
    + destruct (getObject p) as [object|] eqn:Eo.
      * exists bucket, object. split; [reflexivity|]. split; [reflexivity|].
        exact (glob_enters_loop this verbose fuel p bucket object w Eb Eo).
      * exfalso. unfold getObject in Eo. unfold getBucket in Eb.
        destruct (split p) as [[pos|]|]; discriminate.
    + exfalso. unfold getBucket in Eb.
      destruct (split p) eqn:Es; [discriminate|].
      apply split_UB_iff in Es. contradiction.
Qed.

Variables (bucket object prefix : string).

(** X14. The errors of one page of the listing, in the world after the
    request: a status other than 200 throws "Couldn't query bucket
    contents"; a body that does not parse throws the parser's error; a
    document without [ListBucketResult] throws [badResponse]; so does the
    first element without a [Key] among the first [Contents] and all the
    siblings that follow it, whatever their names; and on a truncated page
    a key shorter than the prefix throws [std::out_of_range]. *)
Theorem glob_page_errors (fuel : nat) (query : Query) (more_in : bool)
    (results : list string) (w : W) (res : HttpResponse) (w' : W) :
  fetch this verbose bucket query w = Some (Returned res w') ->
  (code res <> 200%Z ->
   glob_loop this (S fuel) verbose bucket object prefix query more_in results w
   = Some (Threw (runtime_error "Couldn't query bucket contents") w')) /\
  (code res = 200%Z -> xml_parse (body res) = None ->
   glob_loop this (S fuel) verbose bucket object prefix query more_in results w
   = Some (Threw parse_error w')) /\
  (forall xml,
      code res = 200%Z -> xml_parse (body res) = Some xml ->
      first_node xml "ListBucketResult" = [] ->
      glob_loop this (S fuel) verbose bucket object prefix query more_in
        results w
      = Some (Threw (runtime_error badResponse) w')) /\
  (forall xml topNode rest good bad after keys,
      code res = 200%Z -> xml_parse (body res) = Some xml ->
      first_node xml "ListBucketResult" = topNode :: rest ->
      first_node (node_children topNode) "Contents"
      = (good ++ bad :: after)%list ->
      map key_of good = map Some keys ->
      keys_in_range prefix (truncation (node_children topNode) more_in) keys ->
      (key_of bad = None ->
       glob_loop this (S fuel) verbose bucket object prefix query more_in
         results w
       = Some (Threw (runtime_error badResponse) w')) /\
      (forall k,
          key_of bad = Some k ->
          truncation (node_children topNode) more_in = true ->
          qualifies prefix k = true -> length k < length prefix ->
          glob_loop this (S fuel) verbose bucket object prefix query more_in
            results w
          = Some (Threw out_of_range w'))).
Proof.
  intros Hf. unfold fetch in Hf.
  split; [|split; [|split]].
  - intros Hc. cbn [glob_loop]. rewrite Hf.
    apply Z.eqb_neq in Hc. now rewrite Hc.
  - intros Hc Hp. cbn [glob_loop]. rewrite Hf, Hc. cbn [Z.eqb Pos.eqb].
    unfold body in Hp. now rewrite Hp.
  - intros xml Hc Hp Htop. cbn [glob_loop]. rewrite Hf, Hc.
    cbn [Z.eqb Pos.eqb]. unfold body in Hp. now rewrite Hp, Htop.
  - intros xml topNode rest good bad after keys Hc Hp Htop Hcon Hk Hr.
    assert (Hrun : forall e,
               contents_loop bucket object prefix
                 (truncation (node_children topNode) more_in)
                 (bad :: after) (results ++ entries bucket prefix keys)%list
                 (next_query object prefix
                    (truncation (node_children topNode) more_in) keys query)
               = inl e ->
               glob_loop this (S fuel) verbose bucket object prefix query
                 more_in results w
               = Some (Threw e w')).
    { intros e He. cbn [glob_loop]. rewrite Hf, Hc. cbn [Z.eqb Pos.eqb].
      unfold body in Hp. rewrite Hp, Htop.
      fold (truncation (node_children topNode) more_in).
      rewrite Hcon.
      destruct (good ++ bad :: after)%list as [|c cs] eqn:E.
      { destruct good; discriminate. }
      rewrite <- E, contents_loop_app.
      rewrite (contents_loop_spec bucket object prefix _ good keys results
                 query Hk Hr).
      now rewrite He. }
    split.
    + intros Hbad. apply Hrun. now apply contents_loop_no_key.
    + intros k Hbad Hm Hq Hl. apply Hrun.
      now apply (contents_loop_short_key _ _ _ _ _ _ _ _ k).
Qed.

End Errors.

Lemma glob_path_check_witness :
  glob (host := Listing.two_pages_host) Listing.this 0 "bucket/dir/" false
    Listing.start
  = Some (Threw (runtime_error ("Invalid glob path: " ++ "bucket/dir/"))
            Listing.start) /\
  exists bucket object,
    getBucket "bucket" = Value bucket /\ getObject "bucket" = Value object /\
    glob (host := Listing.two_pages_host) Listing.this 2 ("bucket" ++ "/*")
      false Listing.start
    = glob_loop (host := Listing.two_pages_host) Listing.this 2 false bucket
        object (prefix_of object) (first_query object) false [] Listing.start.
Proof.
  split.
  - apply (proj1 (glob_path_check (host := Listing.two_pages_host)
                    Listing.this false 0 Listing.start)).
    intros Hp. apply (glob_suffix_test "bucket/dir/") in Hp. discriminate.
  - apply (proj2 (glob_path_check (host := Listing.two_pages_host)
                    Listing.this false 2 Listing.start)).
    discriminate.
Defined.

Local Abbreviation prefixes_host :=
  (Listing.always (Listing.document Listing.prefixes_xml)
     [Listing.prefixes_xml]).

Local Abbreviation short_key_host :=
  (Listing.always (Listing.document Listing.short_key_xml)
     [Listing.short_key_xml]).

Local Abbreviation one_request :=
  {| Listing.served := 1;
     Listing.requests := ["http://bucket.s3.amazonaws.com/"] |}.

Lemma glob_page_errors_witness :
  glob_loop (host := prefixes_host) Listing.this 1 false "bucket" "" ""
    [] false [] Listing.start
  = Some (Threw (runtime_error badResponse) one_request) /\
  glob_loop (host := short_key_host) Listing.this 1 false "bucket" "dir"
    "dir/" [] false [] Listing.start
  = Some (Threw out_of_range one_request) /\
  glob_loop (host := Listing.always Listing.not_found []) Listing.this 1
    false "bucket" "" "" [] false [] Listing.start
  = Some (Threw (runtime_error "Couldn't query bucket contents") one_request).
Proof.
  split; [|split].
  - refine (proj1 (proj2 (proj2 (proj2
       (glob_page_errors (host := prefixes_host) Listing.this false "bucket"
          "" "" 0 [] false [] Listing.start
          (Listing.document Listing.prefixes_xml) one_request eq_refl)))
       Listing.prefixes_xml
       (Node "ListBucketResult" ""
          [Node "IsTruncated" "false" [];
           Node "Contents" "" [Node "Key" "a" []];
           Node "CommonPrefixes" "" [Node "Prefix" "dir/" []]])
       []
       [Node "Contents" "" [Node "Key" "a" []]]
       (Node "CommonPrefixes" "" [Node "Prefix" "dir/" []])
       [] ["a"] eq_refl eq_refl eq_refl eq_refl eq_refl _) eq_refl).
    intros Hm. discriminate.
  - refine (proj2 (proj2 (proj2 (proj2
       (glob_page_errors (host := short_key_host) Listing.this false "bucket"
          "dir" "dir/" 0 [] false [] Listing.start
          (Listing.document Listing.short_key_xml) one_request eq_refl)))
       Listing.short_key_xml
       (Node "ListBucketResult" ""
          [Node "IsTruncated" "true" [];
           Node "Contents" "" [Node "Key" "d" []]])
       []
       []
       (Node "Contents" "" [Node "Key" "d" []])
       [] [] eq_refl eq_refl eq_refl eq_refl eq_refl _) "d" eq_refl eq_refl
       eq_refl _).
    + intros _. constructor.
    + cbn. lia.
  - refine (proj1 (glob_page_errors (host := Listing.always Listing.not_found [])
       Listing.this false "bucket" "" "" 0 [] false [] Listing.start
       Listing.not_found one_request eq_refl) _).
    discriminate.
Defined.

End PageFacts.

(** ** The truncation flag of a listing page *)

Module TruncationFacts.
Import S3 S3Facts GlobFacts.

(** [tolower] maps exactly a lower-case letter and its upper-case form to
    the lower-case letter. *)
Lemma tolower_lower (c : ascii) (n : nat) :
  97 <= n <= 122 ->
  (tolower c = ascii_of_nat n <->
   c = ascii_of_nat n \/ c = ascii_of_nat (n - 32)).
Proof.
  intros Hn. unfold tolower.
  pose proof (nat_ascii_bounded c) as Hb.
  pose proof (ascii_nat_embedding c) as Hc.
  destruct (Nat.leb_spec 65 (nat_of_ascii c)) as [H65|H65];
    [destruct (Nat.leb_spec (nat_of_ascii c) 90) as [H90|H90]|];
    cbn [andb].
  - split.
    + intros H. right.
      apply (f_equal nat_of_ascii) in H.
      rewrite !nat_ascii_embedding in H by lia.
      rewrite <- Hc. f_equal. lia.
    + intros [H|H]; apply (f_equal nat_of_ascii) in H;
        rewrite nat_ascii_embedding in H by lia; [lia|].
      f_equal. lia.
  - split; [now left|].
    intros [H|H]; [exact H|].
    apply (f_equal nat_of_ascii) in H.
    rewrite nat_ascii_embedding in H by lia. lia.
  - split; [now left|].
    intros [H|H]; [exact H|].
    apply (f_equal nat_of_ascii) in H.
    rewrite nat_ascii_embedding in H by lia. lia.
Qed.

Lemma lowered_true (t : string) :
  string_map tolower t = "true" <->
  exists c1 c2 c3 c4,
    t = String c1 (String c2 (String c3 (String c4 ""))) /\
    (c1 = "t" \/ c1 = "T")%char /\ (c2 = "r" \/ c2 = "R")%char /\
    (c3 = "u" \/ c3 = "U")%char /\ (c4 = "e" \/ c4 = "E")%char.
Proof.
  pose proof (fun c => tolower_lower c 116 ltac:(lia)) as Ht.
  pose proof (fun c => tolower_lower c 114 ltac:(lia)) as Hr.
  pose proof (fun c => tolower_lower c 117 ltac:(lia)) as Hu.
  pose proof (fun c => tolower_lower c 101 ltac:(lia)) as He.
  change (ascii_of_nat 116) with "t"%char in Ht.
  change (ascii_of_nat (116 - 32)) with "T"%char in Ht.
  change (ascii_of_nat 114) with "r"%char in Hr.
  change (ascii_of_nat (114 - 32)) with "R"%char in Hr.
  change (ascii_of_nat 117) with "u"%char in Hu.
  change (ascii_of_nat (117 - 32)) with "U"%char in Hu.
  change (ascii_of_nat 101) with "e"%char in He.
  change (ascii_of_nat (101 - 32)) with "E"%char in He.
  split.
  - intros H.
    destruct t as [|c1 [|c2 [|c3 [|c4 [|c5 t]]]]]; try discriminate.
    cbn [string_map] in H. injection H as H1 H2 H3 H4.
    exists c1, c2, c3, c4. split; [reflexivity|].
    split; [now apply Ht|]. split; [now apply Hr|].
    split; [now apply Hu | now apply He].
  - intros (c1 & c2 & c3 & c4 & -> & H1 & H2 & H3 & H4).
    cbn [string_map].
    apply Ht in H1. apply Hr in H2. apply Hu in H3. apply He in H4.
    now rewrite H1, H2, H3, H4.
Qed.

Section Flag.
Context {W : Type} {host : Host W}.
Variables (this : S3Driver) (verbose : bool) (bucket object prefix : string).

(** X15. The truncation test of a page reads the first [IsTruncated]
    element and ignores the case of its letters: the page is truncated
    exactly when the value is one of the spellings of "true". A page
    without the element keeps the flag of the page before it: as the first
    page it ends the listing, and after a truncated page the loop goes on
    to the next request. *)
Theorem truncation_flag :
  (forall children more_in node rest,
      first_node children "IsTruncated" = node :: rest ->
      (truncation children more_in = true <->
       exists c1 c2 c3 c4,
         node_value node = String c1 (String c2 (String c3 (String c4 ""))) /\
         (c1 = "t" \/ c1 = "T")%char /\ (c2 = "r" \/ c2 = "R")%char /\
         (c3 = "u" \/ c3 = "U")%char /\ (c4 = "e" \/ c4 = "E")%char)) /\
  (forall fuel query more_in results w res w' xml topNode rest keys,
      fetch this verbose bucket query w = Some (Returned res w') ->
      code res = 200%Z ->
      xml_parse (body res) = Some xml ->
      first_node xml "ListBucketResult" = topNode :: rest ->
      first_node (node_children topNode) "IsTruncated" = [] ->
      first_node (node_children topNode) "Contents" <> [] ->
      map key_of (first_node (node_children topNode) "Contents")
      = map Some keys ->
      keys_in_range prefix more_in keys ->
      glob_loop this (S fuel) verbose bucket object prefix query more_in
        results w
      = if more_in
        then glob_loop this fuel verbose bucket object prefix
               (next_query object prefix true keys query) true
               (results ++ entries bucket prefix keys)%list w'
        else Some (Returned (results ++ entries bucket prefix keys)%list w')).
Proof.
  split.
  - intros children more_in node rest Hn. unfold truncation. rewrite Hn.
    rewrite String.eqb_eq. apply lowered_true.
  - intros fuel query more_in results w res w' xml topNode rest keys
      Hf Hc Hp Htop Htr Hne Hk Hr.
    rewrite (glob_loop_page this verbose bucket object prefix fuel query
               more_in results w res w' xml more_in keys Hf Hc Hp).
    + now destruct more_in.
    + exists topNode, rest. split; [exact Htop|]. split; [|split; assumption].
      unfold truncation. now rewrite Htr.
    + exact Hr.
Qed.

End Flag.

Local Abbreviation upper_host :=
  (Listing.always (Listing.document Listing.upper_xml) [Listing.upper_xml]).

Local Abbreviation unflagged_host :=
  (Listing.always (Listing.document Listing.unflagged_xml)
     [Listing.unflagged_xml]).

Lemma truncation_flag_witness :
  truncation [Node "IsTruncated" "TRUE" []; Node "Contents" "" []] false
  = true /\
  glob_loop (host := unflagged_host) Listing.this 1 false "bucket" "" ""
    [] false [] Listing.start
  = Some (Returned ["s3://bucket/a"]
            {| Listing.served := 1;
               Listing.requests := ["http://bucket.s3.amazonaws.com/"] |}).
Proof.
  split.
  - apply (proj1 (truncation_flag (host := upper_host) Listing.this false
                    "bucket" "" "")
             [Node "IsTruncated" "TRUE" []; Node "Contents" "" []] false
             (Node "IsTruncated" "TRUE" []) [Node "Contents" "" []] eq_refl).
    exists "T"%char, "R"%char, "U"%char, "E"%char.
    repeat split; now right.
  - refine (proj2 (truncation_flag (host := unflagged_host) Listing.this false
                     "bucket" "" "")
              0 [] false [] Listing.start
              (Listing.document Listing.unflagged_xml) _ Listing.unflagged_xml
              (Node "ListBucketResult" ""
                 [Node "Contents" "" [Node "Key" "a" []]])
              [] ["a"] eq_refl eq_refl eq_refl eq_refl eq_refl _ eq_refl _).
    + discriminate.
    + intros Hm. discriminate.
Defined.

End TruncationFacts.

(** ** The URL of a request *)

Module UrlFacts.
Import S3 S3Facts GlobFacts.

Local Abbreviation pair_of := (fun q : string * string => fst q ++ "=" ++ snd q).

Local Abbreviation step :=
  (fun '(endpoint, first) (q : string * string) =>
     (endpoint ++ (if first : bool then "?" else "&") ++ fst q ++ "=" ++ snd q,
      false)).

Local Abbreviation later :=
  (fold_right (fun q rest => "&" ++ pair_of q ++ rest) "").

Lemma fold_later (query : Query) :
  forall endpoint,
    fst (fold_left step query (endpoint, false)) = endpoint ++ later query.
Proof.
  induction query as [|q query IH]; intros endpoint; cbn [fold_left fold_right].
  - now rewrite append_nil_r.
  - rewrite IH. now rewrite !append_assoc.
Qed.

Lemma concat_later (q : string * string) (query : Query) :
  String.concat "&" (map pair_of (q :: query)) = pair_of q ++ later query.
Proof.
  revert q. induction query as [|q' query IH]; intros q.
  - cbn [map String.concat fold_right]. now rewrite append_nil_r.
  - change (String.concat "&" (map pair_of (q :: q' :: query)))
      with (pair_of q ++ "&" ++ String.concat "&" (map pair_of (q' :: query))).
    rewrite IH. reflexivity.
Qed.

(** X16. The URL of a GET is "http://", the bucket, ".s3.amazonaws.com/",
    the object and, when the query is not empty, a question mark followed
    by its [key=value] pairs joined by "&", keys and values as they are.
    The first request of a listing carries the prefix alone, and a request
    after a truncated page the marker before the prefix. *)
Theorem request_url (bucket object : string) :
  (forall query,
      getEndpoint bucket object query
      = "http://" ++ bucket ++ ".s3.amazonaws.com/" ++ object ++
        match query with
        | [] => ""
        | _ :: _ => "?" ++ String.concat "&" (map pair_of query)
        end) /\
  getEndpoint bucket "" (first_query object)
  = "http://" ++ bucket ++ ".s3.amazonaws.com/" ++
    (if (length object =? 0)%nat then "" else "?prefix=" ++ object ++ "/") /\
  (forall marker,
      getEndpoint bucket "" (query_set "marker" marker (first_query object))
      = "http://" ++ bucket ++ ".s3.amazonaws.com/" ++
        "?marker=" ++ marker ++
        (if (length object =? 0)%nat then ""
         else "&prefix=" ++ object ++ "/")).
Proof.
  assert (Hgen : forall o query,
             getEndpoint bucket o query
             = "http://" ++ bucket ++ ".s3.amazonaws.com/" ++ o ++
               match query with
               | [] => ""
               | _ :: _ => "?" ++ String.concat "&" (map pair_of query)
               end).
  { intros o [|q query]; unfold getEndpoint, baseUrl.
    - cbn [fold_left fst]. now rewrite append_nil_r.
    - cbn [fold_left]. rewrite fold_later, concat_later.
      rewrite !append_assoc. reflexivity. }
  split; [apply Hgen | split].
  - rewrite Hgen. unfold first_query, prefix_of.
    destruct object as [|c object]; [reflexivity|].
    cbn [length Nat.eqb]. rewrite length_append.
    cbn [length Nat.ltb Nat.leb]. reflexivity.
  - intros marker. rewrite Hgen. unfold first_query, prefix_of.
    destruct object as [|c object];
      [cbn; rewrite ?append_nil_r; reflexivity|].
    cbn [length Nat.eqb]. rewrite length_append.
    cbn [length Nat.ltb Nat.leb Nat.add]. cbn [query_set].
    change (String.compare "marker" "prefix") with Lt. cbv iota.
    cbn [map String.concat fst snd]. rewrite !append_assoc. reflexivity.
Qed.

End UrlFacts.

(** ** Inputs with the same base64 output *)

Module CollisionFacts.
Import S3 Base64Ref Base64Facts.

Lemma encode_groups_zero_tail (n : nat) :
  forall data : list byte,
    List.length data <= n ->
    List.length data mod 3 = 1 ->
    encode_groups (map uint8_of_char (data ++ [x00]))
    = encode_groups (map uint8_of_char data).
Proof.
  induction n as [|n IH]; intros data Hlen Hmod.
  - destruct data; [discriminate | cbn in Hlen; lia].
  - destruct data as [|a [|b [|c rest]]]; try discriminate.
    + reflexivity.
    + cbn [List.length] in Hlen, Hmod. rewrite mod3_SSS in Hmod.
      cbn [app map encode_groups]. f_equal.
      apply IH; [lia | exact Hmod].
Qed.

(** X17. Two inputs have the same [encodeBase64] output exactly when they
    are equal or one of them, of a length that is 1 modulo 3, is the other
    without its final zero byte: on such a length the encoder writes the
    zero byte of its padding into the output. *)
Theorem encodeBase64_collisions (d1 d2 : list byte) :
  encodeBase64 d1 = encodeBase64 d2 <->
  d1 = d2 \/
  (List.length d2 mod 3 = 1 /\ d1 = (d2 ++ [x00])%list) \/
  (List.length d1 mod 3 = 1 /\ d2 = (d1 ++ [x00])%list).
Proof.
  split.
  - intros H. apply (f_equal decode) in H.
    rewrite !decode_encodeBase64 in H.
    destruct (Nat.eqb_spec (List.length d1 mod 3) 1) as [H1|H1];
      destruct (Nat.eqb_spec (List.length d2 mod 3) 1) as [H2|H2];
      injection H as H.
    + left. now apply app_inj_tail in H.
    + right. right. rewrite app_nil_r in H. split; [exact H1 | now symmetry].
    + right. left. rewrite app_nil_r in H. split; assumption.
    + left. now rewrite !app_nil_r in H.
  - intros [->|[[Hm ->]|[Hm ->]]]; [reflexivity| |].
    + rewrite !encodeBase64_groups.
      exact (encode_groups_zero_tail _ d2 (le_n _) Hm).
    + rewrite !encodeBase64_groups. symmetry.
      exact (encode_groups_zero_tail _ d1 (le_n _) Hm).
Qed.

End CollisionFacts.

(** ** The attempt cap of the retry loop *)

Module CapFacts.
Import S3 Scripted RetryFacts.

(** X18. Against answers that are 5xx at every attempt, [httpExec] with the
    cap [tries] invokes the operation [tries] times, and once when the cap
    is 0: the loop body runs before the cap is tested. It returns the last
    answer and has slept after every one of them. *)
Theorem httpExec_attempt_cap (script : nat -> HttpResponse) (tries : nat) :
  (N.of_nat tries < 2 ^ 64)%N ->
  (forall k, (k < Nat.max 1 tries)%nat -> is5xx (code (script k))) ->
  exists w,
    httpExec (op script) (N.of_nat tries) start
    = Some (Returned (script (Nat.max 1 tries - 1)%nat) w) /\
    calls w = Nat.max 1 tries /\
    slept w = backoff (Nat.max 1 tries).
Proof.
  intros Htries Hfail. destruct tries as [|tries].
  - unfold httpExec. cbn [N.of_nat N.to_nat httpExec_loop]. unfold op at 1.
    cbn [calls start].
    rewrite (is5xx_not_200 _ (Hfail 0%nat ltac:(cbn; lia))). cbn [negb].
    rewrite (proj2 (is5xx_quot _) (Hfail 0%nat ltac:(cbn; lia))).
    eexists. split; [reflexivity|]. split; reflexivity.
  - destruct (httpExec_loop_scripted script (S tries) Htries
                (S (N.to_nat (N.of_nat (S tries)))) 0 start eq_refl eq_refl
                ltac:(lia) ltac:(lia))
      as (w & n & Hrun & Hn & Hc & H5 & Hlast & Hs).
    assert (Hn' : n = S tries).
    { destruct (Nat.eq_dec n (S tries)) as [|Hne]; [assumption|].
      exfalso. apply Hlast; [lia | apply Hfail; lia]. }
    rewrite Hn' in *.
    replace (Nat.max 1 (S tries)) with (S tries) by lia.
    exists w. split; [exact Hrun|]. split; [exact Hc|].
    rewrite Hs.
    now rewrite (is5xx_not_200 _ (Hfail (S tries - 1)%nat ltac:(lia))).
Qed.

Lemma httpExec_attempt_cap_witness :
  (exists w,
      httpExec (op (fail_then_ok 1)) (N.of_nat 0) start
      = Some (Returned (fail_then_ok 1 (Nat.max 1 0 - 1)) w) /\
      calls w = Nat.max 1 0 /\
      slept w = backoff (Nat.max 1 0)) /\
  (exists w,
      httpExec (op (fail_then_ok 3)) (N.of_nat 3) start
      = Some (Returned (fail_then_ok 3 (Nat.max 1 3 - 1)) w) /\
      calls w = Nat.max 1 3 /\
      slept w = backoff (Nat.max 1 3)).
Proof.
  split.
  - apply (httpExec_attempt_cap (fail_then_ok 1) 0); [reflexivity|].
    intros k Hk. unfold fail_then_ok.
    destruct (Nat.ltb_spec k 1); [cbn; unfold is5xx; lia | cbn in Hk; lia].
  - apply (httpExec_attempt_cap (fail_then_ok 3) 3); [reflexivity|].
    intros k Hk. unfold fail_then_ok.
    destruct (Nat.ltb_spec k 3); [cbn; unfold is5xx; lia | cbn in Hk; lia].
Defined.

End CapFacts.
